(** * pub: the go.mod scanner, the version splicer and the version decision

    A shallow embedding of [parse.go] and of the version functions of
    [pub.go], with the properties of the module scanner ([parseMod]),
    of the splicer ([updateModVersion]) and of the version decision
    ([assessVersion]).

    Modelling conventions.
    - A Go [byte] is a [Byte.byte]; a Go [string] is a [string]; the
      conversions [string(b)] and [[]byte(s)] are [string_of_list_byte]
      and [list_byte_of_string].
    - A run-time panic (index or slice bound out of range) is the outcome
      [Panic] of the [result] type.
    - Read-only code sees a slice as a [view]: its [len] visible elements
      and the bytes of the backing array between [len] and [cap].  Code
      that writes ([append]) works on a [heap] of byte arrays and on
      [slice] headers that point into it.
    - Offsets are natural numbers: [parseModFile] starts the scan at 0 and
      every other offset is obtained from it by increments.
    - Every loop runs on fuel that is enough for it to end by its own test;
      the lemmas [search_unfold], [next_unfold], [nameEnd_unfold] and
      [parseMod_unfold] give each loop the equation of the source's loop.
    - Go's [int], in the version functions, is 64 bits wide; additions wrap
      around.
    - The program around these functions ([Run], [Publish], [Command],
      [Console]) runs in a state that records its events (texts printed,
      the file read and written, the variable set, the commands run) in
      the order of the calls; the answers of the environment (the content
      of [go.mod], errors of writing and of commands) are variables of the
      section that holds these functions. *)

From Stdlib Require Import ZArith Lia Strings.Byte Strings.String Strings.Ascii DecimalString.
From stdpp Require Import base list.

Open Scope string_scope.
Open Scope list_scope.
Open Scope nat_scope.

(** ** Outcomes of fallible code *)

Inductive result (A : Type) : Type :=
| Ok (a : A)
| Panic.
Arguments Ok {A} a.
Arguments Panic {A}.

Definition bind {A B : Type} (m : result A) (f : A -> result B) : result B :=
  match m with
  | Ok a => f a
  | Panic => Panic
  end.

Notation "x <- m ;; k" := (bind m (fun x => k))
  (at level 100, m at next level, right associativity).

(** ** Byte constants of parse.go *)

Definition lin : byte := x0a.
Definition ret : byte := x0d.
Definition tab : byte := x09.
Definition spc : byte := " "%byte.
Definition esc : byte := x5c.
Definition aps : byte := "'"%byte.
Definition qot : byte := x22.
Definition sep : byte := "="%byte.
Definition com : byte := "/"%byte.
Definition file : string := "go.mod".
(** [mod] in the source; the name is a notation keyword here. *)
Definition modkw : string := "module ".
Definition pre : string := "//v".

(** ** Slices as seen by read-only code *)

Record view : Type := View {
  elems : list byte;   (* b[0], ..., b[len(b)-1] *)
  spare : list byte    (* the backing array from len(b) up to cap(b) *)
}.

Definition len (b : view) : nat := length (elems b).
Definition cap (b : view) : nat := length (elems b) + length (spare b).

(** [b[i]]: panics unless [i < len(b)]. *)
Definition idx (b : view) (i : nat) : result byte :=
  match elems b !! i with
  | Some c => Ok c
  | None => Panic
  end.

(** The elements of [b[lo:hi]]: panics unless [lo <= hi <= cap(b)]. *)
Definition sub (b : view) (lo hi : nat) : result (list byte) :=
  if (lo <=? hi) && (hi <=? cap b)
  then Ok (take (hi - lo) (drop lo (elems b ++ spare b)))
  else Panic.

(** ** parse.go *)

(** [search]: the loop [for i < len(in) && in[i] != b { i++ }]; the fuel is
    the number of bytes left. *)
Fixpoint search_loop (fuel : nat) (c : byte) (b : view) (i : nat) : nat :=
  match fuel with
  | 0 => i
  | S fuel' =>
      match elems b !! i with
      | Some x => if Byte.eqb x c then i else search_loop fuel' c b (i + 1)
      | None => i
      end
  end.

Definition search (c : byte) (b : view) (i : nat) : nat :=
  search_loop (len b - i) c b i.

Definition isspace (c : byte) : bool :=
  Byte.eqb c ret || Byte.eqb c lin || Byte.eqb c tab || Byte.eqb c spc.

Definition isnum (c : byte) : bool :=
  (Byte.to_N "0"%byte <=? Byte.to_N c)%N && (Byte.to_N c <=? Byte.to_N "9"%byte)%N.

(** [b[at] == com && b[at+1] == com], evaluated left to right. *)
Definition iscomm (b : view) (i : nat) : result bool :=
  c0 <- idx b i ;;
  if Byte.eqb c0 com
  then c1 <- idx b (i + 1) ;; Ok (Byte.eqb c1 com)
  else Ok false.

Definition skipComment (b : view) (i : nat) : result nat :=
  isc <- iscomm b i ;;
  if isc then Ok (search lin b (i + 2)) else Ok i.

(** [next]: one round of the [for at < len(b)] loop per unit of fuel; the
    first case of the switch falls through into the second. *)
Fixpoint next_loop (fuel : nat) (b : view) (i : nat) (skipcom : bool) : result nat :=
  match fuel with
  | 0 => Ok i
  | S fuel' =>
      if i <? len b then
        c <- idx b i ;;
        if skipcom && Byte.eqb c com then
          j <- skipComment b i ;;
          next_loop fuel' b (j + 1) skipcom
        else if isspace c then next_loop fuel' b (i + 1) skipcom
        else Ok i
      else Ok i
  end.

Definition next (b : view) (i : nat) (skipcom : bool) : result nat :=
  next_loop (len b - i) b i skipcom.

(** pub.go: [validVersion]. *)
Definition validVersion (b : list byte) : bool :=
  if (4 <? length b)
     && isnum (default x00 (b !! 0))
     && isnum (default x00 (b !! (length b - 1)))
  then forallb (fun c => negb (negb (isnum c) && negb (Byte.eqb c "."%byte))) b
  else false.

(** The unquoted part of [parseModName]:
    [for ; i < len(b); i++ { if isspace(b[i]) || iscomm(b, i) { break } }]. *)
Fixpoint name_loop (fuel : nat) (b : view) (i : nat) : result nat :=
  match fuel with
  | 0 => Ok i
  | S fuel' =>
      if i <? len b then
        c <- idx b i ;;
        if isspace c then Ok i
        else
          isc <- iscomm b i ;;
          if isc then Ok i else name_loop fuel' b (i + 1)
      else Ok i
  end.

(** The tail of [parseModName] from the [for] loop on: [a] is the start of
    the name and [i] the offset the loop starts at. *)
Definition nameEnd (b : view) (i : nat) : result nat := name_loop (len b - i) b i.

Definition bareName (b : view) (a i : nat) : result (string * nat) :=
  j <- nameEnd b i ;;
  nm <- sub b a j ;;
  Ok (string_of_list_byte nm, j).

Definition parseModName (b : view) (i0 : nat) : result (string * nat) :=
  a <- next b i0 false ;;
  c <- idx b a ;;
  if Byte.eqb c aps || Byte.eqb c qot then
    let i := search c b (a + 1) in
    e <- idx b (i - 1) ;;
    if negb (Byte.eqb e esc) then
      nm <- sub b (a + 1) i ;;
      Ok (string_of_list_byte nm, i + 1)
    else bareName b a i
  else bareName b a a.

(** The results are (version, vlen, i). *)
Definition parseModVersion (b : view) (i0 : nat) : result (string * nat * nat) :=
  pos <- next b i0 false ;;
  c <- idx b pos ;;
  if Byte.eqb c com then
    p <- sub b pos (pos + String.length pre) ;;
    if String.eqb (string_of_list_byte p) pre then
      let pos' := pos + String.length pre in
      let i := search lin b pos' in
      v <- sub b pos' i ;;
      if validVersion v then Ok (string_of_list_byte v, i - i0, i0)
      else Ok ("", 0, i0)
    else Ok ("", 0, i0)
  else Ok ("", 0, i0).

(** [parseMod]: the results are (name, version, vlen, i). *)
Fixpoint parseMod_loop (fuel : nat) (b : view) (i : nat)
  : result (string * string * nat * nat) :=
  match fuel with
  | 0 => Ok ("", "", 0, i)
  | S fuel' =>
      if i <? len b then
        i1 <- next b i true ;;
        if len b <? i1 + 7 then Ok ("", "", 0, len b)
        else
          kw <- sub b i1 (i1 + 7) ;;
          if String.eqb (string_of_list_byte kw) modkw then
            r <- parseModName b (i1 + 7) ;;
            let '(name, i2) := r in
            r' <- parseModVersion b i2 ;;
            let '(version, vlen, i3) := r' in
            Ok (name, version, vlen, i3)
          else parseMod_loop fuel' b (i1 + 1)
      else Ok ("", "", 0, i)
  end.

Definition parseMod (b : view) (i : nat) : result (string * string * nat * nat) :=
  parseMod_loop (len b - i) b i.

(** ** The heap: byte arrays and the slices that point into them *)

Abbreviation heap := (list (list byte)).

Record slice : Type := Slice {
  ptr : nat;    (* the backing array *)
  off : nat;    (* offset of the first element in it *)
  slen : nat;   (* len *)
  scap : nat    (* cap *)
}.

Definition array_of (h : heap) (s : slice) : list byte := default [] (h !! ptr s).

Definition contents (h : heap) (s : slice) : list byte :=
  take (slen s) (drop (off s) (array_of h s)).

Definition view_of (h : heap) (s : slice) : view :=
  View (contents h s) (take (scap s - slen s) (drop (off s + slen s) (array_of h s))).

(** The slice lies inside an allocated array. *)
Definition wf_slice (h : heap) (s : slice) : Prop :=
  ptr s < length h /\ off s + scap s <= length (array_of h s) /\ slen s <= scap s.

(** Code that allocates or writes: a state monad over the heap, with panics. *)
Definition go (A : Type) : Type := heap -> result (A * heap).

Definition go_bind {A B : Type} (m : go A) (f : A -> go B) : go B :=
  fun h => match m h with
           | Ok (a, h') => f a h'
           | Panic => Panic
           end.

Definition go_lift {A : Type} (r : result A) : go A :=
  fun h => match r with
           | Ok a => Ok (a, h)
           | Panic => Panic
           end.

Notation "x <~ m ;; k" := (go_bind m (fun x => k))
  (at level 100, m at next level, right associativity).

(** [make([]byte, n, c)]. *)
Definition make (n c : nat) : go slice :=
  fun h => if n <=? c
           then Ok (Slice (length h) 0 n c, h ++ [replicate c x00])
           else Panic.

(** [[]byte(str)]: a fresh array holding the bytes of the string. *)
Definition bytes_of_string (str : string) : go slice :=
  fun h => let l := list_byte_of_string str in
           Ok (Slice (length h) 0 (length l) (length l), h ++ [l]).

(** [s[lo:hi]]: the header only, the array is shared. *)
Definition reslice (s : slice) (lo hi : nat) : result slice :=
  if (lo <=? hi) && (hi <=? scap s)
  then Ok (Slice (ptr s) (off s + lo) (hi - lo) (scap s - lo))
  else Panic.

Definition read (s : slice) : go (list byte) :=
  fun h => Ok (contents h s, h).

(** Overwrite [a] from position [k] on with [xs]. *)
Definition write (a : list byte) (k : nat) (xs : list byte) : list byte :=
  take k a ++ xs ++ drop (k + length xs) a.

Section Splicer.

(** The capacity the runtime picks when [append] has to reallocate, from
    the old capacity and the length needed; the result of the program does
    not depend on it. *)
Variable growcap : nat -> nat -> nat.

(** [append(s, xs...)]: writes behind the elements of [s] in the array of
    [s] when its capacity suffices, and moves to a fresh array otherwise. *)
Definition append (s : slice) (xs : list byte) : go slice :=
  fun h =>
    let n := slen s + length xs in
    if n <=? scap s then
      Ok (Slice (ptr s) (off s) n (scap s),
          <[ptr s := write (array_of h s) (off s + slen s) xs]> h)
    else
      let c := Nat.max n (growcap (scap s) n) in
      Ok (Slice (length h) 0 n c,
          h ++ [contents h s ++ xs ++ replicate (c - n) x00]).

Definition updateModVersion (bytes : slice) (vpos vlen : nat) (version : string)
  : go slice :=
  v <~ make 0 (slen bytes) ;;
  hd <~ go_lift (reslice bytes 0 vpos) ;;
  v1 <~ append v [spc] ;;
  pv <~ bytes_of_string (pre ++ version) ;;
  pvs <~ read pv ;;
  v2 <~ append v1 pvs ;;
  tl <~ go_lift (reslice bytes (vpos + vlen) (slen bytes)) ;;
  tls <~ read tl ;;
  v3 <~ append v2 tls ;;
  v3s <~ read v3 ;;
  append hd v3s.

End Splicer.

(** ** pub.go: the version functions

    [Split], [Join], [Atoi] and [Itoa] are the functions of Go's packages
    [strings] and [strconv] that the version functions call, with the
    behaviour their documentation gives. *)

Definition versionDefault : string := "0.0.0".

(** Go's [int]. *)
Definition maxInt : Z := 2 ^ 63 - 1.
Definition minInt : Z := - 2 ^ 63.
Definition wrap (z : Z) : Z := ((z + 2 ^ 63) mod 2 ^ 64 - 2 ^ 63)%Z.

(** [strings.Split(s, sp)] for a separator of one byte. *)
Fixpoint Split (s : string) (sp : ascii) : list string :=
  match s with
  | EmptyString => [""]
  | String c s' =>
      if Ascii.eqb c sp then "" :: Split s' sp
      else match Split s' sp with
           | w :: ws => String c w :: ws
           | [] => [String c ""]
           end
  end.

(** [strings.Join]. *)
Definition Join (l : list string) (sp : string) : string := String.concat sp l.

Definition digit (c : ascii) : option Z :=
  let n := nat_of_ascii c in
  if (48 <=? n) && (n <=? 57) then Some (Z.of_nat (n - 48)) else None.

Fixpoint digits (s : string) (acc : Z) : option Z :=
  match s with
  | EmptyString => Some acc
  | String c s' =>
      match digit c with
      | Some d => digits s' (10 * acc + d)%Z
      | None => None
      end
  end.

(** [strconv.Atoi]: the value and whether the error is non-nil.  An optional
    sign and one or more decimal digits; a syntax error gives 0, a value out
    of range gives the nearest [int]. *)
Definition Atoi (s : string) : Z * bool :=
  let '(neg, body) :=
    match s with
    | String c r =>
        if Ascii.eqb c "+" then (false, r)
        else if Ascii.eqb c "-" then (true, r)
        else (false, s)
    | EmptyString => (false, s)
    end in
  match body with
  | EmptyString => (0%Z, true)
  | _ =>
      match digits body 0 with
      | None => (0%Z, true)
      | Some n =>
          if neg
          then (if (2 ^ 63 <? n)%Z then (minInt, true) else ((- n)%Z, false))
          else (if (2 ^ 63 <=? n)%Z then (maxInt, true) else (n, false))
      end
  end.

(** [strconv.Itoa]. *)
Definition Itoa (z : Z) : string := NilZero.string_of_int (Z.to_int z).

Definition nextVersion (cv : string) : result string :=
  if String.eqb cv "" then Ok versionDefault
  else
    let vs := Split cv "." in
    let vi := length vs - 1 in
    match vs !! vi with
    | None => Panic
    | Some last =>
        let '(pv, _) := Atoi last in
        Ok (Join (<[vi := Itoa (wrap (pv + 1))]> vs) ".")
    end.

(** The [for i, cp := range cparts] loop of [validUserVersion]. *)
Fixpoint compareParts (cparts uparts : list string) (i : nat) : result bool :=
  match cparts with
  | [] => Ok false
  | cp :: rest =>
      let '(c, err) := Atoi cp in
      if err then Ok false
      else
        match uparts !! i with
        | None => Panic
        | Some up =>
            let '(u, _) := Atoi up in
            (* the second [err != nil] tests the error of [cp] again *)
            if err then Ok false
            else if (c <? u)%Z then Ok true
            else if (u <? c)%Z then Ok false
            else compareParts rest uparts (i + 1)
        end
  end.

Definition validUserVersion (current user : string) : result bool :=
  if negb (validVersion (list_byte_of_string user)) then Ok false
  else if String.eqb current "" || String.eqb current user then Ok true
  else
    let cparts := Split current "." in
    let uparts := Split user "." in
    if negb (length cparts =? length uparts) then Ok false
    else compareParts cparts uparts 0.

(** The results are (nv, valid). *)
Definition assessVersion (cv uv : string) : result (string * bool) :=
  if String.eqb uv "" then
    nv <- nextVersion cv ;; Ok (nv, true)
  else
    ok <- validUserVersion cv uv ;;
    if negb ok then Ok ("", false) else Ok (uv, true).

(** The bytes of a string literal. *)
Definition B (s : string) : list byte := list_byte_of_string s.

(** ** pub.go: the command line and the messages *)

(** [s[i]] and [s[lo:hi]] on a Go string: they panic out of range. *)
Definition sidx (s : string) (i : nat) : result ascii :=
  match list_ascii_of_string s !! i with
  | Some c => Ok c
  | None => Panic
  end.

Definition ssub (s : string) (lo hi : nat) : result string :=
  if (lo <=? hi) && (hi <=? String.length s)
  then Ok (string_of_list_ascii (take (hi - lo) (drop lo (list_ascii_of_string s))))
  else Panic.

(** [cmdAction], on the arguments [os.Args] of the process: the results are
    (action, v). *)
Definition cmdAction (args : list string) : result (nat * string) :=
  if length args =? 1 then Ok (1, "")
  else if 2 <? length args then Ok (0, "")
  else
    f <- match args !! 1 with Some f => Ok f | None => Panic end ;;
    if String.eqb f "h" || String.eqb f "help" then Ok (1, "")
    else if String.eqb f "v" || String.eqb f "version" then Ok (2, "")
    else if String.eqb f "p" || String.eqb f "patch" then Ok (3, "")
    else
      c0 <- sidx f 0 ;;
      if Ascii.eqb c0 "v" then
        c1 <- sidx f 1 ;;
        if isnum (byte_of_ascii c1) then
          v <- ssub f 1 (String.length f) ;; Ok (3, v)
        else Ok (0, "")
      else Ok (0, "").

(** [Stringf]: the loop over the format, with the builder [s], [pos] and
    [elem] as state; at the end of the loop the rest of the format is
    written. *)
Fixpoint Stringf_loop (fuel : nat) (format : string) (a : list string)
    (s : string) (pos elem i : nat) : result string :=
  match fuel with
  | 0 => w <- ssub format pos (String.length format) ;; Ok (s ++ w)%string
  | S fuel' =>
      if i <? String.length format then
        c <- sidx format i ;;
        if Ascii.eqb c "%" then
          c1 <- sidx format (i + 1) ;;
          if Ascii.eqb c1 "s" then
            w <- ssub format pos i ;;
            if elem <? length a then
              x <- match a !! elem with Some x => Ok x | None => Panic end ;;
              Stringf_loop fuel' format a (s ++ w ++ x)%string (i + 2) (elem + 1) (i + 1)
            else Panic
          else Stringf_loop fuel' format a s pos elem (i + 1)
        else Stringf_loop fuel' format a s pos elem (i + 1)
      else w <- ssub format pos (String.length format) ;; Ok (s ++ w)%string
  end.

Definition Stringf_from (format : string) (a : list string)
    (s : string) (pos elem i : nat) : result string :=
  Stringf_loop (String.length format - i) format a s pos elem i.

(** [a] is [None] for the nil slice of a call without arguments. *)
Definition Stringf (format : string) (a : option (list string)) : result string :=
  match a with
  | None => Ok format
  | Some a => Stringf_from format a "" 0 0 0
  end.

(** A line feed, as a string. *)
Definition nl : string := String "010" "".

(** [testMod] of the tests. *)
Definition testMod (v : string) : result (list byte) :=
  s <- Stringf ("// pub is a simple module for publishing go modules." ++ nl
                ++ "module github.com/jcdotter/pub //%s" ++ nl ++ nl ++ "go 1.17")%string
         (Some [v]) ;;
  Ok (list_byte_of_string s).

(** ** pub.go: the program and its environment

    What the program does to its environment is recorded as a trace of
    events, in the order of the calls: texts printed, the file read and
    written, the variable set, and the commands run.  What the environment
    answers is given by the variables of the section below. *)

(** The console messages. *)
Definition versionCmd : string := "pub v0.1.5" ++ nl.
Definition versionErr : string := "Invalid version: %s" ++ nl.
Definition versionNew : string := "New version: %s" ++ nl.
Definition pubInit : string := "Preparing to publish." ++ nl ++ "Parsing go.mod file: ".
Definition pubUpdate : string := "Updating go.mod file: ".
Definition pubComplete : string := "Your module has been published." ++ nl.
Definition modParseErr : string :=
  "ERROR. Ensure you are in the correct directory and have a go.mod file." ++ nl.
Definition modUpdateErr : string := "ERROR. Could not update go.mod file." ++ nl.
Definition modDone : string := "done. (module: %s, version: %s)" ++ nl.
Definition invalidCmd : string := "Invalid command. Use 'pub help' for usage." ++ nl.
Definition helpCmd : string :=
  "PUB is a simple commandline app for publishing go modules." ++ nl ++
  "On pulblish, all changes are committed and pushed to github as the" ++ nl ++
  "version provided. The module is then tagged and the new version is" ++ nl ++
  "listed on the GOPROXY." ++ nl ++ nl ++
  "Usage: pub [command]" ++ nl ++
  "Commands:" ++ nl ++
  "  h, help      Display this help message" ++ nl ++
  "  v, version   Display the current version" ++ nl ++
  "  p, patch     Publish changes as the next patch version" ++ nl ++
  "  v#.#.#       Publish changes as the specified version" ++ nl.
Definition gitMsg : string := "Committing changes: ".
Definition gitAdd : string := "git add .".
Definition gitCom : string := "git commit -m 'v%s'".
Definition gitTag : string := "git tag v%s".
Definition gitPush : string := "git push origin main".
Definition gitPushOrg : string := "git push origin v%s".
Definition gitAddErr : string := "ERROR. Could not add files to git." ++ nl.
Definition gitComErr : string := "ERROR. Could not commit changes." ++ nl.
Definition gitTagErr : string := "ERROR. Could not tag version." ++ nl.
Definition gitPushErr : string := "ERROR. Could not push changes to github." ++ nl.
Definition goMsg : string := "Listing version on GOPROXY: ".
Definition goProxy : string := "go list -m %s@v%s".
Definition goProxyErr : string := "ERROR. Could not list version on GOPROXY." ++ nl.
Definition done : string := "done." ++ nl.

Inductive event : Type :=
| Print (s : string)                        (* fmt.Print(s) *)
| ReadFile (name : string)                  (* os.ReadFile(name) *)
| WriteFile (name : string) (data : list byte)  (* os.WriteFile(name, data, 0644) *)
| Setenv (key value : string)               (* os.Setenv(key, value) *)
| Exec (argv : list string).                (* exec.Command(argv[0], argv[1:]...).Run() *)

(** The state of a run: the events so far and the byte arrays. *)
Record proc : Type := Proc {
  trace : list event;
  mem : heap
}.

Definition io (A : Type) : Type := proc -> result (A * proc).

Definition io_ret {A : Type} (a : A) : io A := fun p => Ok (a, p).

Definition io_bind {A C : Type} (m : io A) (f : A -> io C) : io C :=
  fun p => match m p with
           | Ok (a, p') => f a p'
           | Panic => Panic
           end.

Notation "x <~~ m ;; k" := (io_bind m (fun x => k))
  (at level 100, m at next level, right associativity).

Definition io_result {A : Type} (r : result A) : io A :=
  fun p => match r with
           | Ok a => Ok (a, p)
           | Panic => Panic
           end.

Definition io_go {A : Type} (m : go A) : io A :=
  fun p => match m (mem p) with
           | Ok (a, h) => Ok (a, Proc (trace p) h)
           | Panic => Panic
           end.

Definition emit (e : event) : io unit :=
  fun p => Ok (tt, Proc (trace p ++ [e]) (mem p)).

(** A slice of a new array that holds [data] and, behind it, [spare]. *)
Definition alloc (data spare : list byte) : go slice :=
  fun h => Ok (Slice (length h) 0 (length data) (length data + length spare),
               h ++ [data ++ spare]).

(** [Console]: [a] is [None] when the call has no arguments behind the
    format. *)
Definition Console (format : string) (a : option (list string)) : io unit :=
  s <~~ io_result (Stringf format a) ;;
  emit (Print s).

Section Program.

(** [append]'s choice of a capacity. *)
Variable growcap : nat -> nat -> nat.

(** The outcome of [os.ReadFile] on [go.mod]: [None] for an error, and
    otherwise the bytes of the file, in a slice whose backing array holds
    [spare] behind them. *)
Variable readFile : option (list byte).
Variable spare : list byte.

(** Whether [os.WriteFile] returns an error, for the bytes given. *)
Variable writeFails : list byte -> bool.

(** The error of running a command, if any, after the events so far. *)
Variable execError : list event -> list string -> option string.

Definition run (argv : list string) : io (option string) :=
  fun p => Ok (execError (trace p) argv, Proc (trace p ++ [Exec argv]) (mem p)).

Definition Command (err c : string) (a : option (list string)) : io unit :=
  c' <~~ io_result (if 0 <? length (default [] a) then Stringf c a else Ok c) ;;
  let ex := Split c' " " in
  ex0 <~~ io_result (match ex !! 0 with Some x => Ok x | None => Panic end) ;;
  e <~~ run (ex0 :: drop 1 ex) ;;
  match e with
  | Some msg =>
      _ <~~ Console err None ;;
      Console ("%s" ++ nl) (Some [msg])
  | None => io_ret tt
  end.

(** parse.go: [parseModFile]; [None] stands for [err != nil], and the
    results are then (name, version, bytes, vpos, vlen). *)
Definition parseModFile : io (option (string * string * slice * nat * nat)) :=
  _ <~~ emit (ReadFile file) ;;
  match readFile with
  | None => io_ret None
  | Some data =>
      bytes <~~ io_go (alloc data spare) ;;
      r <~~ (fun p => io_result (parseMod (view_of (mem p) bytes) 0) p) ;;
      let '(name, version, vlen, vpos) := r in
      io_ret (Some (name, version, bytes, vpos, vlen))
  end.

(** parse.go: [updateModFile]; the result tells whether [err != nil]. *)
Definition updateModFile (bytes : slice) (vpos vlen : nat) (version : string) : io bool :=
  bytes' <~~ io_go (updateModVersion growcap bytes vpos vlen version) ;;
  data <~~ io_go (read bytes') ;;
  _ <~~ emit (WriteFile file data) ;;
  io_ret (writeFails data).

(** [updateVersion]: the results are (name, newVersion, valid). *)
Definition updateVersion (userVersion : string) : io (string * string * bool) :=
  r <~~ parseModFile ;;
  match r with
  | None =>
      _ <~~ Console modParseErr None ;;
      io_ret ("", "", false)
  | Some (name, cv, b, vpos, vlen) =>
      _ <~~ Console modDone (Some [name; cv]) ;;
      r' <~~ io_result (assessVersion cv userVersion) ;;
      let '(newVersion, valid) := r' in
      if negb valid then
        _ <~~ Console versionErr (Some [userVersion]) ;;
        io_ret (name, newVersion, valid)
      else
        _ <~~ Console versionNew (Some [newVersion]) ;;
        _ <~~ Console pubUpdate None ;;
        err <~~ updateModFile b vpos vlen newVersion ;;
        if err then
          _ <~~ Console modUpdateErr None ;;
          io_ret (name, newVersion, valid)
        else
          _ <~~ Console done None ;;
          io_ret (name, newVersion, valid)
  end.

Definition gitCommit (version : string) : io unit :=
  _ <~~ Console gitMsg None ;;
  _ <~~ Command gitAddErr gitAdd None ;;
  _ <~~ Command gitComErr gitCom (Some [version]) ;;
  _ <~~ Command gitTagErr gitTag (Some [version]) ;;
  _ <~~ Command gitPushErr gitPushOrg (Some [version]) ;;
  _ <~~ Command gitPushErr gitPush None ;;
  Console done None.

Definition goProxyList (module version : string) : io unit :=
  _ <~~ Console goMsg None ;;
  _ <~~ emit (Setenv "GOPROXY" "proxy.golang.org") ;;
  _ <~~ Command goProxyErr goProxy (Some [module; version]) ;;
  Console done None.

Definition Publish (v : string) : io unit :=
  _ <~~ Console pubInit None ;;
  r <~~ updateVersion v ;;
  let '(n, v', ok) := r in
  if negb ok then io_ret tt
  else
    _ <~~ gitCommit v' ;;
    _ <~~ goProxyList n v' ;;
    Console pubComplete None.

(** [Run], on the arguments [os.Args] of the process. *)
Definition Run (args : list string) : io unit :=
  r <~~ io_result (cmdAction args) ;;
  let '(a, uv) := r in
  match a with
  | 0 => Console invalidCmd None
  | 1 => Console helpCmd None
  | 2 => Console versionCmd None
  | 3 => Publish uv
  | _ => io_ret tt
  end.

End Program.

(** ** Declaration lines *)

(** The text in front of the declaration that the keyword search passes
    over: whitespace, comments up to their line feed, single slashes, and
    any other byte at which the keyword does not start (the seven bytes
    looked at may reach into the keyword that follows the text);
    [in_comment] tells whether the text starts inside a comment. *)
Fixpoint skipped (in_comment : bool) (l : list byte) : bool :=
  match l with
  | [] => negb in_comment
  | c :: l' =>
      if in_comment then skipped (negb (Byte.eqb c lin)) l'
      else if isspace c then skipped false l'
      else if Byte.eqb c com then
        match l' with
        | c' :: l'' => if Byte.eqb c' com then skipped true l'' else skipped false l'
        | [] => true
        end
      else negb (String.eqb (string_of_list_byte (take 7 (l ++ B modkw))) modkw)
           && skipped false l'
  end.

(** Two slashes in a row. *)
Fixpoint has_comm (l : list byte) : bool :=
  match l with
  | c :: l' =>
      match l' with
      | c' :: _ => (Byte.eqb c com && Byte.eqb c' com) || has_comm l'
      | [] => false
      end
  | [] => false
  end.

(** A module identifier as written in the file: bare, or between two equal
    quote characters. *)
Inductive ident : Type :=
| Bare (l : list byte)
| Quoted (q : byte) (l : list byte).

Definition ident_text (x : ident) : list byte :=
  match x with
  | Bare l => l
  | Quoted q l => q :: l ++ [q]
  end.

Definition ident_name (x : ident) : string :=
  match x with
  | Bare l => string_of_list_byte l
  | Quoted _ l => string_of_list_byte l
  end.

(** A bare identifier is not empty, does not start with a quote and holds
    neither whitespace nor [//]; a quoted one holds anything but its quote
    character and does not end in a backslash. *)
Definition ident_ok (x : ident) : bool :=
  match x with
  | Bare l =>
      match l with
      | [] => false
      | c :: _ => negb (Byte.eqb c aps || Byte.eqb c qot)
      end
      && forallb (fun c => negb (isspace c)) l
      && negb (has_comm l)
  | Quoted q l =>
      (Byte.eqb q aps || Byte.eqb q qot)
      && forallb (fun c => negb (Byte.eqb c q)) l
      && match last l with
         | Some e => negb (Byte.eqb e esc)
         | None => true
         end
  end.

(** The rest of the buffer begins a new line, or is empty. *)
Definition line_end (rest : list byte) : bool :=
  match rest with
  | [] => true
  | c :: _ => Byte.eqb c lin
  end.

(** The text [ //v<version>] that the splicer writes. *)
Definition annotation (version : string) : list byte :=
  spc :: list_byte_of_string (pre ++ version).

(** The buffer the splicer is specified to build. *)
Definition spliced (l : list byte) (vpos vlen : nat) (version : string) : list byte :=
  take vpos l ++ annotation version ++ drop (vpos + vlen) l.

(** ** Notions used in the statements *)

(** A slice of an array allocated after the heap [h0], in a heap that still
    holds the arrays of [h0] unchanged. *)
Definition fresh_in (h0 h : heap) (v : slice) : Prop :=
  wf_slice h v /\ length h0 <= ptr v /\ length h0 <= length h
  /\ forall p, p < length h0 -> h !! p = h0 !! p.

(** The components of a dot-separated text. *)
Fixpoint fields (l : list byte) : list (list byte) :=
  match l with
  | [] => [[]]
  | c :: l' =>
      if Byte.eqb c "."%byte then [] :: fields l'
      else match fields l' with
           | f :: fs => (c :: f) :: fs
           | [] => [[c]]
           end
  end.

(** The version rules as the specification words them: components that are
    non-empty runs of digits, at least five characters, a digit first and
    last. *)
Definition versionRules (l : list byte) : bool :=
  (5 <=? length l)
  && forallb (fun f => negb (length f =? 0) && forallb isnum f) (fields l)
  && match head l with Some c => isnum c | None => false end
  && match last l with Some c => isnum c | None => false end.

Definition isDigit (c : ascii) : bool :=
  (48 <=? nat_of_ascii c) && (nat_of_ascii c <=? 57).

(** A non-empty run of digits. *)
Definition isDigits (s : string) : bool :=
  negb (String.eqb s "") && forallb isDigit (list_ascii_of_string s).

(** The number a run of digits denotes. *)
Definition decimal (s : string) : Z :=
  fold_left (fun acc c => (10 * acc + Z.of_nat (nat_of_ascii c - 48))%Z)
    (list_ascii_of_string s) 0%Z.

Definition numbers (s : string) : list Z := map decimal (Split s ".").

(** Every component is a non-empty run of digits whose value is an [int]. *)
Definition intComponents (s : string) : bool :=
  forallb (fun p => isDigits p && (decimal p <? 2 ^ 63)%Z) (Split s ".").

(** At the first index where the components differ, the user's is the
    greater one. *)
Definition greater_at_first_difference (cs us : list Z) : Prop :=
  exists k c u,
    cs !! k = Some c /\ us !! k = Some u /\ (c < u)%Z /\ take k us = take k cs.

Fixpoint firstDifference (cs us : list Z) : bool :=
  match cs, us with
  | c :: cs', u :: us' =>
      if (c <? u)%Z then true
      else if (u <? c)%Z then false
      else firstDifference cs' us'
  | _, _ => false
  end.

(** Two buffers with the same first [n] elements. *)
Definition agree (n : nat) (b b' : view) : Prop :=
  take n (elems b) = take n (elems b') /\ n <= len b /\ n <= len b'.

(** The keyword starts at offset [i] of the text. *)
Definition keyword_at (l : list byte) (i : nat) : bool :=
  String.eqb (string_of_list_byte (take 7 (drop i l))) modkw.

(** The keyword occurs in the text. *)
Definition has_keyword (l : list byte) : bool :=
  existsb (keyword_at l) (seq 0 (length l)).

(** A character of a component that makes its conversion fail: neither a
    digit nor a sign. *)
Definition notNumeric (c : ascii) : bool :=
  negb (isDigit c) && negb (Ascii.eqb c "+") && negb (Ascii.eqb c "-").

(** A text without [%]. *)
Definition no_percent (s : string) : bool :=
  forallb (fun c => negb (Ascii.eqb c "%")) (list_ascii_of_string s).

(** The format [%s p1 %s p2 ...] of the pieces, and the pieces with the
    arguments in front of them. *)
Fixpoint holes (ps : list string) : string :=
  match ps with
  | [] => ""
  | p :: ps' => ("%s" ++ p ++ holes ps')%string
  end.

Fixpoint fill (a ps : list string) : string :=
  match ps, a with
  | p :: ps', x :: a' => (x ++ p ++ fill a' ps')%string
  | _, _ => ""
  end.

(** The events of a trace other than the texts printed. *)
Definition is_action (e : event) : bool :=
  match e with
  | Print _ => false
  | _ => true
  end.

Definition actions (t : list event) : list event := List.filter is_action t.

(** What [Command] prints when the command fails with the error [e]. *)
Definition complaint (err : string) (e : option string) : list event :=
  match e with
  | Some msg => [Print err; Print (msg ++ nl)%string]
  | None => []
  end.

(** The trace [t] after [Command] has run the command line [c]. *)
Definition ran (execError : list event -> list string -> option string)
    (t : list event) (err c : string) : list event :=
  t ++ Exec (Split c " ") :: complaint err (execError t (Split c " ")).

(** ** Example buffers *)

Definition ex_text : list byte := B "module foo //v1.0.0" ++ [lin].
Definition ex_heap : heap := [ex_text].
Definition ex_slice : slice := Slice 0 0 20 20.

Definition ex_commented : list byte :=
  B "// a module" ++ [lin] ++ B "module 'my mod' //v1.0.0" ++ [lin] ++ B "go 1.17".

Definition ex_two_lines : list byte := B "module foo" ++ [lin] ++ B "//v1.2.3" ++ [lin].

(** An exact-fit growth policy, for the examples. *)
Definition exact_fit (oldcap needed : nat) : nat := needed.

Definition ex_trailing : list byte := B "module foo " ++ [lin] ++ B "go 1.17".

(** * Properties *)

Ltac app_norm := repeat first [rewrite <- app_assoc | progress cbn [app]].
Ltac app_eq := app_norm; reflexivity.
Ltac len_norm := repeat first [rewrite length_app | progress cbn [length]].
Ltac len_eq := len_norm; lia.

(** ** Bytes and indexing *)

Lemma beqb_eq (x y : byte) : Byte.eqb x y = true <-> x = y.
Proof.
  split; [apply byte_dec_bl | apply byte_dec_lb].
Qed.

Lemma beqb_neq (x y : byte) : Byte.eqb x y = false <-> x <> y.
Proof.
  split.
  - apply Byte.eqb_false.
  - intros Hne. destruct (Byte.eqb x y) eqn:E; [|reflexivity].
    apply beqb_eq in E. contradiction.
Qed.

Lemma beqb_refl (x : byte) : Byte.eqb x x = true.
Proof. now apply beqb_eq. Qed.

Lemma idx_Ok (b : view) (i : nat) (c : byte) :
  idx b i = Ok c <-> elems b !! i = Some c.
Proof.
  unfold idx. destruct (elems b !! i); split; intros H; congruence.
Qed.

Lemma idx_lt (b : view) (i : nat) (c : byte) : idx b i = Ok c -> i < len b.
Proof.
  intros H. apply idx_Ok in H. apply lookup_lt_Some in H. exact H.
Qed.

Lemma sub_Ok (b : view) (lo hi : nat) :
  lo <= hi -> hi <= cap b ->
  sub b lo hi = Ok (take (hi - lo) (drop lo (elems b ++ spare b))).
Proof.
  intros H1 H2. unfold sub.
  destruct (lo <=? hi) eqn:E1; [|apply Nat.leb_gt in E1; lia].
  destruct (hi <=? cap b) eqn:E2; [|apply Nat.leb_gt in E2; lia].
  reflexivity.
Qed.

Lemma len_le_cap (b : view) : len b <= cap b.
Proof. unfold len, cap. lia. Qed.

(** Inside the visible elements, a sub-slice does not see the spare bytes. *)
Lemma sub_elems (b : view) (lo hi : nat) :
  lo <= hi -> hi <= len b ->
  sub b lo hi = Ok (take (hi - lo) (drop lo (elems b))).
Proof.
  intros H1 H2. rewrite sub_Ok; [|exact H1|pose proof (len_le_cap b); lia].
  f_equal. unfold len in H2.
  rewrite drop_app_le by lia.
  rewrite take_app_le; [reflexivity|]. rewrite length_drop. lia.
Qed.

(** ** The loops return what the source's loops return *)

Lemma search_loop_fuel (n m : nat) (c : byte) (b : view) (i : nat) :
  len b - i <= n -> len b - i <= m ->
  search_loop n c b i = search_loop m c b i.
Proof.
  revert m i. induction n as [|n IH]; intros [|m] i Hn Hm; simpl; try reflexivity.
  - rewrite (lookup_ge_None_2 (elems b) i); [reflexivity|unfold len in *; lia].
  - rewrite (lookup_ge_None_2 (elems b) i); [reflexivity|unfold len in *; lia].
  - destruct (elems b !! i); [|reflexivity].
    destruct (Byte.eqb b0 c); [reflexivity|]. apply IH; lia.
Qed.

Lemma search_unfold (c : byte) (b : view) (i : nat) :
  search c b i =
  match elems b !! i with
  | Some x => if Byte.eqb x c then i else search c b (i + 1)
  | None => i
  end.
Proof.
  unfold search. destruct (len b - i) as [|k] eqn:E; simpl.
  - rewrite (lookup_ge_None_2 (elems b) i); [reflexivity|unfold len in *; lia].
  - destruct (elems b !! i); [|reflexivity].
    destruct (Byte.eqb b0 c); [reflexivity|]. apply search_loop_fuel; lia.
Qed.

Lemma search_ge (c : byte) (b : view) (i : nat) : i <= search c b i.
Proof.
  remember (len b - i) as k eqn:Hk. revert i Hk.
  induction k as [k IH] using lt_wf_ind. intros i Hk.
  rewrite search_unfold. destruct (elems b !! i) eqn:E; [|lia].
  destruct (Byte.eqb b0 c); [lia|].
  apply lookup_lt_Some in E.
  specialize (IH (len b - (i + 1))). unfold len in *.
  assert (i + 1 <= search c b (i + 1)) by (apply IH; lia). lia.
Qed.

Lemma search_le (c : byte) (b : view) (i : nat) :
  i <= len b -> search c b i <= len b.
Proof.
  remember (len b - i) as k eqn:Hk. revert i Hk.
  induction k as [k IH] using lt_wf_ind. intros i Hk Hi.
  rewrite search_unfold. destruct (elems b !! i) eqn:E; [|lia].
  destruct (Byte.eqb b0 c); [lia|].
  apply lookup_lt_Some in E. unfold len in *.
  apply (IH (length (elems b) - (i + 1))); lia.
Qed.

(** Where [search] stops: at the first [c] from [i] on, or at the end. *)
Lemma search_app (c : byte) (b : view) (l1 mid rest : list byte) :
  elems b = l1 ++ mid ++ rest ->
  Forall (fun x => x <> c) mid ->
  rest = [] \/ head rest = Some c ->
  search c b (length l1) = length l1 + length mid.
Proof.
  intros Hb Hmid Hrest. revert l1 Hb.
  induction Hmid as [|x mid Hx Hmid IH]; intros l1 Hb; simpl in *.
  - rewrite search_unfold, Hb. rewrite Nat.add_0_r.
    destruct Hrest as [->|Hrest].
    + rewrite app_nil_r, lookup_ge_None_2; [reflexivity|lia].
    + destruct rest as [|y rest]; [discriminate|]. simpl in Hrest.
      injection Hrest as ->. rewrite list_lookup_middle by reflexivity.
      rewrite beqb_refl. reflexivity.
  - rewrite search_unfold, Hb. rewrite list_lookup_middle by reflexivity.
    apply beqb_neq in Hx. rewrite Hx.
    specialize (IH (l1 ++ [x])). rewrite length_app in IH. simpl in IH.
    rewrite IH; [lia|]. rewrite Hb, <- app_assoc. reflexivity.
Qed.

Lemma skipComment_ge (b : view) (i j : nat) : skipComment b i = Ok j -> i <= j.
Proof.
  unfold skipComment. destruct (iscomm b i) as [[|]|]; simpl; intros H;
    inversion H; subst.
  - pose proof (search_ge lin b (i + 2)). lia.
  - lia.
Qed.

Lemma next_loop_fuel (n m : nat) (b : view) (i : nat) (sk : bool) :
  len b - i <= n -> len b - i <= m ->
  next_loop n b i sk = next_loop m b i sk.
Proof.
  revert m i. induction n as [|n IH]; intros [|m] i Hn Hm; simpl; try reflexivity.
  - destruct (i <? len b) eqn:E; [apply Nat.ltb_lt in E; lia|reflexivity].
  - destruct (i <? len b) eqn:E; [apply Nat.ltb_lt in E; lia|reflexivity].
  - destruct (i <? len b) eqn:E; [|reflexivity]. apply Nat.ltb_lt in E.
    destruct (idx b i) as [c|]; simpl; [|reflexivity].
    destruct (sk && Byte.eqb c com).
    + destruct (skipComment b i) as [j|] eqn:Ej; simpl; [|reflexivity].
      apply skipComment_ge in Ej. apply IH; lia.
    + destruct (isspace c); [|reflexivity]. apply IH; lia.
Qed.

Lemma next_unfold (b : view) (i : nat) (sk : bool) :
  next b i sk =
  if i <? len b then
    c <- idx b i ;;
    if sk && Byte.eqb c com then
      j <- skipComment b i ;; next b (j + 1) sk
    else if isspace c then next b (i + 1) sk
    else Ok i
  else Ok i.
Proof.
  unfold next. destruct (len b - i) as [|k] eqn:E; simpl.
  - destruct (i <? len b) eqn:E'; [apply Nat.ltb_lt in E'; lia|reflexivity].
  - destruct (i <? len b) eqn:E'; [|reflexivity]. apply Nat.ltb_lt in E'.
    destruct (idx b i) as [c|]; simpl; [|reflexivity].
    destruct (sk && Byte.eqb c com).
    + destruct (skipComment b i) as [j|] eqn:Ej; simpl; [|reflexivity].
      apply skipComment_ge in Ej. apply next_loop_fuel; lia.
    + destruct (isspace c); [|reflexivity]. apply next_loop_fuel; lia.
Qed.

Lemma next_ge (b : view) (i p : nat) (sk : bool) : next b i sk = Ok p -> i <= p.
Proof.
  remember (len b - i) as k eqn:Hk. revert i Hk.
  induction k as [k IH] using lt_wf_ind. intros i Hk.
  rewrite next_unfold. destruct (i <? len b) eqn:E; [|intros [= <-]; lia].
  apply Nat.ltb_lt in E.
  destruct (idx b i) as [c|]; simpl; [|discriminate].
  destruct (sk && Byte.eqb c com).
  - destruct (skipComment b i) as [j|] eqn:Ej; simpl; [|discriminate].
    apply skipComment_ge in Ej. intros H.
    apply (IH (len b - (j + 1))) in H; lia.
  - destruct (isspace c); [|intros [= <-]; lia].
    intros H. apply (IH (len b - (i + 1))) in H; lia.
Qed.

Lemma name_loop_fuel (n m : nat) (b : view) (i : nat) :
  len b - i <= n -> len b - i <= m ->
  name_loop n b i = name_loop m b i.
Proof.
  revert m i. induction n as [|n IH]; intros [|m] i Hn Hm; simpl; try reflexivity.
  - destruct (i <? len b) eqn:E; [apply Nat.ltb_lt in E; lia|reflexivity].
  - destruct (i <? len b) eqn:E; [apply Nat.ltb_lt in E; lia|reflexivity].
  - destruct (i <? len b) eqn:E; [|reflexivity]. apply Nat.ltb_lt in E.
    destruct (idx b i) as [c|]; simpl; [|reflexivity].
    destruct (isspace c); [reflexivity|].
    destruct (iscomm b i) as [[|]|]; simpl; try reflexivity. apply IH; lia.
Qed.

Lemma nameEnd_unfold (b : view) (i : nat) :
  nameEnd b i =
  if i <? len b then
    c <- idx b i ;;
    if isspace c then Ok i
    else isc <- iscomm b i ;; if isc then Ok i else nameEnd b (i + 1)
  else Ok i.
Proof.
  unfold nameEnd. destruct (len b - i) as [|k] eqn:E; simpl.
  - destruct (i <? len b) eqn:E'; [apply Nat.ltb_lt in E'; lia|reflexivity].
  - destruct (i <? len b) eqn:E'; [|reflexivity]. apply Nat.ltb_lt in E'.
    destruct (idx b i) as [c|]; simpl; [|reflexivity].
    destruct (isspace c); [reflexivity|].
    destruct (iscomm b i) as [[|]|]; simpl; try reflexivity.
    apply name_loop_fuel; lia.
Qed.

Lemma parseMod_loop_fuel (n m : nat) (b : view) (i : nat) :
  len b - i <= n -> len b - i <= m ->
  parseMod_loop n b i = parseMod_loop m b i.
Proof.
  revert m i. induction n as [|n IH]; intros [|m] i Hn Hm; simpl; try reflexivity.
  - destruct (i <? len b) eqn:E; [apply Nat.ltb_lt in E; lia|reflexivity].
  - destruct (i <? len b) eqn:E; [apply Nat.ltb_lt in E; lia|reflexivity].
  - destruct (i <? len b) eqn:E; [|reflexivity]. apply Nat.ltb_lt in E.
    destruct (next b i true) as [i1|] eqn:E1; simpl; [|reflexivity].
    apply next_ge in E1.
    destruct (len b <? i1 + 7); [reflexivity|].
    destruct (sub b i1 (i1 + 7)) as [kw|]; simpl; [|reflexivity].
    destruct (String.eqb (string_of_list_byte kw) modkw); [reflexivity|].
    apply IH; lia.
Qed.

Lemma parseMod_unfold (b : view) (i : nat) :
  parseMod b i =
  if i <? len b then
    i1 <- next b i true ;;
    if len b <? i1 + 7 then Ok ("", "", 0, len b)
    else
      kw <- sub b i1 (i1 + 7) ;;
      if String.eqb (string_of_list_byte kw) modkw then
        r <- parseModName b (i1 + 7) ;;
        let '(name, i2) := r in
        r' <- parseModVersion b i2 ;;
        let '(version, vlen, i3) := r' in
        Ok (name, version, vlen, i3)
      else parseMod b (i1 + 1)
  else Ok ("", "", 0, i).
Proof.
  unfold parseMod. destruct (len b - i) as [|k] eqn:E; simpl.
  - destruct (i <? len b) eqn:E'; [apply Nat.ltb_lt in E'; lia|reflexivity].
  - destruct (i <? len b) eqn:E'; [|reflexivity]. apply Nat.ltb_lt in E'.
    destruct (next b i true) as [i1|] eqn:E1; simpl; [|reflexivity].
    apply next_ge in E1.
    destruct (len b <? i1 + 7); [reflexivity|].
    destruct (sub b i1 (i1 + 7)) as [kw|]; simpl; [|reflexivity].
    destruct (String.eqb (string_of_list_byte kw) modkw); [reflexivity|].
    apply parseMod_loop_fuel; lia.
Qed.

(** ** Scanning a declaration line *)

Lemma B_pre : B pre = [com; com; "v"%byte].
Proof. reflexivity. Qed.

Lemma B_modkw :
  B modkw = ["m"; "o"; "d"; "u"; "l"; "e"; " "]%byte.
Proof. reflexivity. Qed.

Lemma space_not_com (c : byte) : isspace c = true -> Byte.eqb c com = false.
Proof. destruct c; vm_compute; congruence. Qed.

Lemma quote_not_space (c : byte) :
  Byte.eqb c aps || Byte.eqb c qot = true -> isspace c = false.
Proof. destruct c; vm_compute; congruence. Qed.

Lemma idx_middle (b : view) (l1 l2 : list byte) (c : byte) (i : nat) :
  elems b = l1 ++ c :: l2 -> i = length l1 -> idx b i = Ok c.
Proof.
  intros Hb ->. apply idx_Ok. rewrite Hb. now apply list_lookup_middle.
Qed.

Lemma sub_middle (b : view) (l1 m l2 : list byte) (lo hi : nat) :
  elems b = l1 ++ m ++ l2 -> lo = length l1 -> hi = lo + length m ->
  sub b lo hi = Ok m.
Proof.
  intros Hb -> ->. rewrite sub_elems.
  - rewrite Hb, drop_app_length. f_equal. apply take_app_length'. lia.
  - lia.
  - unfold len. rewrite Hb, !length_app. lia.
Qed.

Lemma next_stop (b : view) (i : nat) (c : byte) (sk : bool) :
  idx b i = Ok c -> isspace c = false -> sk && Byte.eqb c com = false ->
  next b i sk = Ok i.
Proof.
  intros Hc Hs Hk. rewrite next_unfold.
  destruct (i <? len b); [|reflexivity].
  rewrite Hc. simpl. rewrite Hk, Hs. reflexivity.
Qed.

(** Whitespace is skipped up to the first significant byte. *)
Lemma next_spaces (b : view) (l1 ws tl : list byte) (c : byte) (i : nat) (sk : bool) :
  elems b = l1 ++ ws ++ c :: tl -> i = length l1 ->
  forallb isspace ws = true -> isspace c = false -> sk && Byte.eqb c com = false ->
  next b i sk = Ok (i + length ws).
Proof.
  revert l1 i. induction ws as [|w ws IH]; intros l1 i Hb -> Hws Hc Hk; simpl in *.
  - rewrite Nat.add_0_r. eapply next_stop; [|exact Hc|exact Hk].
    eapply idx_middle; [exact Hb|reflexivity].
  - apply andb_true_iff in Hws as [Hw Hws].
    rewrite next_unfold.
    assert (Hi : idx b (length l1) = Ok w) by (eapply idx_middle; [exact Hb|reflexivity]).
    pose proof (idx_lt _ _ _ Hi) as Hlt. apply Nat.ltb_lt in Hlt. rewrite Hlt, Hi.
    simpl. rewrite (space_not_com _ Hw), andb_false_r, Hw.
    rewrite (IH (l1 ++ [w]) (length l1 + 1)); try assumption.
    + f_equal. lia.
    + rewrite Hb, <- app_assoc. reflexivity.
    + rewrite length_app. reflexivity.
Qed.

(** The text of a comment that is open ends at its line feed. *)
Lemma skipped_comment_split (l : list byte) :
  skipped true l = true ->
  exists body l', l = body ++ lin :: l' /\ Forall (fun x => x <> lin) body
                  /\ skipped false l' = true.
Proof.
  induction l as [|c l IH]; simpl; [discriminate|].
  destruct (Byte.eqb c lin) eqn:E; simpl.
  - apply beqb_eq in E. subst c. intros H. exists [], l. auto.
  - apply beqb_neq in E. intros H. destruct (IH H) as (body & l' & -> & Hb & Hl).
    exists (c :: body), l'. auto.
Qed.

Lemma next_space_step (b : view) (i : nat) (c : byte) (sk : bool) :
  idx b i = Ok c -> isspace c = true -> next b i sk = next b (i + 1) sk.
Proof.
  intros Hc Hs. rewrite next_unfold at 1.
  pose proof (idx_lt _ _ _ Hc) as Hlt. apply Nat.ltb_lt in Hlt. rewrite Hlt, Hc.
  simpl. now rewrite (space_not_com _ Hs), andb_false_r, Hs.
Qed.

Lemma next_slash_step (b : view) (i : nat) (c' : byte) :
  idx b i = Ok com -> idx b (i + 1) = Ok c' -> Byte.eqb c' com = false ->
  next b i true = next b (i + 1) true.
Proof.
  intros Hc Hc' Hne. rewrite next_unfold at 1.
  pose proof (idx_lt _ _ _ Hc) as Hlt. apply Nat.ltb_lt in Hlt. rewrite Hlt, Hc.
  simpl. unfold skipComment, iscomm. rewrite Hc. simpl. rewrite Hc'. simpl.
  now rewrite Hne.
Qed.

Lemma next_comment_step (b : view) (i : nat) :
  idx b i = Ok com -> idx b (i + 1) = Ok com ->
  next b i true = next b (search lin b (i + 2) + 1) true.
Proof.
  intros Hc Hc'. rewrite next_unfold at 1.
  pose proof (idx_lt _ _ _ Hc) as Hlt. apply Nat.ltb_lt in Hlt. rewrite Hlt, Hc.
  simpl. unfold skipComment, iscomm. rewrite Hc. simpl. rewrite Hc'. reflexivity.
Qed.

(** Two offsets from which [next] arrives at the same place start the same
    search. *)
Lemma parseMod_next_eq (b : view) (i i' : nat) :
  i < len b -> i' < len b -> next b i true = next b i' true ->
  parseMod b i = parseMod b i'.
Proof.
  intros Hi Hi' Hn. rewrite (parseMod_unfold b i), (parseMod_unfold b i').
  apply Nat.ltb_lt in Hi, Hi'. now rewrite Hi, Hi', Hn.
Qed.

(** The keyword search passes over the text in front of the declaration. *)
Lemma parseMod_skipped (b : view) (prefix l0 tail : list byte) :
  elems b = l0 ++ prefix ++ B modkw ++ tail ->
  skipped false prefix = true ->
  parseMod b (length l0) = parseMod b (length l0 + length prefix).
Proof.
  rewrite B_modkw.
  remember (length prefix) as k eqn:Hk. revert prefix l0 Hk.
  induction k as [k IH] using lt_wf_ind. intros prefix l0 Hk Hb Hsk.
  destruct prefix as [|c l]; [subst k; now rewrite Nat.add_0_r|].
  assert (Hc : idx b (length l0) = Ok c) by (eapply idx_middle; [exact Hb|reflexivity]).
  assert (Hlen : length l0 + length (c :: l) + 7 <= len b).
  { unfold len. rewrite Hb. len_eq. }
  assert (Hstep : forall l',
            length l' < length (c :: l) ->
            elems b = (l0 ++ take (length (c :: l) - length l') (c :: l)) ++ l'
                      ++ ["m"; "o"; "d"; "u"; "l"; "e"; " "]%byte ++ tail ->
            skipped false l' = true ->
            parseMod b (length l0 + (length (c :: l) - length l'))
            = parseMod b (length l0 + k)).
  { intros l' Hl' Hb' Hsk'.
    assert (HL : length (l0 ++ take (length (c :: l) - length l') (c :: l))
                 = length l0 + (length (c :: l) - length l')).
    { rewrite length_app, length_take. lia. }
    rewrite <- HL.
    rewrite (IH (length l') ltac:(lia) l'
               (l0 ++ take (length (c :: l) - length l') (c :: l)) eq_refl Hb' Hsk').
    f_equal. rewrite HL. lia. }
  cbn [skipped] in Hsk. cbn [length] in *.
  destruct (isspace c) eqn:Hsp.
  - (* whitespace *)
    rewrite (parseMod_next_eq b (length l0) (length l0 + 1)); try lia;
      [|now apply (next_space_step b _ c)].
    rewrite <- (Hstep l); [f_equal; lia|lia| |exact Hsk].
    replace (S (length l) - length l) with 1 by lia. rewrite Hb. app_eq.
  - destruct (Byte.eqb c com) eqn:Hcom.
    + apply beqb_eq in Hcom. subst c. destruct l as [|c' l].
      * (* a slash right in front of the keyword *)
        rewrite (parseMod_next_eq b (length l0) (length l0 + 1)); try (simpl in *; lia).
        -- subst k. reflexivity.
        -- apply (next_slash_step b _ "m"%byte); [exact Hc| |reflexivity].
           eapply (idx_middle b (l0 ++ [com])); [rewrite Hb; app_eq|len_eq].
      * assert (Hc' : idx b (length l0 + 1) = Ok c').
        { eapply (idx_middle b (l0 ++ [com])); [rewrite Hb; app_eq|len_eq]. }
        destruct (Byte.eqb c' com) eqn:Hcom'.
        -- (* a comment *)
           apply beqb_eq in Hcom'. subst c'.
           destruct (skipped_comment_split _ Hsk) as (body & l' & -> & Hbody & Hl').
           assert (Hs : search lin b (length l0 + 2)
                        = length l0 + 2 + length body).
           { replace (length l0 + 2) with (length (l0 ++ [com; com])) by len_eq.
             apply (search_app lin b (l0 ++ [com; com]) body
                      (lin :: l' ++ ["m"; "o"; "d"; "u"; "l"; "e"; " "]%byte ++ tail));
               [rewrite Hb; app_eq|exact Hbody|now right]. }
           cbn [length] in *. rewrite length_app in *. cbn [length] in *.
           rewrite (parseMod_next_eq b (length l0) (length l0 + 2 + length body + 1));
             try lia; [|rewrite <- Hs; now apply next_comment_step].
           rewrite <- (Hstep l'); [f_equal; lia|lia| |exact Hl'].
           replace (S (S (length body + S (length l'))) - length l')
             with (length (com :: com :: body ++ [lin])) by len_eq.
           rewrite Hb.
           replace (com :: com :: body ++ lin :: l')
             with ((com :: com :: body ++ [lin]) ++ l') by app_eq.
           rewrite take_app_length. app_eq.
        -- (* a single slash *)
           rewrite (parseMod_next_eq b (length l0) (length l0 + 1)); try (simpl in *; lia);
             [|now apply (next_slash_step b _ c')].
           rewrite <- (Hstep (c' :: l)); [f_equal; simpl; lia|simpl; lia| |exact Hsk].
           replace (S (length (c' :: l)) - length (c' :: l)) with 1 by lia.
           rewrite Hb. app_eq.
    + (* a byte at which the keyword does not start *)
      apply andb_true_iff in Hsk as [Hkw Hsk]. apply negb_true_iff in Hkw.
      rewrite B_modkw in Hkw.
      rewrite parseMod_unfold.
      destruct (length l0 <? len b) eqn:E0; [|apply Nat.ltb_ge in E0; lia].
      rewrite (next_stop b (length l0) c true Hc Hsp) by now rewrite Hcom.
      simpl bind.
      destruct (len b <? length l0 + 7) eqn:E7; [apply Nat.ltb_lt in E7; lia|].
      rewrite sub_elems by lia.
      replace (take (length l0 + 7 - length l0) (drop (length l0) (elems b)))
        with (take 7 ((c :: l) ++ ["m"; "o"; "d"; "u"; "l"; "e"; " "]%byte)).
      2:{ rewrite Hb, drop_app_length. replace (length l0 + 7 - length l0) with 7 by lia.
          rewrite (app_assoc (c :: l)). rewrite (take_app_le (_ ++ _)); [reflexivity|].
          len_eq. }
      cbn [bind]. rewrite Hkw.
      rewrite <- (Hstep l); [f_equal; lia|lia| |exact Hsk].
      replace (S (length l) - length l) with 1 by lia. rewrite Hb. app_eq.
Qed.

(** From the start of the buffer the search arrives at the keyword of the
    declaration and goes on with the name and the version. *)
Lemma parseMod_keyword (b : view) (prefix tail : list byte) :
  elems b = prefix ++ B modkw ++ tail ->
  skipped false prefix = true ->
  parseMod b 0
  = (r <- parseModName b (length prefix + 7) ;;
     let '(name, i2) := r in
     r' <- parseModVersion b i2 ;;
     let '(version, vlen, i3) := r' in
     Ok (name, version, vlen, i3)).
Proof.
  intros Hb Hsk.
  change (parseMod b 0) with (parseMod b (length (@nil byte))).
  rewrite (parseMod_skipped b prefix [] tail Hb Hsk). cbn [length Nat.add].
  rewrite B_modkw in Hb.
  assert (Hlen : length prefix + 7 <= len b).
  { unfold len. rewrite Hb. len_eq. }
  rewrite parseMod_unfold.
  destruct (length prefix <? len b) eqn:E0; [|apply Nat.ltb_ge in E0; lia].
  rewrite (next_stop b (length prefix) "m"%byte true);
    [|eapply idx_middle; [exact Hb|reflexivity]|reflexivity|reflexivity].
  simpl bind.
  destruct (len b <? length prefix + 7) eqn:E1; [apply Nat.ltb_lt in E1; lia|].
  rewrite (sub_middle b prefix ["m"; "o"; "d"; "u"; "l"; "e"; " "]%byte tail);
    [|exact Hb|reflexivity|reflexivity].
  reflexivity.
Qed.

Lemma validVersion_chars (v : list byte) :
  validVersion v = true ->
  Forall (fun c => isnum c = true \/ c = "."%byte) v.
Proof.
  unfold validVersion.
  destruct (_ && _ && _); [|discriminate].
  intros H. apply Forall_forall. intros c Hc.
  rewrite forallb_forall in H. apply list_elem_of_In in Hc. specialize (H c Hc).
  destruct (isnum c); [now left|right]. simpl in H.
  apply negb_true_iff, negb_false_iff, beqb_eq in H. exact H.
Qed.

Lemma validVersion_no_lin (v : list byte) :
  validVersion v = true -> Forall (fun c => c <> lin) v.
Proof.
  intros H. eapply Forall_impl; [apply validVersion_chars, H|].
  intros c [Hc| ->] E; [subst c|]; discriminate.
Qed.

Lemma validVersion_length (v : list byte) : validVersion v = true -> 4 < length v.
Proof.
  unfold validVersion. destruct (4 <? length v) eqn:E; [|discriminate].
  intros _. now apply Nat.ltb_lt.
Qed.

Lemma line_end_cases (rest : list byte) :
  line_end rest = true -> rest = [] \/ head rest = Some lin.
Proof.
  destruct rest as [|c rest]; simpl; [now left|].
  intros H. apply beqb_eq in H. subst c. now right.
Qed.

(** The unquoted loop runs over a bare identifier up to the whitespace
    behind it. *)
Lemma nameEnd_bare (b : view) (l1 l tl : list byte) (w : byte) (i : nat) :
  elems b = l1 ++ l ++ w :: tl -> i = length l1 ->
  forallb (fun c => negb (isspace c)) l = true -> has_comm l = false ->
  isspace w = true ->
  nameEnd b i = Ok (i + length l).
Proof.
  revert l1 i. induction l as [|c l IH]; intros l1 i Hb -> Hl Hc Hw.
  - rewrite nameEnd_unfold.
    assert (Hi : idx b (length l1) = Ok w) by (eapply idx_middle; [exact Hb|reflexivity]).
    pose proof (idx_lt _ _ _ Hi) as Hlt. apply Nat.ltb_lt in Hlt.
    rewrite Hlt, Hi. simpl. rewrite Hw. f_equal. lia.
  - rewrite nameEnd_unfold.
    assert (Hi : idx b (length l1) = Ok c) by (eapply idx_middle; [exact Hb|reflexivity]).
    pose proof (idx_lt _ _ _ Hi) as Hlt. apply Nat.ltb_lt in Hlt.
    cbn [forallb] in Hl. apply andb_true_iff in Hl as [Hcs Hl].
    apply negb_true_iff in Hcs.
    rewrite Hlt, Hi. simpl. rewrite Hcs.
    assert (Hisc : iscomm b (length l1) = Ok false).
    { unfold iscomm. rewrite Hi. simpl.
      destruct (Byte.eqb c com) eqn:Ec; [|reflexivity].
      destruct l as [|c' l].
      - rewrite (idx_middle b (l1 ++ [c]) tl w); [|rewrite Hb; app_eq|len_eq].
        simpl. now rewrite (space_not_com _ Hw).
      - rewrite (idx_middle b (l1 ++ [c]) (l ++ w :: tl) c'); [|rewrite Hb; app_eq|len_eq].
        simpl. cbn [has_comm] in Hc. rewrite Ec in Hc.
        apply orb_false_iff in Hc as [Hc _]. simpl in Hc. now rewrite Hc. }
    rewrite Hisc. simpl.
    rewrite (IH (l1 ++ [c]) (length l1 + 1)); try assumption.
    + f_equal. len_eq.
    + rewrite Hb. app_eq.
    + len_eq.
    + destruct l as [|c' l]; [reflexivity|]. cbn [has_comm] in Hc.
      apply orb_false_iff in Hc as [_ Hc]. exact Hc.
Qed.

Lemma quote_not_esc (q : byte) :
  Byte.eqb q aps || Byte.eqb q qot = true -> Byte.eqb q esc = false.
Proof. destruct q; vm_compute; congruence. Qed.

(** [parseModName] on a well-formed identifier followed by whitespace. *)
Lemma parseModName_ident (b : view) (l1 tl : list byte) (x : ident) (w : byte) (i : nat) :
  elems b = l1 ++ ident_text x ++ w :: tl -> i = length l1 ->
  ident_ok x = true -> isspace w = true ->
  parseModName b i = Ok (ident_name x, i + length (ident_text x)).
Proof.
  intros Hb -> Hx Hw. unfold parseModName. destruct x as [l|q l]; simpl in *.
  - destruct l as [|c l]; [discriminate|].
    apply andb_true_iff in Hx as [Hx Hcomm]. apply andb_true_iff in Hx as [Hq Hsp].
    apply negb_true_iff in Hq, Hcomm.
    assert (Hi : idx b (length l1) = Ok c) by (eapply idx_middle; [exact Hb|reflexivity]).
    pose proof Hsp as Hsp'. cbn [forallb] in Hsp'.
    apply andb_true_iff in Hsp' as [Hcs _]. apply negb_true_iff in Hcs.
    rewrite (next_stop b (length l1) c false Hi Hcs eq_refl). simpl.
    rewrite Hi. simpl. rewrite Hq. unfold bareName.
    rewrite (nameEnd_bare b l1 (c :: l) tl w (length l1) Hb eq_refl Hsp Hcomm Hw).
    simpl. rewrite (sub_middle b l1 (c :: l) (w :: tl)); [reflexivity|exact Hb|reflexivity|].
    simpl. lia.
  - apply andb_true_iff in Hx as [Hx Hlast]. apply andb_true_iff in Hx as [Hq Hl].
    assert (Hi : idx b (length l1) = Ok q) by (eapply idx_middle; [exact Hb|reflexivity]).
    rewrite (next_stop b (length l1) q false Hi (quote_not_space _ Hq) eq_refl). simpl.
    rewrite Hi. simpl. rewrite Hq.
    assert (Hs : search q b (length l1 + 1) = length l1 + 1 + length l).
    { replace (length l1 + 1) with (length (l1 ++ [q])) by len_eq.
      apply (search_app q b (l1 ++ [q]) l (q :: w :: tl)).
      - rewrite Hb. app_eq.
      - apply Forall_forall. intros y Hy. rewrite forallb_forall in Hl.
        apply list_elem_of_In in Hy. specialize (Hl y Hy).
        apply negb_true_iff, beqb_neq in Hl. exact Hl.
      - right. reflexivity. }
    rewrite Hs.
    assert (He : exists e, idx b (length l1 + 1 + length l - 1) = Ok e
                           /\ Byte.eqb e esc = false).
    { replace (length l1 + 1 + length l - 1) with (length l1 + length l) by lia.
      destruct l as [|y l].
      - exists q. split; [|now apply quote_not_esc].
        rewrite Nat.add_0_r. exact Hi.
      - destruct (last (y :: l)) as [e|] eqn:El.
        + exists e. split; [|now apply negb_true_iff].
          apply idx_Ok. rewrite Hb. rewrite last_lookup in El. simpl in El.
          rewrite lookup_app_r by lia.
          replace (length l1 + length (y :: l) - length l1) with (S (length l))
            by (simpl; lia).
          simpl. rewrite <- app_assoc, app_comm_cons.
          rewrite lookup_app_l by (simpl; lia). exact El.
        + rewrite last_lookup in El. simpl in El.
          apply lookup_ge_None in El. simpl in El. lia. }
    destruct He as (e & He & Hee). rewrite He. simpl. rewrite Hee. simpl.
    rewrite (sub_middle b (l1 ++ [q]) l (q :: w :: tl));
      [|rewrite Hb; app_eq|len_eq|len_eq].
    simpl. do 2 f_equal. len_eq.
Qed.

(** [parseModVersion] on whitespace followed by a valid annotation that
    ends its line. *)
Lemma parseModVersion_annotated (b : view) (l1 ws ver rest : list byte) (i : nat) :
  elems b = l1 ++ ws ++ B pre ++ ver ++ rest -> i = length l1 ->
  forallb isspace ws = true -> validVersion ver = true -> line_end rest = true ->
  parseModVersion b i
  = Ok (string_of_list_byte ver, length ws + 3 + length ver, i).
Proof.
  intros Hb -> Hws Hver Hrest. rewrite B_pre in Hb. unfold parseModVersion.
  rewrite (next_spaces b l1 ws (com :: "v"%byte :: ver ++ rest) com (length l1) false);
    [|rewrite Hb; app_eq|reflexivity|exact Hws|reflexivity|reflexivity].
  simpl.
  rewrite (idx_middle b (l1 ++ ws) (com :: "v"%byte :: ver ++ rest) com);
    [|rewrite Hb; app_eq|len_eq].
  simpl.
  rewrite (sub_middle b (l1 ++ ws) [com; com; "v"%byte] (ver ++ rest));
    [|rewrite Hb; app_eq|len_eq|reflexivity].
  simpl.
  replace (length l1 + length ws + 3)
    with (length (l1 ++ ws ++ [com; com; "v"%byte])) by len_eq.
  rewrite (search_app lin b (l1 ++ ws ++ [com; com; "v"%byte]) ver rest);
    [|rewrite Hb; app_eq|now apply validVersion_no_lin|now apply line_end_cases].
  rewrite (sub_middle b (l1 ++ ws ++ [com; com; "v"%byte]) ver rest);
    [|rewrite Hb; app_eq|reflexivity|reflexivity].
  simpl. rewrite Hver. do 3 f_equal. len_eq.
Qed.

(** The scan of a declaration line with an annotation: the keyword behind
    whitespace and comment lines, a well-formed identifier, whitespace, and
    a valid annotation that ends its line. *)
Lemma parseMod_annotated (b : view) (prefix ws ver rest : list byte) (x : ident) (w : byte) :
  elems b = prefix ++ B modkw ++ ident_text x ++ (w :: ws) ++ B pre ++ ver ++ rest ->
  skipped false prefix = true -> ident_ok x = true ->
  forallb isspace (w :: ws) = true -> validVersion ver = true ->
  line_end rest = true ->
  parseMod b 0
  = Ok (ident_name x, string_of_list_byte ver,
        length (w :: ws) + 3 + length ver,
        length prefix + 7 + length (ident_text x)).
Proof.
  intros Hb Hnz Hx Hws Hver Hrest.
  rewrite (parseMod_keyword b prefix _ Hb Hnz). rewrite B_modkw in Hb.
  pose proof Hws as Hws'. cbn [forallb] in Hws'. apply andb_true_iff in Hws' as [Hw _].
  rewrite (parseModName_ident b (prefix ++ ["m"; "o"; "d"; "u"; "l"; "e"; " "]%byte)
             (ws ++ B pre ++ ver ++ rest) x w);
    [|rewrite Hb; app_eq|len_eq|exact Hx|exact Hw].
  simpl bind. cbv iota beta.
  rewrite (parseModVersion_annotated b
             (prefix ++ ["m"; "o"; "d"; "u"; "l"; "e"; " "]%byte ++ ident_text x)
             (w :: ws) ver rest);
    [|rewrite Hb; app_eq|len_eq|exact Hws|exact Hver|exact Hrest].
  reflexivity.
Qed.

(** ** The heap operations *)

Lemma length_write (a xs : list byte) (k : nat) :
  k + length xs <= length a -> length (write a k xs) = length a.
Proof.
  intros H. unfold write. rewrite !length_app, length_take, length_drop. lia.
Qed.

Lemma contents_write (a xs : list byte) (o n : nat) :
  o + n + length xs <= length a ->
  take (n + length xs) (drop o (write a (o + n) xs)) = take n (drop o a) ++ xs.
Proof.
  intros H. unfold write.
  rewrite drop_app_le by (rewrite length_take; lia).
  rewrite <- take_drop_commute, app_assoc.
  apply take_app_length'. rewrite length_app, length_take, length_drop. lia.
Qed.

(** What lies before the written range stays. *)
Lemma take_write (a xs : list byte) (k j : nat) :
  j <= k -> k <= length a -> take j (write a k xs) = take j a.
Proof.
  intros Hj Hk. unfold write.
  rewrite take_app_le by (rewrite length_take; lia).
  rewrite take_take. f_equal. lia.
Qed.

Lemma length_contents (h : heap) (s : slice) :
  wf_slice h s -> length (contents h s) = slen s.
Proof.
  intros (_ & H1 & H2). unfold contents. rewrite length_take, length_drop. lia.
Qed.

(** [append] either writes in place and returns a slice of the same array,
    or leaves the heap as it is and returns a slice of a fresh array. *)
Lemma append_spec (g : nat -> nat -> nat) (h : heap) (s : slice) (xs : list byte) :
  wf_slice h s ->
  exists r h',
    append g s xs h = Ok (r, h')
    /\ wf_slice h' r
    /\ contents h' r = contents h s ++ xs
    /\ slen r = slen s + length xs
    /\ length h <= length h'
    /\ (forall p, p < length h -> p <> ptr s -> h' !! p = h !! p)
    /\ (if slen s + length xs <=? scap s
        then ptr r = ptr s /\ off r = off s
             /\ array_of h' s = write (array_of h s) (off s + slen s) xs
        else ptr r = length h /\ h' !! ptr s = h !! ptr s).
Proof.
  intros (Hp & Ha & Hl). unfold append.
  destruct (slen s + length xs <=? scap s) eqn:E.
  - apply Nat.leb_le in E. eexists _, _. split; [reflexivity|].
    assert (Harr : array_of (<[ptr s := write (array_of h s) (off s + slen s) xs]> h) s
                   = write (array_of h s) (off s + slen s) xs).
    { unfold array_of. rewrite list_lookup_insert_eq by exact Hp. reflexivity. }
    repeat split; simpl.
    + rewrite length_insert. exact Hp.
    + change (array_of _ _) with
        (array_of (<[ptr s := write (array_of h s) (off s + slen s) xs]> h) s).
      rewrite Harr, length_write; lia.
    + exact E.
    + unfold contents. simpl.
      change (array_of _ {| ptr := ptr s; off := off s; slen := _; scap := _ |}) with
        (array_of (<[ptr s := write (array_of h s) (off s + slen s) xs]> h) s).
      rewrite Harr. apply contents_write. lia.
    + rewrite length_insert. lia.
    + intros p _ Hne. apply list_lookup_insert_ne. congruence.
    + exact Harr.
  - apply Nat.leb_gt in E. eexists _, _. split; [reflexivity|].
    set (n := slen s + length xs). set (c := Nat.max n (g (scap s) n)).
    set (a := contents h s ++ xs ++ replicate (c - n) x00).
    assert (Harr : (h ++ [a]) !! length h = Some a) by now apply list_lookup_middle.
    assert (Hlc : length (contents h s) = slen s) by (apply length_contents; repeat split; assumption).
    repeat split; simpl.
    + rewrite length_app. simpl. lia.
    + unfold array_of. simpl. rewrite Harr. simpl. unfold a.
      rewrite !length_app, length_replicate, Hlc. lia.
    + lia.
    + unfold contents at 1. unfold array_of at 1. simpl. rewrite Harr. simpl. unfold a.
      rewrite app_assoc. apply take_app_length'. rewrite length_app, Hlc. reflexivity.
    + rewrite length_app. simpl. lia.
    + intros p Hlt _. apply lookup_app_l. exact Hlt.
    + apply lookup_app_l. exact Hp.
Qed.

Lemma append_fresh (g : nat -> nat -> nat) (h0 h : heap) (v : slice) (xs : list byte) :
  fresh_in h0 h v ->
  exists v' h',
    append g v xs h = Ok (v', h')
    /\ fresh_in h0 h' v'
    /\ contents h' v' = contents h v ++ xs.
Proof.
  intros (Hwf & Hp & Hl & Hfr).
  destruct (append_spec g h v xs Hwf) as (r & h' & Heq & Hwf' & Hc & _ & Hl' & Hfr' & Hptr).
  exists r, h'. split; [exact Heq|]. split; [|exact Hc].
  split; [exact Hwf'|]. split; [|split].
  - destruct (slen v + length xs <=? scap v).
    + destruct Hptr as (-> & _). exact Hp.
    + destruct Hptr as (-> & _). exact Hl.
  - lia.
  - intros p Hlt. rewrite Hfr' by lia. apply Hfr. exact Hlt.
Qed.

Lemma alloc_fresh (h0 h : heap) (v : slice) (a : list byte) :
  fresh_in h0 h v ->
  fresh_in h0 (h ++ [a]) v /\ contents (h ++ [a]) v = contents h v.
Proof.
  intros ((Hp & Ha & Hs) & Hv & Hl & Hfr).
  assert (Harr : array_of (h ++ [a]) v = array_of h v).
  { unfold array_of. now rewrite lookup_app_l. }
  split.
  - repeat split.
    + rewrite length_app. lia.
    + rewrite Harr. exact Ha.
    + exact Hs.
    + exact Hv.
    + rewrite length_app. lia.
    + intros p Hlt. rewrite lookup_app_l by lia. now apply Hfr.
  - unfold contents. now rewrite Harr.
Qed.

Lemma go_bind_Ok {A C : Type} (m : go A) (f : A -> go C) (h h' : heap) (a : A) :
  m h = Ok (a, h') -> go_bind m f h = f a h'.
Proof. intros H. unfold go_bind. rewrite H. reflexivity. Qed.

Lemma reslice_Ok (s : slice) (lo hi : nat) :
  lo <= hi -> hi <= scap s ->
  reslice s lo hi = Ok (Slice (ptr s) (off s + lo) (hi - lo) (scap s - lo)).
Proof.
  intros H1 H2. unfold reslice.
  destruct (lo <=? hi) eqn:E1; [|apply Nat.leb_gt in E1; lia].
  destruct (hi <=? scap s) eqn:E2; [|apply Nat.leb_gt in E2; lia].
  reflexivity.
Qed.

(** A sub-slice reads its part of the elements of the slice. *)
Lemma contents_reslice (h h' : heap) (s : slice) (lo hi : nat) :
  h' !! ptr s = h !! ptr s -> lo <= hi -> hi <= slen s ->
  contents h' (Slice (ptr s) (off s + lo) (hi - lo) (scap s - lo))
  = take (hi - lo) (drop lo (contents h s)).
Proof.
  intros Hp H1 H2. unfold contents, array_of. simpl. rewrite Hp.
  rewrite skipn_firstn_comm, drop_drop, take_take. f_equal. lia.
Qed.

(** The splicer: it returns, the result holds the spliced text, arrays
    other than the one of the input are left alone, and the result is
    written into the array of the input exactly when it fits its capacity. *)
Lemma updateModVersion_spec (g : nat -> nat -> nat) (h : heap) (s : slice)
    (vpos vlen : nat) (version : string) :
  wf_slice h s -> vpos + vlen <= slen s ->
  exists r h',
    updateModVersion g s vpos vlen version h = Ok (r, h')
    /\ wf_slice h' r
    /\ contents h' r = spliced (contents h s) vpos vlen version
    /\ length h <= length h'
    /\ (forall p, p < length h -> p <> ptr s -> h' !! p = h !! p)
    /\ (if vpos + (length (annotation version) + (slen s - (vpos + vlen))) <=? scap s
        then ptr r = ptr s /\ off r = off s
             /\ array_of h' s
                = write (array_of h s) (off s + vpos)
                    (annotation version ++ drop (vpos + vlen) (contents h s))
        else length h <= ptr r /\ h' !! ptr s = h !! ptr s).
Proof.
  intros Hwf Hb. pose proof Hwf as (Hp & Ha & Hl).
  unfold updateModVersion.
  (* v := make([]byte, 0, len(bytes)) *)
  set (v := Slice (length h) 0 0 (slen s)).
  set (h1 := h ++ [replicate (slen s) x00]).
  assert (E0 : make 0 (slen s) h = Ok (v, h1)) by reflexivity.
  rewrite (go_bind_Ok _ _ _ _ _ E0).
  assert (F0 : fresh_in h h1 v).
  { repeat split; simpl.
    - unfold h1. rewrite length_app. simpl. lia.
    - unfold array_of, h1. simpl. rewrite list_lookup_middle by reflexivity.
      simpl. rewrite length_replicate. lia.
    - lia.
    - lia.
    - unfold h1. rewrite length_app. lia.
    - intros p Hlt. unfold h1. now apply lookup_app_l. }
  (* bytes[:vpos] *)
  rewrite (go_bind_Ok (go_lift (reslice s 0 vpos)) _ h1 h1
             (Slice (ptr s) (off s + 0) (vpos - 0) (scap s - 0)))
    by (unfold go_lift; rewrite reslice_Ok by lia; reflexivity).
  (* append(v, spc) *)
  destruct (append_fresh g h h1 v [spc] F0) as (v1 & h2 & E1 & F1 & C1).
  rewrite (go_bind_Ok _ _ _ _ _ E1).
  (* []byte(pre+version) *)
  set (l := list_byte_of_string (pre ++ version)).
  rewrite (go_bind_Ok (bytes_of_string (pre ++ version)) _ h2 (h2 ++ [l])
             (Slice (length h2) 0 (length l) (length l))) by reflexivity.
  destruct (alloc_fresh h h2 v1 l F1) as (F1' & C1').
  rewrite (go_bind_Ok (read _) _ (h2 ++ [l]) (h2 ++ [l]) l).
  2:{ unfold read, contents, array_of. simpl.
      rewrite list_lookup_middle by reflexivity. simpl.
      rewrite take_ge by lia. reflexivity. }
  destruct (append_fresh g h (h2 ++ [l]) v1 l F1') as (v2 & h4 & E2 & F2 & C2).
  rewrite (go_bind_Ok _ _ _ _ _ E2).
  (* bytes[vpos+vlen:] *)
  rewrite (go_bind_Ok (go_lift (reslice s (vpos + vlen) (slen s))) _ h4 h4
             (Slice (ptr s) (off s + (vpos + vlen)) (slen s - (vpos + vlen))
                (scap s - (vpos + vlen))))
    by (unfold go_lift; rewrite reslice_Ok by lia; reflexivity).
  pose proof F2 as (_ & _ & Hl4 & Hfr4).
  rewrite (go_bind_Ok (read _) _ h4 h4 (drop (vpos + vlen) (contents h s))).
  2:{ unfold read. rewrite (contents_reslice h h4 s (vpos + vlen) (slen s));
        [|now apply Hfr4|lia|lia].
      rewrite take_ge; [reflexivity|].
      rewrite length_drop, length_contents by exact Hwf. lia. }
  destruct (append_fresh g h h4 v2 (drop (vpos + vlen) (contents h s)) F2)
    as (v3 & h5 & E3 & F3 & C3).
  rewrite (go_bind_Ok _ _ _ _ _ E3).
  rewrite (go_bind_Ok (read v3) _ h5 h5 (contents h5 v3)) by reflexivity.
  (* the outer append *)
  pose proof F3 as (_ & _ & Hl5 & Hfr5).
  set (hd := Slice (ptr s) (off s + 0) (vpos - 0) (scap s - 0)).
  assert (Harr5 : array_of h5 hd = array_of h s).
  { unfold array_of. simpl. now rewrite Hfr5. }
  assert (Hwf5 : wf_slice h5 hd).
  { repeat split; simpl; [lia| |lia]. rewrite Harr5. lia. }
  assert (Hc5 : contents h5 hd = take vpos (contents h s)).
  { unfold hd. rewrite (contents_reslice h h5 s 0 vpos); [|now apply Hfr5|lia|lia].
    rewrite Nat.sub_0_r. reflexivity. }
  assert (Hv3 : contents h5 v3 = annotation version ++ drop (vpos + vlen) (contents h s)).
  { rewrite C3, C2, C1', C1. unfold contents at 1. simpl.
    unfold annotation. fold l. app_eq. }
  destruct (append_spec g h5 hd (contents h5 v3) Hwf5)
    as (r & h6 & E6 & Hwf6 & C6 & Hlen6 & Hl6 & Hfr6 & Hcase).
  exists r, h6. split; [exact E6|]. split; [exact Hwf6|]. split; [|split; [lia|split]].
  - rewrite C6, Hc5, Hv3. unfold spliced. reflexivity.
  - intros p Hlt Hne. rewrite Hfr6; [now apply Hfr5|lia|exact Hne].
  - assert (Hlen3 : length (contents h5 v3)
                    = length (annotation version) + (slen s - (vpos + vlen))).
    { rewrite Hv3, length_app, length_drop, length_contents by exact Hwf. reflexivity. }
    simpl in Hcase. rewrite !Nat.sub_0_r, ?Nat.add_0_r in Hcase. rewrite Hlen3 in Hcase.
    destruct (vpos + (length (annotation version) + (slen s - (vpos + vlen))) <=? scap s).
    + destruct Hcase as (Hr1 & Hr2 & Hr3). split; [exact Hr1|]. split; [lia|].
      change (array_of h6 s) with (array_of h6 hd). rewrite Hr3, Harr5, Hv3.
      reflexivity.
    + destruct Hcase as (Hr1 & Hr2). split; [lia|]. rewrite Hr2. now apply Hfr5.
Qed.

(** ** Strings and bytes *)

Lemma list_byte_of_string_app (s1 s2 : string) :
  list_byte_of_string (s1 ++ s2) = list_byte_of_string s1 ++ list_byte_of_string s2.
Proof.
  unfold list_byte_of_string. induction s1 as [|c s1 IH]; simpl; [reflexivity|].
  now rewrite IH.
Qed.

Lemma length_list_byte_of_string (s : string) :
  length (list_byte_of_string s) = String.length s.
Proof.
  unfold list_byte_of_string. induction s as [|c s IH]; simpl; [reflexivity|].
  now rewrite IH.
Qed.

Lemma annotation_bytes (v : list byte) :
  annotation (string_of_list_byte v) = spc :: B pre ++ v.
Proof.
  unfold annotation, B.
  now rewrite list_byte_of_string_app, list_byte_of_string_of_list_byte.
Qed.

Lemma length_annotation (version : string) :
  length (annotation version) = 4 + String.length version.
Proof.
  unfold annotation. cbn [length].
  rewrite list_byte_of_string_app, length_app, !length_list_byte_of_string.
  reflexivity.
Qed.

(** Splicing the text that is already there changes nothing. *)
Lemma spliced_same (l1 v rest : list byte) :
  spliced (l1 ++ (spc :: B pre ++ v) ++ rest) (length l1) (4 + length v)
    (string_of_list_byte v)
  = l1 ++ (spc :: B pre ++ v) ++ rest.
Proof.
  unfold spliced. rewrite annotation_bytes.
  rewrite take_app_length. f_equal. f_equal.
  rewrite drop_app_add. apply drop_app_length'. rewrite B_pre. simpl. reflexivity.
Qed.

(** A version [X.Y.Z] of three runs of digits is valid. *)
Lemma validVersion_xyz (x y z : list byte) :
  x <> [] -> y <> [] -> z <> [] ->
  forallb isnum x = true -> forallb isnum y = true -> forallb isnum z = true ->
  validVersion (x ++ "."%byte :: y ++ "."%byte :: z) = true.
Proof.
  intros Hx Hy Hz Dx Dy Dz. unfold validVersion.
  assert (Hlen : 4 < length (x ++ "."%byte :: y ++ "."%byte :: z)).
  { destruct x; [congruence|]. destruct y; [congruence|]. destruct z; [congruence|].
    len_eq. }
  apply Nat.ltb_lt in Hlen. rewrite Hlen. simpl.
  assert (H0 : isnum (default x00 ((x ++ "."%byte :: y ++ "."%byte :: z) !! 0)) = true).
  { destruct x as [|c x]; [congruence|]. simpl in *.
    now apply andb_true_iff in Dx as [? _]. }
  assert (H1 : isnum (default x00 ((x ++ "."%byte :: y ++ "."%byte :: z)
                 !! (length (x ++ "."%byte :: y ++ "."%byte :: z) - 1))) = true).
  { destruct (exists_last Hz) as (z' & c & ->).
    replace (x ++ "."%byte :: y ++ "."%byte :: z' ++ [c])
      with ((x ++ "."%byte :: y ++ "."%byte :: z') ++ [c]) by app_eq.
    rewrite length_app. simpl.
    rewrite list_lookup_middle by lia. simpl.
    rewrite forallb_app in Dz. apply andb_true_iff in Dz as [_ Dz]. simpl in Dz.
    now apply andb_true_iff in Dz as [? _]. }
  rewrite H0, H1. simpl.
  rewrite forallb_app. simpl. rewrite forallb_app. simpl.
  assert (Hd : forall l, forallb isnum l = true ->
     forallb (fun c => negb (negb (isnum c) && negb (Byte.eqb c "."%byte))) l = true).
  { intros l Hl. rewrite forallb_forall in *. intros c Hc. now rewrite (Hl c Hc). }
  now rewrite !Hd.
Qed.

Lemma spliced_middle (l1 mid rest : list byte) (vpos vlen : nat) (version : string) :
  vpos = length l1 -> vlen = length mid ->
  spliced (l1 ++ mid ++ rest) vpos vlen version = l1 ++ annotation version ++ rest.
Proof.
  intros -> ->. unfold spliced. rewrite take_app_length. do 2 f_equal.
  rewrite drop_app_add. apply drop_app_length.
Qed.

(** ** The splicer *)

(** C5: given offsets inside the buffer, [updateModVersion] returns a buffer
    that holds the bytes before [vpos], a space, ["//v"] and the new version,
    and the bytes from [vpos + vlen] on; what lies outside the replaced range
    is kept, the length changes by the difference of the annotations, and
    for [vlen = 0] the annotation is inserted at [vpos]. *)
Theorem update_content (g : nat -> nat -> nat) (h : heap) (bytes : slice)
    (vpos vlen : nat) (newVersion : string) :
  wf_slice h bytes -> vpos + vlen <= slen bytes ->
  exists r h',
    updateModVersion g bytes vpos vlen newVersion h = Ok (r, h')
    /\ contents h' r
       = take vpos (contents h bytes)
         ++ [spc] ++ list_byte_of_string ("//v" ++ newVersion)
         ++ drop (vpos + vlen) (contents h bytes)
    /\ take vpos (contents h' r) = take vpos (contents h bytes)
    /\ drop (vpos + (4 + String.length newVersion)) (contents h' r)
       = drop (vpos + vlen) (contents h bytes)
    /\ length (contents h' r) = slen bytes - vlen + (4 + String.length newVersion)
    /\ (vlen = 0 ->
        contents h' r
        = take vpos (contents h bytes)
          ++ [spc] ++ list_byte_of_string ("//v" ++ newVersion)
          ++ drop vpos (contents h bytes)).
Proof.
  intros Hwf Hb.
  destruct (updateModVersion_spec g h bytes vpos vlen newVersion Hwf Hb)
    as (r & h' & E & _ & C & _).
  exists r, h'. split; [exact E|].
  assert (Hl : length (contents h bytes) = slen bytes) by now apply length_contents.
  assert (Ht : length (take vpos (contents h bytes)) = vpos)
    by (rewrite length_take; lia).
  assert (C' : contents h' r
               = take vpos (contents h bytes) ++ annotation newVersion
                 ++ drop (vpos + vlen) (contents h bytes)) by exact C.
  split; [exact C|]. split; [|split; [|split]].
  - rewrite C'. rewrite take_app_length'; [reflexivity|now rewrite Ht].
  - rewrite C', app_assoc. apply drop_app_length'.
    rewrite length_app, Ht, length_annotation. reflexivity.
  - rewrite C', !length_app, Ht, length_annotation, length_drop. lia.
  - intros ->. rewrite Nat.add_0_r in C'. exact C'.
Qed.

Lemma update_content_witness :
  exists r h',
    updateModVersion exact_fit ex_slice 10 9 "2.0.10" ex_heap = Ok (r, h')
    /\ contents h' r = B "module foo //v2.0.10" ++ [lin].
Proof.
  destruct (update_content exact_fit ex_heap ex_slice 10 9 "2.0.10")
    as (r & h' & E & C & _).
  - unfold wf_slice. simpl. lia.
  - simpl. lia.
  - exists r, h'. split; [exact E|exact C].
Defined.

(** C2, as the code has it: [updateModVersion] never changes the bytes of
    the input before [vpos] nor any array other than the input's.  When the
    new text does not fit the capacity of the input, the result is a fresh
    array and the input is left as it was; when it fits, the result is the
    input's own array, overwritten from [vpos] on. *)
Theorem update_frame (g : nat -> nat -> nat) (h : heap) (bytes : slice)
    (vpos vlen : nat) (version : string) :
  wf_slice h bytes -> vpos + vlen <= slen bytes ->
  exists r h',
    updateModVersion g bytes vpos vlen version h = Ok (r, h')
    /\ take vpos (contents h' bytes) = take vpos (contents h bytes)
    /\ (forall p, p < length h -> p <> ptr bytes -> h' !! p = h !! p)
    /\ (scap bytes < slen bytes - vlen + (4 + String.length version) ->
        length h <= ptr r /\ h' !! ptr bytes = h !! ptr bytes
        /\ contents h' bytes = contents h bytes)
    /\ (slen bytes - vlen + (4 + String.length version) <= scap bytes ->
        ptr r = ptr bytes /\ off r = off bytes
        /\ array_of h' bytes
           = write (array_of h bytes) (off bytes + vpos)
               (annotation version ++ drop (vpos + vlen) (contents h bytes))).
Proof.
  intros Hwf Hb. pose proof Hwf as (Hp & Ha & Hl).
  destruct (updateModVersion_spec g h bytes vpos vlen version Hwf Hb)
    as (r & h' & E & _ & _ & _ & Hfr & Hcase).
  exists r, h'. split; [exact E|].
  rewrite length_annotation in Hcase.
  destruct (vpos + (4 + String.length version + (slen bytes - (vpos + vlen)))
            <=? scap bytes) eqn:Efit.
  - apply Nat.leb_le in Efit. destruct Hcase as (Hr1 & Hr2 & Hr3).
    split; [|split; [exact Hfr|split; [intros; lia|intros _; auto]]].
    unfold contents. rewrite Hr3, !take_take.
    replace (vpos `min` slen bytes) with vpos by lia.
    rewrite !take_drop_commute. f_equal. apply take_write; lia.
  - apply Nat.leb_gt in Efit. destruct Hcase as (Hr1 & Hr2).
    assert (Hc : contents h' bytes = contents h bytes).
    { unfold contents, array_of. now rewrite Hr2. }
    split; [now rewrite Hc|]. split; [exact Hfr|]. split; [auto|intros; lia].
Qed.

Lemma update_frame_witness :
  exists r h',
    updateModVersion exact_fit ex_slice 10 9 "2.0.10" ex_heap = Ok (r, h')
    /\ contents h' ex_slice = contents ex_heap ex_slice.
Proof.
  destruct (update_frame exact_fit ex_heap ex_slice 10 9 "2.0.10")
    as (r & h' & E & _ & _ & Hnew & _).
  - unfold wf_slice. simpl. lia.
  - simpl. lia.
  - exists r, h'. split; [exact E|]. apply Hnew. simpl. lia.
Defined.

(** C2, as stated, fails: replacing [1.0.0] by [2.0.0] fits the capacity, so
    the text is written into the input's array, whose bytes change, and the
    slice returned points to that same array. *)
Lemma update_mutates_input :
  exists r h',
    updateModVersion exact_fit ex_slice 10 9 "2.0.0" ex_heap = Ok (r, h')
    /\ contents h' ex_slice <> contents ex_heap ex_slice
    /\ ptr r = ptr ex_slice.
Proof.
  eexists _, _. split; [vm_compute; reflexivity|].
  split; [|reflexivity]. vm_compute. discriminate.
Qed.

(** ** The scanner on declaration lines *)

(** C3: on a buffer whose declaration line [module <identifier> //v<version>]
    follows whitespace and comment lines, with a well-formed bare or quoted
    identifier, one space, and a valid version that ends its line,
    [parseMod] returns the identifier (all of the quoted text, whitespace
    included), the version, and an offset and a length that span the space
    and the annotation; [updateModVersion] with these and the same version
    gives back the same bytes. *)
Theorem scan_declaration_line (g : nat -> nat -> nat) (h : heap) (bytes : slice)
    (prefix ver rest : list byte) (x : ident) :
  wf_slice h bytes ->
  contents h bytes
  = prefix ++ B modkw ++ ident_text x ++ (spc :: B pre ++ ver) ++ rest ->
  skipped false prefix = true -> ident_ok x = true ->
  validVersion ver = true -> line_end rest = true ->
  let vpos := length prefix + 7 + length (ident_text x) in
  let vlen := 4 + length ver in
  parseMod (view_of h bytes) 0
  = Ok (ident_name x, string_of_list_byte ver, vlen, vpos)
  /\ take vlen (drop vpos (contents h bytes)) = spc :: B pre ++ ver
  /\ exists r h',
       updateModVersion g bytes vpos vlen (string_of_list_byte ver) h = Ok (r, h')
       /\ contents h' r = contents h bytes.
Proof.
  intros Hwf Hc Hnz Hx Hver Hrest vpos vlen.
  assert (Hsplit : contents h bytes
                   = (prefix ++ B modkw ++ ident_text x) ++ (spc :: B pre ++ ver) ++ rest).
  { rewrite Hc. app_eq. }
  assert (Hvpos : vpos = length (prefix ++ B modkw ++ ident_text x)).
  { unfold vpos. rewrite B_modkw. len_eq. }
  assert (Hvlen : vlen = length (spc :: B pre ++ ver)).
  { unfold vlen. rewrite B_pre. len_eq. }
  split; [|split].
  - rewrite (parseMod_annotated (view_of h bytes) prefix [] ver rest x spc);
      try assumption; reflexivity.
  - rewrite Hsplit, Hvpos, drop_app_length, Hvlen. apply take_app_length.
  - assert (Hb : vpos + vlen <= slen bytes).
    { rewrite <- (length_contents h bytes Hwf), Hsplit, Hvpos, Hvlen. len_eq. }
    destruct (updateModVersion_spec g h bytes vpos vlen (string_of_list_byte ver) Hwf Hb)
      as (r & h' & E & _ & C & _).
    exists r, h'. split; [exact E|]. rewrite C, Hsplit, Hvpos.
    apply spliced_same.
Qed.

Lemma scan_declaration_line_witness :
  parseMod (view_of [ex_commented] (Slice 0 0 44 44)) 0 = Ok ("my mod", "1.0.0", 9, 27).
Proof.
  apply (scan_declaration_line exact_fit [ex_commented] (Slice 0 0 44 44)
           (B "// a module" ++ [lin]) (B "1.0.0") (lin :: B "go 1.17")
           (Quoted aps (B "my mod"))).
  - unfold wf_slice. simpl. lia.
  - reflexivity.
  - reflexivity.
  - reflexivity.
  - reflexivity.
  - reflexivity.
Defined.

(** C10: the whitespace between the identifier and the annotation may hold
    line feeds.  The scan still reports the version, with the offset right
    behind the identifier and a length that runs over the whitespace to the
    end of the annotation's line; an update with these puts the annotation
    on the line of the identifier. *)
Theorem scan_annotation_on_later_line (g : nat -> nat -> nat) (h : heap) (bytes : slice)
    (prefix ws ver rest : list byte) (x : ident) (w : byte) (newVersion : string) :
  wf_slice h bytes ->
  contents h bytes
  = prefix ++ B modkw ++ ident_text x ++ (w :: ws) ++ B pre ++ ver ++ rest ->
  skipped false prefix = true -> ident_ok x = true ->
  forallb isspace (w :: ws) = true ->
  validVersion ver = true -> line_end rest = true ->
  let vpos := length prefix + 7 + length (ident_text x) in
  let vlen := length (w :: ws) + 3 + length ver in
  parseMod (view_of h bytes) 0
  = Ok (ident_name x, string_of_list_byte ver, vlen, vpos)
  /\ exists r h',
       updateModVersion g bytes vpos vlen newVersion h = Ok (r, h')
       /\ contents h' r
          = prefix ++ B modkw ++ ident_text x ++ annotation newVersion ++ rest.
Proof.
  intros Hwf Hc Hnz Hx Hws Hver Hrest vpos vlen.
  assert (Hsplit : contents h bytes
                   = (prefix ++ B modkw ++ ident_text x)
                     ++ ((w :: ws) ++ B pre ++ ver) ++ rest).
  { rewrite Hc. app_eq. }
  assert (Hvpos : vpos = length (prefix ++ B modkw ++ ident_text x)).
  { unfold vpos. rewrite B_modkw. len_eq. }
  assert (Hvlen : vlen = length ((w :: ws) ++ B pre ++ ver)).
  { unfold vlen. rewrite B_pre. len_eq. }
  split.
  - apply (parseMod_annotated (view_of h bytes) prefix ws ver rest x w); assumption.
  - assert (Hb : vpos + vlen <= slen bytes).
    { rewrite <- (length_contents h bytes Hwf), Hsplit, Hvpos, Hvlen. len_eq. }
    destruct (updateModVersion_spec g h bytes vpos vlen newVersion Hwf Hb)
      as (r & h' & E & _ & C & _).
    exists r, h'. split; [exact E|]. rewrite C, Hsplit.
    rewrite (spliced_middle _ _ _ vpos vlen newVersion Hvpos Hvlen). app_eq.
Qed.

Lemma scan_annotation_on_later_line_witness :
  parseMod (view_of [ex_two_lines] (Slice 0 0 20 20)) 0 = Ok ("foo", "1.2.3", 9, 10)
  /\ exists r h',
       updateModVersion exact_fit (Slice 0 0 20 20) 10 9 "1.2.4" [ex_two_lines]
       = Ok (r, h')
       /\ contents h' r = B "module foo //v1.2.4" ++ [lin].
Proof.
  apply (scan_annotation_on_later_line exact_fit [ex_two_lines] (Slice 0 0 20 20)
           [] [] (B "1.2.3") [lin] (Bare (B "foo")) lin "1.2.4").
  - unfold wf_slice. simpl. lia.
  - reflexivity.
  - reflexivity.
  - reflexivity.
  - reflexivity.
  - reflexivity.
  - reflexivity.
Defined.

(** C1, at failing inputs: the scanner panics on a buffer that ends right
    behind the keyword, inside or right behind the identifier, in the
    whitespace behind it, or with a single slash; this for every capacity
    of the buffer. *)
Theorem scan_panics (sp : list byte) :
  parseMod (View (B "module ") sp) 0 = Panic
  /\ parseMod (View (B "module foo") sp) 0 = Panic
  /\ parseMod (View (B "module foo" ++ [spc; lin]) sp) 0 = Panic
  /\ parseMod (View (B "module foo/") sp) 0 = Panic
  /\ parseMod (View (B "/") sp) 0 = Panic.
Proof.
  repeat split; vm_compute; reflexivity.
Qed.

(** C9, at a failing input: a module line without annotation that ends the
    buffer makes the scan panic; it returns no empty version and no offset.
    Where a significant byte other than a slash follows the identifier, the
    scan returns them ([parseMod_unannotated]). *)
Theorem scan_unannotated_last_line_panics (sp : list byte) :
  parseMod (View (B "module foo" ++ [lin]) sp) 0 = Panic.
Proof.
  vm_compute. reflexivity.
Qed.

(** ** The version rules *)

Lemma fields_chars (l : list byte) :
  forallb (forallb isnum) (fields l) = true ->
  Forall (fun c => isnum c = true \/ c = "."%byte) l.
Proof.
  induction l as [|c l IH]; simpl; [constructor|].
  destruct (Byte.eqb c "."%byte) eqn:E.
  - apply beqb_eq in E. simpl. intros H. constructor; [now right|now apply IH].
  - destruct (fields l) as [|f fs] eqn:Ef; simpl.
    + intros H. rewrite !andb_true_r in H. constructor; [now left|now apply IH].
    + intros H. apply andb_true_iff in H as [H Hfs].
      apply andb_true_iff in H as [Hc Hf]. constructor; [now left|].
      apply IH. simpl. now rewrite Hf, Hfs.
Qed.

Lemma chars_forallb (l : list byte) :
  Forall (fun c => isnum c = true \/ c = "."%byte) l <->
  forallb (fun c => negb (negb (isnum c) && negb (Byte.eqb c "."%byte))) l = true.
Proof.
  rewrite forallb_forall, Forall_forall. split; intros H c Hc.
  - apply list_elem_of_In in Hc. destruct (H c Hc) as [Hn| ->].
    + now rewrite Hn.
    + now rewrite andb_false_r.
  - apply list_elem_of_In in Hc. specialize (H c Hc).
    destruct (isnum c); [now left|right]. simpl in H.
    now apply negb_true_iff, negb_false_iff, beqb_eq in H.
Qed.

(** What [validVersion] tests. *)
Lemma validVersion_iff (l : list byte) :
  validVersion l = true <->
  5 <= length l
  /\ (exists c, head l = Some c /\ isnum c = true)
  /\ (exists c, last l = Some c /\ isnum c = true)
  /\ Forall (fun c => isnum c = true \/ c = "."%byte) l.
Proof.
  unfold validVersion. rewrite head_lookup, last_lookup.
  replace (Init.Nat.pred (length l)) with (length l - 1) by lia.
  destruct (4 <? length l) eqn:E; simpl.
  - apply Nat.ltb_lt in E.
    destruct (lookup_lt_is_Some_2 l 0 ltac:(lia)) as [c0 H0].
    destruct (lookup_lt_is_Some_2 l (length l - 1) ltac:(lia)) as [c1 H1].
    rewrite H0, H1. simpl. rewrite chars_forallb. split.
    + destruct (isnum c0) eqn:E0; simpl; [|discriminate].
      destruct (isnum c1) eqn:E1; simpl; [|discriminate].
      intros H. repeat split; [lia|eauto|eauto|exact H].
    + intros (_ & (c & [= <-] & ->) & (c' & [= <-] & ->) & Hall). exact Hall.
  - apply Nat.ltb_ge in E. split; [discriminate|]. intros (Hlen & _). lia.
Qed.

(** C6, as the code has it: [validVersion] accepts exactly the texts of at
    least five characters that consist of digits and dots and begin and end
    with a digit.  Every text that meets the version rules is accepted (so
    are texts with empty components between dots), and [.1.0], [1.0.], [abc]
    and [1] are rejected. *)
Theorem validVersion_accepts (l : list byte) :
  (validVersion l = true <->
   5 <= length l
   /\ (exists c, head l = Some c /\ isnum c = true)
   /\ (exists c, last l = Some c /\ isnum c = true)
   /\ Forall (fun c => isnum c = true \/ c = "."%byte) l)
  /\ (versionRules l = true -> validVersion l = true)
  /\ validVersion (B ".1.0") = false
  /\ validVersion (B "1.0.") = false
  /\ validVersion (B "abc") = false
  /\ validVersion (B "1") = false.
Proof.
  split; [apply validVersion_iff|]. split; [|repeat split].
  intros H. unfold versionRules in H.
  apply andb_true_iff in H as [H Hlast]. apply andb_true_iff in H as [H Hhead].
  apply andb_true_iff in H as [Hlen Hf]. apply Nat.leb_le in Hlen.
  apply validVersion_iff. split; [exact Hlen|]. split; [|split].
  - destruct (head l) as [c|]; [eauto|discriminate].
  - destruct (last l) as [c|]; [eauto|discriminate].
  - apply fields_chars. rewrite forallb_forall in *. intros f Hin.
    specialize (Hf f Hin). now apply andb_true_iff in Hf as [_ ?].
Qed.

(** C6, as stated, fails: [1...2] has empty components and is accepted. *)
Lemma validVersion_accepts_empty_components :
  validVersion (B "1...2") = true /\ versionRules (B "1...2") = false.
Proof. split; reflexivity. Qed.

(** ** The version decision *)

Lemma firstDifference_iff (cs us : list Z) :
  firstDifference cs us = true <-> greater_at_first_difference cs us.
Proof.
  revert us. induction cs as [|c cs IH]; intros us; simpl.
  - split; [discriminate|]. intros (k & c & u & H & _). now rewrite lookup_nil in H.
  - destruct us as [|u us].
    + split; [discriminate|]. intros (k & c' & u & _ & H & _).
      now rewrite lookup_nil in H.
    + destruct (c <? u)%Z eqn:E1.
      * apply Z.ltb_lt in E1. split; [|reflexivity]. intros _.
        exists 0, c, u. auto.
      * apply Z.ltb_ge in E1. destruct (u <? c)%Z eqn:E2.
        -- apply Z.ltb_lt in E2. split; [discriminate|].
           intros ([|k] & c' & u' & Hc & Hu & Hlt & Ht); simpl in *.
           ++ injection Hc as <-. injection Hu as <-. lia.
           ++ injection Ht as Ht _. lia.
        -- apply Z.ltb_ge in E2. assert (u = c) by lia. subst u.
           rewrite IH. split.
           ++ intros (k & c' & u' & Hc & Hu & Hlt & Ht).
              exists (S k), c', u'. simpl. rewrite Ht. auto.
           ++ intros ([|k] & c' & u' & Hc & Hu & Hlt & Ht); simpl in *.
              ** injection Hc as <-. injection Hu as <-. lia.
              ** injection Ht as Ht. exists k, c', u'. auto.
Qed.

Lemma digits_fold (s : string) (acc : Z) :
  forallb isDigit (list_ascii_of_string s) = true ->
  digits s acc
  = Some (fold_left (fun a c => (10 * a + Z.of_nat (nat_of_ascii c - 48))%Z)
            (list_ascii_of_string s) acc).
Proof.
  revert acc. induction s as [|c s IH]; intros acc; simpl; [reflexivity|].
  intros H. apply andb_true_iff in H as [Hc Hs].
  unfold digit. unfold isDigit in Hc. rewrite Hc. now apply IH.
Qed.

Lemma fold_decimal_nonneg (l : list ascii) (acc : Z) :
  (0 <= acc)%Z ->
  (0 <= fold_left (fun a c => (10 * a + Z.of_nat (nat_of_ascii c - 48))%Z) l acc)%Z.
Proof.
  revert acc. induction l as [|c l IH]; intros acc H; simpl; [exact H|].
  apply IH. lia.
Qed.

Lemma decimal_nonneg (s : string) : (0 <= decimal s)%Z.
Proof. apply fold_decimal_nonneg. lia. Qed.

(** [Atoi] on a run of digits whose value is an [int]. *)
Lemma Atoi_digits (s : string) :
  isDigits s = true -> (decimal s < 2 ^ 63)%Z -> Atoi s = (decimal s, false).
Proof.
  unfold isDigits. intros H Hlt. apply andb_true_iff in H as [Hne Hd].
  destruct s as [|c s]; [discriminate|].
  pose proof Hd as Hd'. simpl in Hd'. apply andb_true_iff in Hd' as [Hc _].
  unfold Atoi.
  destruct (Ascii.eqb c "+") eqn:E1; [apply Ascii.eqb_eq in E1; subst c; discriminate|].
  destruct (Ascii.eqb c "-") eqn:E2; [apply Ascii.eqb_eq in E2; subst c; discriminate|].
  rewrite (digits_fold _ 0 Hd). fold (decimal (String c s)).
  destruct (2 ^ 63 <=? decimal (String c s))%Z eqn:E; [apply Z.leb_le in E; lia|].
  reflexivity.
Qed.

Lemma wrap_small (z : Z) : (minInt <= z <= maxInt)%Z -> wrap z = z.
Proof.
  unfold minInt, maxInt, wrap. intros H. rewrite Z.mod_small; lia.
Qed.

Lemma Split_nonempty (s : string) (c : ascii) : Split s c <> [].
Proof.
  destruct s as [|a s]; simpl; [discriminate|].
  destruct (Ascii.eqb a c); [discriminate|]. destruct (Split s c); discriminate.
Qed.

(** [Join] undoes [Split]. *)
Lemma Join_Split (s : string) : Join (Split s ".") "." = s.
Proof.
  unfold Join. induction s as [|c s IH]; [reflexivity|].
  cbn [Split]. pose proof (Split_nonempty s ".") as Hne.
  destruct (Ascii.eqb c ".") eqn:E.
  - apply Ascii.eqb_eq in E. subst c.
    destruct (Split s ".") as [|w ws]; [congruence|].
    change (String.concat "." ("" :: w :: ws))
      with (String "." (String.concat "." (w :: ws))).
    now rewrite IH.
  - destruct (Split s ".") as [|w ws]; [congruence|].
    destruct ws as [|w' ws].
    + simpl in *. now rewrite IH.
    + change (String.concat "." (String c w :: w' :: ws))
        with (String c (w ++ "." ++ String.concat "." (w' :: ws))%string).
      change (String.concat "." (w :: w' :: ws))
        with (w ++ "." ++ String.concat "." (w' :: ws))%string in IH.
      now rewrite IH.
Qed.

(** With no user version, the decision never fails and is always valid. *)
Lemma assessVersion_next_valid (cv : string) :
  exists nv, assessVersion cv "" = Ok (nv, true).
Proof.
  unfold assessVersion, nextVersion. simpl.
  destruct (String.eqb cv ""); [eexists; reflexivity|].
  pose proof (Split_nonempty cv ".") as Hne.
  destruct (lookup_lt_is_Some_2 (Split cv ".") (length (Split cv ".") - 1)) as [p Hp].
  { destruct (Split cv "."); [congruence|simpl; lia]. }
  rewrite Hp. destruct (Atoi p). eexists. reflexivity.
Qed.

(** C7, as the code has it: with no user version and a current version
    whose last component is a run of digits of value below [2^63 - 1], the
    decision is valid and gives the current version with its last component
    replaced by the next number; the empty current version gives [0.0.0];
    and whatever the current version, the decision is valid. *)
Theorem next_version (cv lastc : string) (parts : list string) :
  cv <> "" -> Split cv "." = parts ++ [lastc] ->
  isDigits lastc = true -> (decimal lastc < 2 ^ 63 - 1)%Z ->
  assessVersion cv "" = Ok (Join (parts ++ [Itoa (decimal lastc + 1)]) ".", true)
  /\ cv = Join (parts ++ [lastc]) "."
  /\ assessVersion "" "" = Ok ("0.0.0", true)
  /\ assessVersion "0.1.0" "" = Ok ("0.1.1", true)
  /\ forall cv', exists nv, assessVersion cv' "" = Ok (nv, true).
Proof.
  intros Hne Hs Hd Hlt. split; [|split; [|split; [|split]]].
  - unfold assessVersion, nextVersion. simpl.
    apply String.eqb_neq in Hne. rewrite Hne, Hs.
    rewrite length_app. simpl. replace (length parts + 1 - 1) with (length parts) by lia.
    rewrite list_lookup_middle by reflexivity.
    rewrite Atoi_digits by (try assumption; lia).
    rewrite wrap_small by (pose proof (decimal_nonneg lastc); unfold minInt, maxInt; lia).
    simpl. rewrite insert_app_r_alt by lia. rewrite Nat.sub_diag. reflexivity.
  - rewrite <- Hs. symmetry. apply Join_Split.
  - reflexivity.
  - reflexivity.
  - apply assessVersion_next_valid.
Qed.

Lemma next_version_witness :
  assessVersion "1.12.199" "" = Ok ("1.12.200", true).
Proof.
  apply (next_version "1.12.199" "199" ["1"; "12"]).
  - discriminate.
  - reflexivity.
  - reflexivity.
  - reflexivity.
Defined.

(** C7, as stated, fails: the last component [9223372036854775807] is the
    greatest [int]; adding one wraps around. *)
Lemma next_version_overflows :
  isDigits "9223372036854775807" = true
  /\ assessVersion "0.0.9223372036854775807" ""
     = Ok ("0.0.-9223372036854775808", true)
  /\ assessVersion "0.0.9223372036854775807" ""
     <> Ok ("0.0.9223372036854775808", true).
Proof.
  split; [reflexivity|]. split; [vm_compute; reflexivity|].
  vm_compute. discriminate.
Qed.

Lemma compareParts_digits (cs us : list string) (i : nat) :
  length cs = length (drop i us) ->
  forallb (fun p => isDigits p && (decimal p <? 2 ^ 63)%Z) cs = true ->
  forallb (fun p => isDigits p && (decimal p <? 2 ^ 63)%Z) (drop i us) = true ->
  compareParts cs us i
  = Ok (firstDifference (map decimal cs) (map decimal (drop i us))).
Proof.
  revert i. induction cs as [|c cs IH]; intros i Hlen Hc Hu; simpl; [reflexivity|].
  simpl in Hc. apply andb_true_iff in Hc as [Hc Hcs].
  apply andb_true_iff in Hc as [Hcd Hcf]. apply Z.ltb_lt in Hcf.
  rewrite (Atoi_digits c Hcd Hcf).
  destruct (drop i us) as [|u us'] eqn:Ed; [discriminate|].
  assert (Hi : us !! i = Some u).
  { rewrite <- (Nat.add_0_r i), <- lookup_drop, Ed. reflexivity. }
  assert (Ed' : drop (i + 1) us = us').
  { rewrite <- drop_drop, Ed. reflexivity. }
  simpl in Hu. apply andb_true_iff in Hu as [Hu Hus].
  apply andb_true_iff in Hu as [Hud Huf]. apply Z.ltb_lt in Huf.
  rewrite Hi, (Atoi_digits u Hud Huf). simpl.
  destruct (decimal c <? decimal u)%Z; [reflexivity|].
  destruct (decimal u <? decimal c)%Z; [reflexivity|].
  rewrite IH, Ed'; [reflexivity| |exact Hcs|].
  - rewrite Ed'. simpl in Hlen. lia.
  - rewrite Ed'. exact Hus.
Qed.

(** C8, as the code has it: for a user version that passes [validVersion]
    and differs from a non-empty current version, both with components that
    are non-empty runs of digits of values below [2^63], the decision rejects
    when the numbers of components differ; otherwise it accepts when, at the
    first index where the components differ as numbers, the user's is the
    greater, and rejects when not (so when all are equal).  A user version
    that fails [validVersion] is rejected whatever the current version. *)
Theorem user_version (cv uv : string) :
  uv <> "" -> cv <> "" -> cv <> uv ->
  validVersion (list_byte_of_string uv) = true ->
  intComponents cv = true -> intComponents uv = true ->
  (length (Split cv ".") <> length (Split uv ".") ->
   assessVersion cv uv = Ok ("", false))
  /\ (length (Split cv ".") = length (Split uv ".") ->
      (greater_at_first_difference (numbers cv) (numbers uv) ->
       assessVersion cv uv = Ok (uv, true))
      /\ (~ greater_at_first_difference (numbers cv) (numbers uv) ->
          assessVersion cv uv = Ok ("", false)))
  /\ (forall cv' uv', uv' <> "" -> validVersion (list_byte_of_string uv') = false ->
      assessVersion cv' uv' = Ok ("", false))
  /\ assessVersion "0.1.0" "0.1.1" = Ok ("0.1.1", true)
  /\ assessVersion "0.1.0" "0.0.9" = Ok ("", false)
  /\ assessVersion "0.1.0" "v.1.1" = Ok ("", false).
Proof.
  intros Hu Hc Hne Hv Hci Hui.
  apply String.eqb_neq in Hu, Hc, Hne.
  assert (Hhead : assessVersion cv uv
                  = if negb (length (Split cv ".") =? length (Split uv "."))
                    then Ok ("", false)
                    else ok <- compareParts (Split cv ".") (Split uv ".") 0 ;;
                         if negb ok then Ok ("", false) else Ok (uv, true)).
  { unfold assessVersion, validUserVersion. rewrite Hu, Hv, Hc, Hne. simpl.
    destruct (length (Split cv ".") =? length (Split uv ".")); reflexivity. }
  split; [|split; [|split; [|repeat split]]].
  - intros Hl. apply Nat.eqb_neq in Hl. rewrite Hhead, Hl. reflexivity.
  - intros Hl. rewrite Hhead. pose proof Hl as Hl'. apply Nat.eqb_eq in Hl'.
    rewrite Hl'. simpl.
    rewrite (compareParts_digits (Split cv ".") (Split uv ".") 0); try assumption.
    change (drop 0 (Split uv ".")) with (Split uv ".").
    change (map decimal (Split cv ".")) with (numbers cv).
    change (map decimal (Split uv ".")) with (numbers uv).
    rewrite <- firstDifference_iff. simpl. split.
    + intros ->. reflexivity.
    + intros Hn. destruct (firstDifference (numbers cv) (numbers uv));
        [congruence|reflexivity].
  - intros cv' uv' Hu' Hv'. apply String.eqb_neq in Hu'.
    unfold assessVersion, validUserVersion. rewrite Hu', Hv'. reflexivity.
Qed.

Lemma user_version_witness :
  assessVersion "1.9.0" "1.10.0" = Ok ("1.10.0", true).
Proof.
  destruct (user_version "1.9.0" "1.10.0") as (_ & H & _).
  - discriminate.
  - discriminate.
  - discriminate.
  - reflexivity.
  - reflexivity.
  - reflexivity.
  - apply H; [reflexivity|]. exists 1, 9%Z, 10%Z. now repeat split.
Defined.

(** C8, as stated, fails: the two versions differ in their last component
    only, where the user's is the greater by one, but beyond the greatest
    [int]; the conversion clamps it, the components compare equal and the
    user version is rejected. *)
Lemma user_version_overflows :
  let cv := "0.0.9223372036854775807" in
  let uv := "0.0.9223372036854775808" in
  validVersion (list_byte_of_string uv) = true
  /\ forallb isDigits (Split cv ".") = true
  /\ forallb isDigits (Split uv ".") = true
  /\ length (Split cv ".") = length (Split uv ".")
  /\ greater_at_first_difference (numbers cv) (numbers uv)
  /\ assessVersion cv uv = Ok ("", false).
Proof.
  repeat split; try (vm_compute; reflexivity).
  exists 2, 9223372036854775807%Z, 9223372036854775808%Z.
  now repeat split.
Qed.

(** ** The scan reads a prefix of the buffer *)

Lemma agree_lookup (n : nat) (b b' : view) (i : nat) :
  agree n b b' -> i < n -> elems b' !! i = elems b !! i.
Proof.
  intros (Ht & _ & _) Hi.
  rewrite <- (lookup_take_lt (elems b') n i), <- (lookup_take_lt (elems b) n i) by lia.
  now rewrite Ht.
Qed.

Lemma agree_idx (n : nat) (b b' : view) (i : nat) :
  agree n b b' -> i < n -> idx b' i = idx b i.
Proof.
  intros Ha Hi. unfold idx. now rewrite (agree_lookup n b b' i Ha Hi).
Qed.

Lemma agree_lt (n : nat) (b b' : view) (i : nat) :
  agree n b b' -> i < n -> (i <? len b) = true /\ (i <? len b') = true.
Proof.
  intros (_ & H1 & H2) Hi. split; apply Nat.ltb_lt; lia.
Qed.

Lemma agree_sub (n : nat) (b b' : view) (lo hi : nat) :
  agree n b b' -> lo <= hi -> hi <= n -> sub b' lo hi = sub b lo hi.
Proof.
  intros (Ht & H1 & H2) Hlo Hhi. rewrite !sub_elems by lia. f_equal.
  rewrite !take_drop_commute. f_equal.
  replace (lo + (hi - lo)) with hi by lia.
  assert (Hpre : forall l : list byte, take hi l = take hi (take n l)).
  { intros l. rewrite take_take. f_equal. lia. }
  now rewrite (Hpre (elems b')), (Hpre (elems b)), Ht.
Qed.

Lemma search_found (c : byte) (b : view) (i : nat) :
  i <= len b -> search c b i < len b -> elems b !! search c b i = Some c.
Proof.
  remember (len b - i) as k eqn:Hk. revert i Hk.
  induction k as [k IH] using lt_wf_ind. intros i Hk Hi.
  rewrite search_unfold. destruct (elems b !! i) as [x|] eqn:E.
  - destruct (Byte.eqb x c) eqn:Ex.
    + apply beqb_eq in Ex. subst x. intros _. exact E.
    + apply lookup_lt_Some in E. unfold len in *.
      apply (IH (length (elems b) - (i + 1))); lia.
  - apply lookup_ge_None in E. unfold len. lia.
Qed.

Lemma search_agree (n : nat) (c : byte) (b b' : view) (i : nat) :
  agree n b b' -> search c b i < n -> search c b' i = search c b i.
Proof.
  intros Ha. remember (n - i) as k eqn:Hk. revert i Hk.
  induction k as [k IH] using lt_wf_ind. intros i Hk Hs.
  pose proof (search_ge c b i) as Hge.
  rewrite (search_unfold c b') , (search_unfold c b) in *.
  rewrite (agree_lookup n b b' i Ha) by lia.
  destruct (elems b !! i) as [x|]; [|reflexivity].
  destruct (Byte.eqb x c); [reflexivity|].
  pose proof (search_ge c b (i + 1)).
  apply (IH (n - (i + 1))); lia.
Qed.

Lemma iscomm_agree (n : nat) (b b' : view) (i : nat) :
  agree n b b' -> i + 1 < n -> iscomm b' i = iscomm b i.
Proof.
  intros Ha Hi. unfold iscomm.
  now rewrite (agree_idx n b b' i Ha), (agree_idx n b b' (i + 1) Ha) by lia.
Qed.

Lemma skipComment_agree (n : nat) (b b' : view) (i j : nat) :
  agree n b b' -> i + 1 < n -> skipComment b i = Ok j -> j < n ->
  skipComment b' i = Ok j.
Proof.
  intros Ha Hi Hs Hj. unfold skipComment in *.
  rewrite (iscomm_agree n b b' i Ha Hi).
  destruct (iscomm b i) as [[|]|]; simpl in *; try congruence.
  injection Hs as Hs. rewrite (search_agree n lin b b' (i + 2) Ha); [congruence|lia].
Qed.

Lemma next_agree (n : nat) (b b' : view) (i p : nat) (sk : bool) :
  agree n b b' -> next b i sk = Ok p -> p < n -> next b' i sk = Ok p.
Proof.
  intros Ha. remember (n - i) as k eqn:Hk. revert i Hk.
  induction k as [k IH] using lt_wf_ind. intros i Hk Hn Hp.
  pose proof (next_ge b i p sk Hn) as Hge.
  rewrite next_unfold in Hn. rewrite next_unfold.
  destruct (agree_lt n b b' i Ha ltac:(lia)) as [L1 L2]. rewrite L1 in Hn. rewrite L2.
  rewrite (agree_idx n b b' i Ha) by lia.
  destruct (idx b i) as [c|]; simpl in *; [|discriminate].
  destruct (sk && Byte.eqb c com).
  - destruct (skipComment b i) as [j|] eqn:Ej; simpl in *; [|discriminate].
    pose proof (skipComment_ge b i j Ej). pose proof (next_ge b (j + 1) p sk Hn).
    rewrite (skipComment_agree n b b' i j Ha) by (assumption || lia). simpl.
    apply (IH (n - (j + 1))); (assumption || lia).
  - destruct (isspace c); [|exact Hn].
    pose proof (next_ge b (i + 1) p sk Hn).
    apply (IH (n - (i + 1))); (assumption || lia).
Qed.

Lemma nameEnd_ge (b : view) (i e : nat) : nameEnd b i = Ok e -> i <= e.
Proof.
  remember (len b - i) as k eqn:Hk. revert i Hk.
  induction k as [k IH] using lt_wf_ind. intros i Hk.
  rewrite nameEnd_unfold. destruct (i <? len b) eqn:E; [|intros [= <-]; lia].
  apply Nat.ltb_lt in E.
  destruct (idx b i) as [c|]; simpl; [|discriminate].
  destruct (isspace c); [intros [= <-]; lia|].
  destruct (iscomm b i) as [[|]|]; simpl; try discriminate; [intros [= <-]; lia|].
  intros H. apply (IH (len b - (i + 1))) in H; lia.
Qed.

(** The unquoted loop stops at the same place when the byte it stopped at
    is replaced by whitespace and the bytes behind it by anything. *)
Lemma nameEnd_agree (b b' : view) (i e : nat) (w : byte) :
  nameEnd b i = Ok e -> e < len b -> agree e b b' ->
  elems b' !! e = Some w -> isspace w = true ->
  nameEnd b' i = Ok e.
Proof.
  intros Hn He Ha Hw Hsp. remember (e - i) as k eqn:Hk. revert i Hk Hn.
  induction k as [k IH] using lt_wf_ind. intros i Hk Hn.
  pose proof (nameEnd_ge b i e Hn) as Hge.
  assert (Hstop : nameEnd b' e = Ok e).
  { rewrite nameEnd_unfold. pose proof (lookup_lt_Some _ _ _ Hw) as Hlt.
    apply Nat.ltb_lt in Hlt. fold (len b') in Hlt. rewrite Hlt.
    apply idx_Ok in Hw. rewrite Hw. simpl. now rewrite Hsp. }
  destruct (decide (i = e)) as [->|Hne]; [exact Hstop|].
  rewrite nameEnd_unfold in Hn. rewrite nameEnd_unfold.
  destruct (agree_lt e b b' i Ha ltac:(lia)) as [L1 L2]. rewrite L1 in Hn. rewrite L2.
  rewrite (agree_idx e b b' i Ha) by lia.
  destruct (idx b i) as [c|] eqn:Ec; simpl in *; [|discriminate].
  destruct (isspace c); [injection Hn as Hn; lia|].
  assert (Hisc : iscomm b i = Ok false /\ iscomm b' i = Ok false).
  { destruct (iscomm b i) as [[|]|] eqn:Ei; simpl in Hn; try discriminate.
    - injection Hn as Hn. lia.
    - split; [reflexivity|].
      destruct (decide (i + 1 < e)) as [Hlt|Hge'].
      + now rewrite (iscomm_agree e b b' i Ha Hlt).
      + assert (i + 1 = e) by lia. subst e.
        unfold iscomm. rewrite (agree_idx (i + 1) b b' i Ha) by lia. rewrite Ec.
        simpl. apply idx_Ok in Hw. rewrite Hw. simpl.
        rewrite (space_not_com _ Hsp). now destruct (Byte.eqb c com). }
  destruct Hisc as [H1 H2]. rewrite H1 in Hn. rewrite H2. simpl in *.
  apply (IH (e - (i + 1))); (assumption || lia).
Qed.

Lemma quote_not_com (c : byte) :
  Byte.eqb c aps || Byte.eqb c qot = true -> Byte.eqb c com = false.
Proof. destruct c; vm_compute; congruence. Qed.

Lemma string_of_list_byte_nonempty (l : list byte) :
  l <> [] -> string_of_list_byte l <> "".
Proof.
  intros Hl E. apply Hl. rewrite <- (list_byte_of_string_of_list_byte l), E.
  reflexivity.
Qed.

Lemma sub_same (b : view) (a : nat) (l : list byte) : sub b a a = Ok l -> l = [].
Proof.
  unfold sub. destruct (_ && _); [|discriminate]. rewrite Nat.sub_diag.
  intros [= <-]. reflexivity.
Qed.

(** The name scan reads the buffer up to the end of the name only; the byte
    there may be replaced by whitespace. *)
Lemma parseModName_agree (b b' : view) (i0 e : nat) (name : string) (w : byte) :
  parseModName b i0 = Ok (name, e) -> name <> "" -> e < len b ->
  agree e b b' -> elems b' !! e = Some w -> isspace w = true ->
  i0 < e /\ parseModName b' i0 = Ok (name, e).
Proof.
  intros Hn Hname He Ha Hw Hsp. unfold parseModName in *.
  destruct (next b i0 false) as [a|] eqn:En; simpl in Hn; [|discriminate].
  pose proof (next_ge b i0 a false En) as Hi0.
  destruct (idx b a) as [c|] eqn:Ec; simpl in Hn; [|discriminate].
  pose proof (idx_lt b a c Ec) as Halt.
  destruct (Byte.eqb c aps || Byte.eqb c qot) eqn:Q.
  - pose proof (search_ge c b (a + 1)) as Hsge.
    destruct (idx b (search c b (a + 1) - 1)) as [x|] eqn:Ex; simpl in Hn; [|discriminate].
    destruct (negb (Byte.eqb x esc)) eqn:Eesc.
    + destruct (sub b (a + 1) (search c b (a + 1))) as [nm|] eqn:Es; simpl in Hn;
        [|discriminate].
      injection Hn as Hnm Hend. subst e. split; [lia|].
      rewrite (next_agree _ b b' i0 a false Ha En) by lia. simpl.
      rewrite (agree_idx _ b b' a Ha), Ec by lia. simpl. rewrite Q.
      rewrite (search_agree _ c b b' (a + 1) Ha) by lia.
      rewrite (agree_idx _ b b' _ Ha), Ex by lia. simpl. rewrite Eesc.
      rewrite (agree_sub _ b b' (a + 1) _ Ha), Es by lia. simpl. now rewrite Hnm.
    + unfold bareName in *.
      destruct (nameEnd b (search c b (a + 1))) as [e'|] eqn:Ee; simpl in Hn;
        [|discriminate].
      destruct (sub b a e') as [nm|] eqn:Es; simpl in Hn; [|discriminate].
      injection Hn as Hnm Hend. subst e'.
      pose proof (nameEnd_ge _ _ _ Ee) as Hge.
      assert (Hlt : search c b (a + 1) < e).
      { destruct (decide (search c b (a + 1) = e)) as [Heq|]; [|lia]. exfalso.
        pose proof (search_found c b (a + 1) ltac:(lia) ltac:(lia)) as Hf.
        rewrite Heq in Hf, Ee. rewrite nameEnd_unfold in Ee.
        apply Nat.ltb_lt in He. rewrite He in Ee. apply idx_Ok in Hf.
        rewrite Hf in Ee. simpl in Ee. rewrite (quote_not_space _ Q) in Ee.
        unfold iscomm in Ee. rewrite Hf in Ee. simpl in Ee.
        rewrite (quote_not_com _ Q) in Ee. simpl in Ee.
        apply nameEnd_ge in Ee. lia. }
      split; [lia|].
      rewrite (next_agree _ b b' i0 a false Ha En) by lia. simpl.
      rewrite (agree_idx _ b b' a Ha), Ec by lia. simpl. rewrite Q.
      rewrite (search_agree _ c b b' (a + 1) Ha) by lia.
      rewrite (agree_idx _ b b' _ Ha), Ex by lia. simpl. rewrite Eesc.
      rewrite (nameEnd_agree b b' _ e w Ee He Ha Hw Hsp). simpl.
      rewrite (agree_sub _ b b' a e Ha), Es by lia. simpl. now rewrite Hnm.
  - unfold bareName in *.
    destruct (nameEnd b a) as [e'|] eqn:Ee; simpl in Hn; [|discriminate].
    destruct (sub b a e') as [nm|] eqn:Es; simpl in Hn; [|discriminate].
    injection Hn as Hnm Hend. subst e'.
    pose proof (nameEnd_ge _ _ _ Ee) as Hge.
    assert (Hlt : a < e).
    { destruct (decide (a = e)) as [Heq|]; [|lia]. exfalso. subst a.
      apply sub_same in Es. subst nm. now apply Hname. }
    split; [lia|].
    rewrite (next_agree _ b b' i0 a false Ha En) by lia. simpl.
    rewrite (agree_idx _ b b' a Ha), Ec by lia. simpl. rewrite Q.
    rewrite (nameEnd_agree b b' _ e w Ee He Ha Hw Hsp). simpl.
    rewrite (agree_sub _ b b' a e Ha), Es by lia. simpl. now rewrite Hnm.
Qed.

(** What [parseModVersion] returns when it returns: the offset it was given,
    and either no version and length 0, or a version whose range ends where
    its line ends. *)
Lemma parseModVersion_inv (b : view) (i j vlen : nat) (ver : string) :
  parseModVersion b i = Ok (ver, vlen, j) ->
  j = i /\ i < len b
  /\ ((ver = "" /\ vlen = 0)
      \/ (ver <> "" /\ i + vlen <= len b
          /\ line_end (drop (i + vlen) (elems b)) = true)).
Proof.
  unfold parseModVersion.
  destruct (next b i false) as [pos|] eqn:En; simpl; [|discriminate].
  pose proof (next_ge b i pos false En) as Hge.
  destruct (idx b pos) as [c|] eqn:Ec; simpl; [|discriminate].
  pose proof (idx_lt b pos c Ec) as Hlt.
  assert (Hnone : Ok ("", 0, i) = Ok (ver, vlen, j) ->
            j = i /\ i < len b
            /\ ((ver = "" /\ vlen = 0)
                \/ (ver <> "" /\ i + vlen <= len b
                    /\ line_end (drop (i + vlen) (elems b)) = true))).
  { intros [= <- <- <-]. split; [reflexivity|]. split; [lia|]. now left. }
  destruct (Byte.eqb c com); [|exact Hnone].
  change (String.length pre) with 3.
  destruct (sub b pos (pos + 3)) as [p|]; simpl; [|discriminate].
  destruct (String.eqb (string_of_list_byte p) pre); [|exact Hnone].
  set (pos' := pos + 3).
  destruct (sub b pos' (search lin b pos')) as [v|] eqn:Es; simpl; [|discriminate].
  destruct (validVersion v) eqn:Ev; [|exact Hnone].
  intros [= <- <- <-]. split; [reflexivity|]. split; [lia|]. right.
  pose proof (validVersion_length v Ev) as Hvl.
  pose proof (search_ge lin b pos') as Hsge.
  assert (Hpos' : pos' < len b).
  { destruct (decide (pos' < len b)) as [|Hnl]; [assumption|]. exfalso.
    rewrite search_unfold in Es.
    rewrite (lookup_ge_None_2 (elems b) pos') in Es by (unfold len in Hnl; lia).
    apply sub_same in Es. subst v. simpl in Hvl. lia. }
  pose proof (search_le lin b pos' ltac:(lia)) as Hsle.
  split; [|split].
  - apply string_of_list_byte_nonempty. intros ->. simpl in Hvl. lia.
  - lia.
  - replace (i + (search lin b pos' - i)) with (search lin b pos') by lia.
    destruct (decide (search lin b pos' < len b)) as [Hin|Hout].
    + pose proof (search_found lin b pos' ltac:(lia) Hin) as Hf.
      rewrite (drop_S _ _ _ Hf). simpl. apply beqb_refl.
    + rewrite drop_ge by (unfold len in *; lia). reflexivity.
Qed.

Lemma parseMod_inv (b : view) (i vlen voff : nat) (name ver : string) :
  parseMod b i = Ok (name, ver, vlen, voff) -> name <> "" ->
  exists m, i <= m /\ parseModName b (m + 7) = Ok (name, voff)
            /\ parseModVersion b voff = Ok (ver, vlen, voff).
Proof.
  intros Hp Hname. remember (len b - i) as k eqn:Hk. revert i Hk Hp.
  induction k as [k IH] using lt_wf_ind. intros i Hk Hp.
  rewrite parseMod_unfold in Hp.
  destruct (i <? len b) eqn:E; [|injection Hp as <- _ _ _; congruence].
  apply Nat.ltb_lt in E.
  destruct (next b i true) as [i1|] eqn:En; simpl in Hp; [|discriminate].
  pose proof (next_ge b i i1 true En) as Hge.
  destruct (len b <? i1 + 7); [injection Hp as <- _ _ _; congruence|].
  destruct (sub b i1 (i1 + 7)) as [kw|]; simpl in Hp; [|discriminate].
  destruct (String.eqb (string_of_list_byte kw) modkw).
  - destruct (parseModName b (i1 + 7)) as [[name' i2]|] eqn:Em; simpl in Hp;
      [|discriminate].
    destruct (parseModVersion b i2) as [[[ver' vlen'] i3]|] eqn:Ev; simpl in Hp;
      [|discriminate].
    injection Hp as -> -> -> ->.
    pose proof (parseModVersion_inv _ _ _ _ _ Ev) as (-> & _).
    exists i1. split; [lia|]. split; assumption.
  - destruct (IH (len b - (i1 + 1)) ltac:(lia) (i1 + 1) eq_refl Hp)
      as (m & Hm & H1 & H2).
    exists m. split; [lia|]. split; assumption.
Qed.

(** The keyword search and the name scan go the same way on a buffer that
    agrees up to the end of the name and has whitespace there. *)
Lemma parseMod_agree (b b' : view) (i vlen voff : nat) (name ver : string) (w : byte) :
  parseMod b i = Ok (name, ver, vlen, voff) -> name <> "" ->
  agree voff b b' -> elems b' !! voff = Some w -> isspace w = true ->
  parseMod b' i
  = (r <- parseModVersion b' voff ;;
     let '(version, vl, i3) := r in Ok (name, version, vl, i3)).
Proof.
  intros Hp Hname Ha Hw Hsp. remember (len b - i) as k eqn:Hk. revert i Hk Hp.
  induction k as [k IH] using lt_wf_ind. intros i Hk Hp.
  destruct (parseMod_inv b i vlen voff name ver Hp Hname) as (m & Hm & Hmn & Hmv).
  pose proof (parseModVersion_inv _ _ _ _ _ Hmv) as (_ & Hoff & _).
  destruct (parseModName_agree b b' (m + 7) voff name w Hmn Hname Hoff Ha Hw Hsp)
    as (Hm7 & _).
  rewrite parseMod_unfold in Hp. rewrite parseMod_unfold.
  destruct (i <? len b) eqn:E; [|injection Hp as <- _ _ _; congruence].
  apply Nat.ltb_lt in E.
  destruct (agree_lt voff b b' i Ha ltac:(lia)) as [_ L2]. rewrite L2.
  destruct (next b i true) as [i1|] eqn:En; simpl in Hp; [|discriminate].
  pose proof (next_ge b i i1 true En) as Hge.
  destruct (len b <? i1 + 7) eqn:E7; [injection Hp as <- _ _ _; congruence|].
  destruct (sub b i1 (i1 + 7)) as [kw|] eqn:Es; simpl in Hp; [|discriminate].
  assert (Hi1 : i1 + 7 < voff).
  { destruct (String.eqb (string_of_list_byte kw) modkw).
    - destruct (parseModName b (i1 + 7)) as [[name' i2]|] eqn:Em; simpl in Hp;
        [|discriminate].
      destruct (parseModVersion b i2) as [[[ver' vlen'] i3]|] eqn:Ev; simpl in Hp;
        [|discriminate].
      injection Hp as E1 E2 E3 E4. subst name' ver' vlen' i3.
      pose proof (parseModVersion_inv _ _ _ _ _ Ev) as (Ei2 & _). subst i2.
      now destruct (parseModName_agree b b' (i1 + 7) voff name w Em Hname Hoff Ha Hw Hsp).
    - destruct (parseMod_inv b (i1 + 1) vlen voff name ver Hp Hname)
        as (m' & Hm' & Hmn' & _).
      destruct (parseModName_agree b b' (m' + 7) voff name w Hmn' Hname Hoff Ha Hw Hsp).
      lia. }
  rewrite (next_agree voff b b' i i1 true Ha En) by lia. simpl.
  destruct Ha as (Ht & Hl1 & Hl2).
  destruct (len b' <? i1 + 7) eqn:E7'; [apply Nat.ltb_lt in E7'; lia|].
  rewrite (agree_sub voff b b' i1 (i1 + 7)), Es by (repeat split; assumption || lia).
  simpl.
  destruct (String.eqb (string_of_list_byte kw) modkw).
  - destruct (parseModName b (i1 + 7)) as [[name' i2]|] eqn:Em; simpl in Hp;
      [|discriminate].
    destruct (parseModVersion b i2) as [[[ver' vlen'] i3]|] eqn:Ev; simpl in Hp;
      [|discriminate].
    injection Hp as E1 E2 E3 E4. subst name' ver' vlen' i3.
    pose proof (parseModVersion_inv _ _ _ _ _ Ev) as (Ei2 & _). subst i2.
    destruct (parseModName_agree b b' (i1 + 7) voff name w Em Hname Hoff
                ltac:(repeat split; assumption) Hw Hsp) as (_ & ->).
    reflexivity.
  - apply (IH (len b - (i1 + 1))); (assumption || lia).
Qed.

(** ** Update, then scan again *)

(** C4, as the code has it: when the scan returns a non-empty name, and
    either it found an annotation or the byte at the offset it returns is a
    line feed, then for every valid version [v] the update succeeds, the
    scan of its result returns the same name, the version [v] and the range
    of the annotation just written, and a second update with that range and
    [v] leaves the bytes as they are. *)
Theorem update_then_scan (g : nat -> nat -> nat) (h : heap) (bytes : slice)
    (name ver v : string) (vlen voff : nat) :
  wf_slice h bytes ->
  parseMod (view_of h bytes) 0 = Ok (name, ver, vlen, voff) ->
  name <> "" ->
  ver <> "" \/ contents h bytes !! voff = Some lin ->
  validVersion (list_byte_of_string v) = true ->
  exists r h',
    updateModVersion g bytes voff vlen v h = Ok (r, h')
    /\ parseMod (view_of h' r) 0 = Ok (name, v, 4 + String.length v, voff)
    /\ take (4 + String.length v) (drop voff (contents h' r)) = annotation v
    /\ exists r2 h2,
         updateModVersion g r voff (4 + String.length v) v h' = Ok (r2, h2)
         /\ contents h2 r2 = contents h' r.
Proof.
  intros Hwf Hp Hname Hcase Hv.
  set (b := view_of h bytes) in *. set (l := contents h bytes) in *.
  destruct (parseMod_inv b 0 vlen voff name ver Hp Hname) as (m & _ & Hmn & Hmv).
  destruct (parseModVersion_inv _ _ _ _ _ Hmv) as (_ & Hoff & Hver).
  change (len b) with (length l) in Hoff.
  assert (Hrange : voff + vlen <= length l /\ line_end (drop (voff + vlen) l) = true).
  { destruct Hver as [(-> & ->)|(_ & H1 & H2)]; [|split; assumption].
    destruct Hcase as [Hc|Hc]; [congruence|]. split; [lia|].
    rewrite Nat.add_0_r, (drop_S _ _ _ Hc). apply beqb_refl. }
  destruct Hrange as (Hle & Hrest).
  assert (Hlen : length l = slen bytes) by now apply length_contents.
  destruct (updateModVersion_spec g h bytes voff vlen v Hwf ltac:(lia))
    as (r & h' & E & Hwf' & C & _).
  set (l1 := take voff l) in *. set (rest := drop (voff + vlen) l) in *.
  assert (Hl1 : length l1 = voff) by (unfold l1; rewrite length_take; lia).
  assert (C' : contents h' r = l1 ++ annotation v ++ rest) by exact C.
  assert (Hann : annotation v = spc :: B pre ++ list_byte_of_string v).
  { unfold annotation, B. now rewrite list_byte_of_string_app. }
  assert (Hla : length (annotation v) = 4 + String.length v)
    by apply length_annotation.
  exists r, h'. split; [exact E|]. split; [|split].
  - set (b' := view_of h' r).
    assert (Ha : agree voff b b').
    { repeat split.
      - change (take voff l = take voff (contents h' r)).
        rewrite C'. now rewrite take_app_length'.
      - exact (Nat.lt_le_incl _ _ Hoff).
      - change (voff <= length (contents h' r)). rewrite C', length_app. lia. }
    assert (Hw : elems b' !! voff = Some spc).
    { change (contents h' r !! voff = Some spc). rewrite C', Hann.
      now apply list_lookup_middle. }
    rewrite (parseMod_agree b b' 0 vlen voff name ver spc Hp Hname Ha Hw eq_refl).
    rewrite (parseModVersion_annotated b' l1 [spc] (list_byte_of_string v) rest voff).
    + simpl. rewrite string_of_list_byte_of_string, length_list_byte_of_string.
      reflexivity.
    + change (contents h' r = l1 ++ [spc] ++ B pre ++ list_byte_of_string v ++ rest).
      rewrite C', Hann. app_eq.
    + now rewrite Hl1.
    + reflexivity.
    + exact Hv.
    + exact Hrest.
  - rewrite C', <- Hl1, drop_app_length, <- Hla. apply take_app_length.
  - assert (Hb2 : voff + (4 + String.length v) <= slen r).
    { rewrite <- (length_contents h' r Hwf'), C', !length_app, Hl1, Hla. lia. }
    destruct (updateModVersion_spec g h' r voff (4 + String.length v) v Hwf' Hb2)
      as (r2 & h2 & E2 & _ & C2 & _).
    exists r2, h2. split; [exact E2|]. rewrite C2, C'.
    apply spliced_middle; [now rewrite Hl1|now rewrite Hla].
Qed.

Lemma update_then_scan_witness :
  exists r h',
    updateModVersion exact_fit ex_slice 10 9 "2.0.10" ex_heap = Ok (r, h')
    /\ parseMod (view_of h' r) 0 = Ok ("foo", "2.0.10", 10, 10).
Proof.
  destruct (update_then_scan exact_fit ex_heap ex_slice "foo" "1.0.0" "2.0.10" 9 10)
    as (r & h' & E & Hp & _).
  - unfold wf_slice. simpl. lia.
  - reflexivity.
  - discriminate.
  - left. discriminate.
  - reflexivity.
  - exists r, h'. split; [exact E|exact Hp].
Defined.

(** C4, as stated, fails: the scan of [module foo ] (with a space behind the
    identifier) succeeds without a version; after the update the new
    annotation is followed by that space, the scan of the result finds no
    valid version, and a second update with the offsets it returns inserts
    a second annotation. *)
Lemma update_then_scan_loses_version :
  parseMod (view_of [ex_trailing] (Slice 0 0 19 19)) 0 = Ok ("foo", "", 0, 10)
  /\ validVersion (list_byte_of_string "1.0.0") = true
  /\ exists r h',
       updateModVersion exact_fit (Slice 0 0 19 19) 10 0 "1.0.0" [ex_trailing]
       = Ok (r, h')
       /\ parseMod (view_of h' r) 0 = Ok ("foo", "", 0, 10)
       /\ exists r2 h2,
            updateModVersion exact_fit r 10 0 "1.0.0" h' = Ok (r2, h2)
            /\ contents h2 r2 <> contents h' r.
Proof.
  split; [reflexivity|]. split; [reflexivity|].
  eexists _, _. split; [vm_compute; reflexivity|]. split; [vm_compute; reflexivity|].
  eexists _, _. split; [vm_compute; reflexivity|].
  vm_compute. discriminate.
Qed.

(** ** Declaration lines without annotation *)

(** When the first significant byte behind the identifier is not a slash,
    there is no version, the length is 0 and the offset is the one right
    behind the identifier, in front of the whitespace. *)
Lemma parseMod_unannotated (b : view) (prefix ws tl : list byte) (x : ident) (w c : byte) :
  elems b = prefix ++ B modkw ++ ident_text x ++ (w :: ws) ++ c :: tl ->
  skipped false prefix = true -> ident_ok x = true ->
  forallb isspace (w :: ws) = true ->
  isspace c = false -> Byte.eqb c com = false ->
  parseMod b 0
  = Ok (ident_name x, "", 0, length prefix + 7 + length (ident_text x)).
Proof.
  intros Hb Hnz Hx Hws Hc Hcom.
  rewrite (parseMod_keyword b prefix _ Hb Hnz). rewrite B_modkw in Hb.
  pose proof Hws as Hws'. cbn [forallb] in Hws'. apply andb_true_iff in Hws' as [Hw _].
  rewrite (parseModName_ident b (prefix ++ ["m"; "o"; "d"; "u"; "l"; "e"; " "]%byte)
             (ws ++ c :: tl) x w);
    [|rewrite Hb; app_eq|len_eq|exact Hx|exact Hw].
  simpl bind. cbv iota beta. unfold parseModVersion.
  rewrite (next_spaces b
             (prefix ++ ["m"; "o"; "d"; "u"; "l"; "e"; " "]%byte ++ ident_text x)
             (w :: ws) tl c _ false);
    [|rewrite Hb; app_eq|len_eq|exact Hws|exact Hc|reflexivity].
  simpl bind.
  rewrite (idx_middle b
             (prefix ++ ["m"; "o"; "d"; "u"; "l"; "e"; " "]%byte ++ ident_text x ++ w :: ws)
             tl c); [|rewrite Hb; app_eq|len_eq].
  simpl bind. rewrite Hcom. reflexivity.
Qed.

(** * Further properties of the code *)

(** ** search and next *)

Lemma search_none_before (c : byte) (b : view) (i j : nat) :
  i <= j -> j < search c b i -> elems b !! j <> Some c.
Proof.
  remember (j - i) as k eqn:Hk. revert i Hk.
  induction k as [k IH] using lt_wf_ind. intros i Hk Hij Hj.
  rewrite search_unfold in Hj. destruct (elems b !! i) as [x|] eqn:E; [|lia].
  destruct (Byte.eqb x c) eqn:Ex; [lia|]. apply beqb_neq in Ex.
  destruct (decide (j = i)) as [->|Hne]; [congruence|].
  apply (IH (j - (i + 1))) with (i := i + 1); lia.
Qed.

(** X1: [search] returns the first offset from [i] on that holds the byte,
    or the length of the buffer when there is none; from an offset beyond
    the buffer it returns that offset. *)
Theorem search_first (c : byte) (b : view) (i : nat) :
  i <= search c b i
  /\ search c b i <= Nat.max i (len b)
  /\ (forall j, i <= j -> j < search c b i -> elems b !! j <> Some c)
  /\ (search c b i < len b -> elems b !! search c b i = Some c).
Proof.
  split; [apply search_ge|]. split; [|split].
  - destruct (decide (i <= len b)) as [Hi|Hi].
    + pose proof (search_le c b i Hi). lia.
    + rewrite search_unfold, lookup_ge_None_2 by (unfold len in Hi; lia). lia.
  - intros j. apply search_none_before.
  - intros Hlt. apply search_found; [|exact Hlt].
    pose proof (search_ge c b i). lia.
Qed.

(** Without comment skipping [next] does not fail. *)
Lemma next_false_spec (b : view) (i : nat) :
  exists p,
    next b i false = Ok p
    /\ i <= p /\ p <= Nat.max i (len b)
    /\ (forall j, i <= j -> j < p ->
        exists c, elems b !! j = Some c /\ isspace c = true)
    /\ (forall c, elems b !! p = Some c -> isspace c = false).
Proof.
  remember (len b - i) as k eqn:Hk. revert i Hk.
  induction k as [k IH] using lt_wf_ind. intros i Hk.
  rewrite next_unfold. destruct (i <? len b) eqn:E.
  - apply Nat.ltb_lt in E.
    destruct (lookup_lt_is_Some_2 (elems b) i E) as [c Hc].
    rewrite (proj2 (idx_Ok b i c) Hc). simpl.
    destruct (isspace c) eqn:Hs.
    + destruct (IH (len b - (i + 1)) ltac:(lia) (i + 1) eq_refl)
        as (p & Hn & H1 & H2 & H3 & H4).
      exists p. split; [exact Hn|]. split; [lia|]. split; [lia|]. split; [|exact H4].
      intros j Hij Hjp. destruct (decide (j = i)) as [->|Hne]; [eauto|].
      apply H3; lia.
    + exists i. split; [reflexivity|]. split; [lia|]. split; [lia|]. split.
      * intros j Hij Hjp. lia.
      * intros c' Hc'. congruence.
  - apply Nat.ltb_ge in E. exists i. split; [reflexivity|]. split; [lia|].
    split; [lia|]. split.
    + intros j Hij Hjp. lia.
    + intros c Hc. apply lookup_lt_Some in Hc. unfold len in E. lia.
Qed.

(** X2: without comment skipping, [next] never panics, whatever the buffer
    and the offset: it returns the first offset from [i] on that holds no
    whitespace, or the length of the buffer (the offset itself when that is
    beyond the buffer). *)
Theorem next_skips_whitespace (b : view) (i : nat) :
  exists p,
    next b i false = Ok p
    /\ i <= p /\ p <= Nat.max i (len b)
    /\ (forall j, i <= j -> j < p ->
        exists c, elems b !! j = Some c /\ isspace c = true)
    /\ (forall c, elems b !! p = Some c -> isspace c = false).
Proof. apply next_false_spec. Qed.

Lemma next_beyond (b : view) (i : nat) (sk : bool) :
  len b <= i -> next b i sk = Ok i.
Proof.
  intros H. rewrite next_unfold.
  destruct (i <? len b) eqn:E; [apply Nat.ltb_lt in E; lia|reflexivity].
Qed.

Lemma iscomm_true_lt (b : view) (i : nat) : iscomm b i = Ok true -> i + 1 < len b.
Proof.
  unfold iscomm. destruct (idx b i) as [c0|]; simpl; [|discriminate].
  destruct (Byte.eqb c0 com); [|discriminate].
  destruct (idx b (i + 1)) as [c1|] eqn:E; simpl; [|discriminate].
  intros _. eapply idx_lt; eassumption.
Qed.

Lemma next_bound (b : view) (i p : nat) (sk : bool) :
  next b i sk = Ok p -> i <= len b -> p <= len b + 1.
Proof.
  remember (len b - i) as k eqn:Hk. revert i Hk.
  induction k as [k IH] using lt_wf_ind. intros i Hk Hn Hi.
  rewrite next_unfold in Hn. destruct (i <? len b) eqn:E; [|injection Hn as <-; lia].
  apply Nat.ltb_lt in E.
  destruct (idx b i) as [c|]; simpl in Hn; [|discriminate].
  destruct (sk && Byte.eqb c com).
  - destruct (skipComment b i) as [j|] eqn:Ej; simpl in Hn; [|discriminate].
    pose proof (skipComment_ge b i j Ej) as Hge.
    assert (Hj : j <= len b).
    { unfold skipComment in Ej. destruct (iscomm b i) as [[|]|] eqn:Ei;
        simpl in Ej; try discriminate; injection Ej as <-; [|lia].
      apply search_le. apply iscomm_true_lt in Ei. lia. }
    destruct (decide (j + 1 <= len b)) as [Hle|Hgt].
    + apply (IH (len b - (j + 1))) with (i := j + 1); (assumption || lia).
    + rewrite next_beyond in Hn by lia. injection Hn as <-. lia.
  - destruct (isspace c); [|injection Hn as <-; lia].
    apply (IH (len b - (i + 1))) with (i := i + 1); (assumption || lia).
Qed.

(** X3: with comment skipping, [next] goes one byte beyond a comment, so a
    comment that runs to the end of the buffer without a line feed gives
    the offset [len(b) + 1], outside the buffer; no offset it returns from
    inside the buffer is greater. *)
Theorem next_unterminated_comment (b : view) (l1 body : list byte) :
  elems b = l1 ++ com :: com :: body ->
  Forall (fun x => x <> lin) body ->
  next b (length l1) true = Ok (len b + 1)
  /\ forall i p sk, i <= len b -> next b i sk = Ok p -> p <= len b + 1.
Proof.
  intros Hb Hbody. split; [|intros i p sk Hi Hn; eapply next_bound; eassumption].
  assert (Hlen : len b = length l1 + 2 + length body).
  { unfold len. rewrite Hb. len_eq. }
  assert (Hc0 : idx b (length l1) = Ok com)
    by (eapply idx_middle; [exact Hb|reflexivity]).
  assert (Hc1 : idx b (length l1 + 1) = Ok com).
  { eapply (idx_middle b (l1 ++ [com])); [rewrite Hb; app_eq|len_eq]. }
  rewrite (next_comment_step b _ Hc0 Hc1).
  replace (length l1 + 2) with (length (l1 ++ [com; com])) by len_eq.
  rewrite (search_app lin b (l1 ++ [com; com]) body []);
    [|rewrite Hb, app_nil_r; app_eq|exact Hbody|now left].
  rewrite next_beyond; [f_equal|]; rewrite Hlen; len_eq.
Qed.

Lemma next_unterminated_comment_witness :
  next (View (B "go 1.17 // end") []) 8 true = Ok 15.
Proof.
  apply (next_unterminated_comment (View (B "go 1.17 // end") []) (B "go 1.17 ")
           (B " end")).
  - reflexivity.
  - repeat constructor; discriminate.
Defined.

(** ** What a scan returns *)

(** A scan that returns has found the keyword, or returns empty fields and
    the end of the buffer. *)
Lemma parseMod_cases (b : view) (i vlen voff : nat) (name ver : string) :
  parseMod b i = Ok (name, ver, vlen, voff) ->
  (exists m, i <= m /\ parseModName b (m + 7) = Ok (name, voff)
             /\ parseModVersion b voff = Ok (ver, vlen, voff))
  \/ (name = "" /\ ver = "" /\ vlen = 0 /\ voff = Nat.max i (len b)).
Proof.
  remember (len b - i) as k eqn:Hk. revert i Hk.
  induction k as [k IH] using lt_wf_ind. intros i Hk Hp.
  rewrite parseMod_unfold in Hp.
  destruct (i <? len b) eqn:E.
  2:{ apply Nat.ltb_ge in E. injection Hp as <- <- <- <-. right.
      repeat split. lia. }
  apply Nat.ltb_lt in E.
  destruct (next b i true) as [i1|] eqn:En; simpl in Hp; [|discriminate].
  pose proof (next_ge b i i1 true En) as Hge.
  destruct (len b <? i1 + 7) eqn:E7.
  { injection Hp as <- <- <- <-. right. repeat split. lia. }
  apply Nat.ltb_ge in E7.
  destruct (sub b i1 (i1 + 7)) as [kw|]; simpl in Hp; [|discriminate].
  destruct (String.eqb (string_of_list_byte kw) modkw).
  - destruct (parseModName b (i1 + 7)) as [[name' i2]|] eqn:Em; simpl in Hp;
      [|discriminate].
    destruct (parseModVersion b i2) as [[[ver' vlen'] i3]|] eqn:Ev; simpl in Hp;
      [|discriminate].
    injection Hp as E1 E2 E3 E4. subst name' ver' vlen' i3.
    pose proof (parseModVersion_inv _ _ _ _ _ Ev) as (Ei2 & _). subst i2.
    left. exists i1. split; [lia|]. split; assumption.
  - destruct (IH (len b - (i1 + 1)) ltac:(lia) (i1 + 1) eq_refl Hp)
      as [(m & Hm & H1 & H2)|(H1 & H2 & H3 & H4)].
    + left. exists m. split; [lia|]. split; assumption.
    + right. repeat split; try assumption. lia.
Qed.

Lemma parseMod_range (b : view) (i vlen voff : nat) (name ver : string) :
  parseMod b i = Ok (name, ver, vlen, voff) -> i <= len b ->
  voff + vlen <= len b.
Proof.
  intros Hp Hi.
  destruct (parseMod_cases b i vlen voff name ver Hp)
    as [(m & _ & _ & Hv)|(_ & _ & -> & ->)]; [|lia].
  destruct (parseModVersion_inv _ _ _ _ _ Hv) as (_ & Hoff & [(_ & ->)|(_ & H & _)]); lia.
Qed.

(** X4: the range a scan returns lies inside the buffer, whether or not it
    found the keyword or a version; so the splicer, given that range and
    any version, does not panic and builds the spliced text. *)
Theorem scan_range_in_buffer (g : nat -> nat -> nat) (h : heap) (bytes : slice)
    (name ver v : string) (vlen voff : nat) :
  wf_slice h bytes ->
  parseMod (view_of h bytes) 0 = Ok (name, ver, vlen, voff) ->
  voff + vlen <= slen bytes
  /\ exists r h',
       updateModVersion g bytes voff vlen v h = Ok (r, h')
       /\ contents h' r
          = take voff (contents h bytes) ++ annotation v
            ++ drop (voff + vlen) (contents h bytes).
Proof.
  intros Hwf Hp.
  assert (Hr : voff + vlen <= slen bytes).
  { rewrite <- (length_contents h bytes Hwf).
    apply (parseMod_range (view_of h bytes) 0 vlen voff name ver Hp). lia. }
  split; [exact Hr|].
  destruct (updateModVersion_spec g h bytes voff vlen v Hwf Hr)
    as (r & h' & E & _ & C & _).
  exists r, h'. split; [exact E|exact C].
Qed.

Lemma scan_range_in_buffer_witness :
  exists r h',
    updateModVersion exact_fit (Slice 0 0 19 19) 10 0 "1.0.0" [ex_trailing]
    = Ok (r, h')
    /\ contents h' r = B "module foo //v1.0.0 " ++ [lin] ++ B "go 1.17".
Proof.
  destruct (scan_range_in_buffer exact_fit [ex_trailing] (Slice 0 0 19 19)
              "foo" "" "1.0.0" 0 10) as (_ & r & h' & E & C).
  - unfold wf_slice. simpl. lia.
  - reflexivity.
  - exists r, h'. split; [exact E|exact C].
Defined.

Lemma string_of_list_byte_inj (l l' : list byte) :
  string_of_list_byte l = string_of_list_byte l' -> l = l'.
Proof.
  intros H. rewrite <- (list_byte_of_string_of_list_byte l),
    <- (list_byte_of_string_of_list_byte l'). now rewrite H.
Qed.

Lemma forallb_take_drop (P : byte -> bool) (l : list byte) (i n : nat) :
  (forall j, i <= j -> j < i + n -> exists c, l !! j = Some c /\ P c = true) ->
  forallb P (take n (drop i l)) = true.
Proof.
  intros H. apply forallb_forall. intros c Hc. apply list_elem_of_In in Hc.
  apply list_elem_of_lookup in Hc as [j Hj].
  pose proof (lookup_lt_Some _ _ _ Hj) as Hlt. rewrite length_take in Hlt.
  rewrite lookup_take_lt, lookup_drop in Hj by lia.
  destruct (H (i + j) ltac:(lia) ltac:(lia)) as (c' & Hc' & HP). congruence.
Qed.

(** A version, when [parseModVersion] returns one, is valid, and the range
    holds whitespace, the prefix and the version, up to the end of the
    line. *)
Lemma parseModVersion_found (b : view) (i j vlen : nat) (ver : string) :
  parseModVersion b i = Ok (ver, vlen, j) -> ver <> "" ->
  validVersion (list_byte_of_string ver) = true
  /\ exists ws,
       forallb isspace ws = true
       /\ take vlen (drop i (elems b)) = ws ++ B pre ++ list_byte_of_string ver.
Proof.
  unfold parseModVersion.
  destruct (next_false_spec b i) as (pos & En & Hge & _ & Hsp & _). rewrite En.
  simpl.
  destruct (idx b pos) as [c|] eqn:Ec; simpl; [|discriminate].
  pose proof (idx_lt b pos c Ec) as Hlt.
  destruct (Byte.eqb c com); [|intros [= <- _ _]; congruence].
  change (String.length pre) with 3.
  destruct (sub b pos (pos + 3)) as [p|] eqn:Ep; simpl; [|discriminate].
  destruct (String.eqb (string_of_list_byte p) pre) eqn:Epre;
    [|intros [= <- _ _]; congruence].
  set (pos' := pos + 3).
  destruct (sub b pos' (search lin b pos')) as [v|] eqn:Es; simpl; [|discriminate].
  destruct (validVersion v) eqn:Ev; [|intros [= <- _ _]; congruence].
  intros [= <- <- <-] _. rewrite list_byte_of_string_of_list_byte.
  split; [exact Ev|].
  pose proof (validVersion_length v Ev) as Hvl.
  pose proof (search_ge lin b pos') as Hsge.
  assert (Hpos' : pos' < len b).
  { destruct (decide (pos' < len b)) as [|Hnl]; [assumption|]. exfalso.
    rewrite search_unfold in Es.
    rewrite (lookup_ge_None_2 (elems b) pos') in Es by (unfold len in Hnl; lia).
    apply sub_same in Es. subst v. simpl in Hvl. lia. }
  pose proof (search_le lin b pos' ltac:(lia)) as Hsle.
  rewrite sub_elems in Ep, Es by (unfold pos' in *; lia).
  injection Ep as Ep. injection Es as Es.
  apply String.eqb_eq in Epre.
  assert (Hp : p = B pre).
  { apply string_of_list_byte_inj. rewrite Epre. unfold B.
    now rewrite string_of_list_byte_of_string. }
  exists (take (pos - i) (drop i (elems b))). split.
  - apply forallb_take_drop. intros k Hk1 Hk2. apply Hsp; lia.
  - change ("/"%byte :: "/"%byte :: "v"%byte :: v) with (B pre ++ v).
    rewrite <- Es, <- Hp, <- Ep. subst pos'.
    replace (search lin b (pos + 3) - i)
      with ((pos - i) + ((pos + 3 - pos) + (search lin b (pos + 3) - (pos + 3))))
      by lia.
    rewrite <- take_take_drop. f_equal.
    rewrite drop_drop. replace (i + (pos - i)) with pos by lia.
    rewrite <- take_take_drop. f_equal.
    rewrite drop_drop. f_equal. f_equal. lia.
Qed.

(** X5: a version that a scan returns is never malformed: it is empty, with
    length 0, or it passes [validVersion]; in that case the range returned
    holds whitespace, then [//v], then the version, and ends where the line
    ends. *)
Theorem scan_version_valid (b : view) (i vlen voff : nat) (name ver : string) :
  parseMod b i = Ok (name, ver, vlen, voff) ->
  (ver = "" /\ vlen = 0)
  \/ (validVersion (list_byte_of_string ver) = true
      /\ line_end (drop (voff + vlen) (elems b)) = true
      /\ exists ws,
           forallb isspace ws = true
           /\ take vlen (drop voff (elems b))
              = ws ++ B pre ++ list_byte_of_string ver).
Proof.
  intros Hp.
  destruct (parseMod_cases b i vlen voff name ver Hp)
    as [(m & _ & _ & Hv)|(_ & -> & -> & _)]; [|now left].
  destruct (parseModVersion_inv _ _ _ _ _ Hv) as (_ & _ & [H|(Hne & _ & Hle)]);
    [now left|right].
  destruct (parseModVersion_found _ _ _ _ _ Hv Hne) as (Hval & ws & Hws & Ht).
  split; [exact Hval|]. split; [exact Hle|]. exists ws. split; assumption.
Qed.

Lemma scan_version_valid_witness :
  ("1.2.3" = "" /\ 9 = 0)
  \/ (validVersion (list_byte_of_string "1.2.3") = true
      /\ line_end (drop (10 + 9) (elems (View ex_two_lines []))) = true
      /\ exists ws,
           forallb isspace ws = true
           /\ take 9 (drop 10 (elems (View ex_two_lines [])))
              = ws ++ B pre ++ list_byte_of_string "1.2.3").
Proof.
  apply (scan_version_valid (View ex_two_lines []) 0 9 10 "foo" "1.2.3").
  reflexivity.
Defined.

Lemma next_no_slash (b : view) (i : nat) :
  forallb (fun c => negb (Byte.eqb c com)) (elems b) = true ->
  next b i true = next b i false.
Proof.
  intros Hns. remember (len b - i) as k eqn:Hk. revert i Hk.
  induction k as [k IH] using lt_wf_ind. intros i Hk.
  rewrite (next_unfold b i true), (next_unfold b i false).
  destruct (i <? len b) eqn:E; [|reflexivity]. apply Nat.ltb_lt in E.
  destruct (idx b i) as [c|] eqn:Ec; simpl; [|reflexivity].
  assert (Hc : Byte.eqb c com = false).
  { apply idx_Ok in Ec. rewrite forallb_forall in Hns.
    apply negb_true_iff, Hns, list_elem_of_In, list_elem_of_lookup. eauto. }
  rewrite Hc. destruct (isspace c); [|reflexivity].
  apply (IH (len b - (i + 1))); lia.
Qed.

(** X6: on a buffer that holds no slash and in which the keyword does not
    occur, the scan from any offset inside the buffer does not fail: it
    returns an empty name, an empty version, the length 0 and the length of
    the buffer as offset. *)
Theorem scan_without_keyword (b : view) (i : nat) :
  i <= len b ->
  forallb (fun c => negb (Byte.eqb c com)) (elems b) = true ->
  has_keyword (elems b) = false ->
  parseMod b i = Ok ("", "", 0, len b).
Proof.
  intros Hi Hns Hkw. remember (len b - i) as k eqn:Hk. revert i Hk Hi.
  induction k as [k IH] using lt_wf_ind. intros i Hk Hi.
  rewrite parseMod_unfold. destruct (i <? len b) eqn:E.
  2:{ apply Nat.ltb_ge in E. do 2 f_equal. lia. }
  apply Nat.ltb_lt in E. rewrite (next_no_slash b i Hns).
  destruct (next_false_spec b i) as (p & -> & Hge & Hle & _). simpl.
  destruct (len b <? p + 7) eqn:E7; [reflexivity|]. apply Nat.ltb_ge in E7.
  rewrite sub_elems by lia. simpl.
  replace (p + 7 - p) with 7 by lia.
  assert (Hp : keyword_at (elems b) p = false).
  { unfold has_keyword in Hkw.
    destruct (keyword_at (elems b) p) eqn:Ek; [|reflexivity].
    assert (Hex : existsb (keyword_at (elems b)) (seq 0 (length (elems b))) = true).
    { apply existsb_exists. exists p. split; [|exact Ek].
      apply in_seq. unfold len in E7. lia. }
    congruence. }
  unfold keyword_at in Hp. rewrite Hp.
  apply (IH (len b - (p + 1))); lia.
Qed.

Lemma scan_without_keyword_witness :
  parseMod (View (B "go 1.17" ++ [lin] ++ B "require x v1.0.0" ++ [lin]) []) 0
  = Ok ("", "", 0, 25).
Proof.
  apply (scan_without_keyword
           (View (B "go 1.17" ++ [lin] ++ B "require x v1.0.0" ++ [lin]) []) 0).
  - simpl. lia.
  - reflexivity.
  - reflexivity.
Defined.

(** ** Quotes that do not close *)

Lemma idx_last_of_quoted (b : view) (l1 l tl : list byte) (q : byte) :
  elems b = l1 ++ q :: l ++ tl ->
  exists e, idx b (length l1 + length l) = Ok e
            /\ e = default q (last l).
Proof.
  intros Hb. destruct l as [|y l].
  - exists q. split; [|reflexivity]. rewrite Nat.add_0_r.
    eapply idx_middle; [exact Hb|reflexivity].
  - destruct (last (y :: l)) as [e|] eqn:El.
    + exists e. split; [|reflexivity].
      apply idx_Ok. rewrite Hb. rewrite last_lookup in El. simpl in El.
      rewrite lookup_app_r by lia.
      replace (length l1 + length (y :: l) - length l1) with (S (length l))
        by (simpl; lia).
      simpl. rewrite app_comm_cons, lookup_app_l by (simpl; lia). exact El.
    + rewrite last_lookup in El. simpl in El.
      apply lookup_ge_None in El. simpl in El. lia.
Qed.

(** X7: when the identifier opens a quote that the buffer never closes (and
    the buffer does not end in a backslash), [parseModName] takes the rest
    of the buffer as name and returns the offset [len(b) + 1], outside the
    buffer; [parseModVersion] then reads there, and the scan panics. *)
Theorem scan_unclosed_quote (b : view) (prefix l : list byte) (q : byte) :
  elems b = prefix ++ B modkw ++ q :: l ->
  skipped false prefix = true ->
  Byte.eqb q aps || Byte.eqb q qot = true ->
  forallb (fun c => negb (Byte.eqb c q)) l = true ->
  match last l with Some e => negb (Byte.eqb e esc) | None => true end = true ->
  parseModName b (length prefix + 7) = Ok (string_of_list_byte l, len b + 1)
  /\ parseMod b 0 = Panic.
Proof.
  intros Hb Hsk Hq Hl Hlast.
  assert (Hb' : elems b = (prefix ++ B modkw) ++ q :: l) by (rewrite Hb; app_eq).
  assert (Ha : length (prefix ++ B modkw) = length prefix + 7)
    by (rewrite B_modkw; len_eq).
  assert (Hlen : len b = length prefix + 7 + 1 + length l).
  { unfold len. rewrite Hb, B_modkw. len_eq. }
  assert (Hname : parseModName b (length prefix + 7)
                  = Ok (string_of_list_byte l, len b + 1)).
  { unfold parseModName. rewrite <- Ha.
    assert (Hi : idx b (length (prefix ++ B modkw)) = Ok q)
      by (eapply idx_middle; [exact Hb'|reflexivity]).
    rewrite (next_stop b _ q false Hi (quote_not_space _ Hq) eq_refl). simpl.
    rewrite Hi. simpl. rewrite Hq.
    assert (Hs : search q b (length (prefix ++ B modkw) + 1) = len b).
    { replace (length (prefix ++ B modkw) + 1)
        with (length ((prefix ++ B modkw) ++ [q])) by len_eq.
      rewrite (search_app q b ((prefix ++ B modkw) ++ [q]) l []).
      - rewrite Hlen, <- Ha. len_eq.
      - rewrite Hb', app_nil_r. app_eq.
      - apply Forall_forall. intros y Hy. rewrite forallb_forall in Hl.
        apply list_elem_of_In in Hy. specialize (Hl y Hy).
        now apply negb_true_iff, beqb_neq in Hl.
      - now left. }
    rewrite Hs.
    destruct (idx_last_of_quoted b (prefix ++ B modkw) l [] q) as (e & He & Hee).
    { rewrite Hb', app_nil_r. reflexivity. }
    replace (len b - 1) with (length (prefix ++ B modkw) + length l) by lia.
    rewrite He. simpl.
    assert (Hesc : Byte.eqb e esc = false).
    { subst e. destruct (last l) as [e|]; simpl.
      - now apply negb_true_iff.
      - now apply quote_not_esc. }
    rewrite Hesc. simpl.
    rewrite (sub_middle b ((prefix ++ B modkw) ++ [q]) l []);
      [reflexivity|rewrite Hb', app_nil_r; app_eq|len_eq|].
    rewrite Hlen, <- Ha. len_eq. }
  split; [exact Hname|].
  rewrite (parseMod_keyword b prefix (q :: l) Hb Hsk), Hname. simpl.
  unfold parseModVersion. rewrite next_beyond by lia. simpl.
  unfold idx. rewrite lookup_ge_None_2 by (unfold len; lia). reflexivity.
Qed.

Lemma scan_unclosed_quote_witness :
  parseMod (View (B "module 'my mod" ++ [lin] ++ B "go 1.17") []) 0 = Panic.
Proof.
  apply (scan_unclosed_quote (View (B "module 'my mod" ++ [lin] ++ B "go 1.17") [])
           [] (B "my mod" ++ [lin] ++ B "go 1.17") aps).
  - reflexivity.
  - reflexivity.
  - reflexivity.
  - reflexivity.
  - reflexivity.
Defined.

(** X8: when the first quote character behind the opening one follows a
    backslash, [parseModName] gives up the quoted form and goes on from
    that quote as in an unquoted name, up to the next whitespace or [//];
    the name it returns is the whole text from the opening quote on, with
    the quotes, the backslash and any whitespace between the quotes. *)
Theorem name_with_escaped_quote (b : view) (l1 l l2 tl : list byte) (q w : byte) :
  elems b = l1 ++ (q :: l ++ esc :: q :: l2) ++ w :: tl ->
  Byte.eqb q aps || Byte.eqb q qot = true ->
  forallb (fun c => negb (Byte.eqb c q)) l = true ->
  forallb (fun c => negb (isspace c)) l2 = true ->
  has_comm (q :: l2) = false ->
  isspace w = true ->
  parseModName b (length l1)
  = Ok (string_of_list_byte (q :: l ++ esc :: q :: l2),
        length l1 + length (q :: l ++ esc :: q :: l2)).
Proof.
  intros Hb Hq Hl Hl2 Hcomm Hw. unfold parseModName.
  assert (Hi : idx b (length l1) = Ok q).
  { apply (idx_middle b l1 (l ++ esc :: q :: l2 ++ w :: tl) q); [|reflexivity].
    rewrite Hb. app_eq. }
  rewrite (next_stop b _ q false Hi (quote_not_space _ Hq) eq_refl). simpl.
  rewrite Hi. simpl. rewrite Hq.
  assert (Hs : search q b (length l1 + 1) = length l1 + 1 + length (l ++ [esc])).
  { replace (length l1 + 1) with (length (l1 ++ [q])) by len_eq.
    apply (search_app q b (l1 ++ [q]) (l ++ [esc]) (q :: l2 ++ w :: tl)).
    - rewrite Hb. app_eq.
    - apply Forall_app. split.
      + apply Forall_forall. intros y Hy. rewrite forallb_forall in Hl.
        apply list_elem_of_In in Hy. specialize (Hl y Hy).
        now apply negb_true_iff, beqb_neq in Hl.
      + constructor; [|constructor]. intros E.
        pose proof (quote_not_esc _ Hq) as Hne. rewrite <- E in Hne.
        now rewrite beqb_refl in Hne.
    - now right. }
  rewrite Hs.
  rewrite (idx_middle b (l1 ++ q :: l) (q :: l2 ++ w :: tl) esc);
    [|rewrite Hb; app_eq|len_eq].
  simpl. unfold bareName.
  rewrite (nameEnd_bare b (l1 ++ q :: l ++ [esc]) (q :: l2) tl w);
    [|rewrite Hb; app_eq|len_eq| |exact Hcomm|exact Hw].
  2:{ cbn [forallb]. now rewrite (quote_not_space _ Hq), Hl2. }
  simpl.
  rewrite (sub_middle b l1 (q :: l ++ esc :: q :: l2) (w :: tl));
    [|rewrite Hb; app_eq|reflexivity|len_eq].
  simpl. do 2 f_equal. len_eq.
Qed.

Lemma name_with_escaped_quote_witness :
  parseModName (View (B "module 'my mod\'x //v1.0.0") []) 7
  = Ok ("'my mod\'x", 17).
Proof.
  apply (name_with_escaped_quote (View (B "module 'my mod\'x //v1.0.0") [])
           (B "module ") (B "my mod") (B "x") (B "//v1.0.0") aps spc).
  - reflexivity.
  - reflexivity.
  - reflexivity.
  - reflexivity.
  - reflexivity.
  - reflexivity.
Defined.

(** ** The splicer out of range *)

Lemma append_total (g : nat -> nat -> nat) (s : slice) (xs : list byte) (h : heap) :
  exists r h', append g s xs h = Ok (r, h').
Proof.
  unfold append. destruct (slen s + length xs <=? scap s); eexists _, _; reflexivity.
Qed.

(** X9: [updateModVersion] panics exactly when the range given reaches
    beyond the elements of the buffer; otherwise it returns. *)
Theorem update_panics_iff (g : nat -> nat -> nat) (h : heap) (bytes : slice)
    (vpos vlen : nat) (version : string) :
  wf_slice h bytes ->
  (updateModVersion g bytes vpos vlen version h = Panic
   <-> slen bytes < vpos + vlen).
Proof.
  intros Hwf. split.
  - intros Hp. destruct (decide (vpos + vlen <= slen bytes)) as [Hle|]; [|lia].
    destruct (updateModVersion_spec g h bytes vpos vlen version Hwf Hle)
      as (r & h' & E & _). congruence.
  - intros Hlt. destruct Hwf as (_ & _ & Hcap).
    unfold updateModVersion.
    rewrite (go_bind_Ok (make 0 (slen bytes)) _ h _ _ eq_refl).
    unfold go_bind at 1. unfold go_lift, reslice at 1.
    destruct ((0 <=? vpos) && (vpos <=? scap bytes)); [|reflexivity].
    destruct (append_total g (Slice (length h) 0 0 (slen bytes)) [spc]
                (h ++ [replicate (slen bytes) x00])) as (v1 & h2 & E1).
    rewrite (go_bind_Ok _ _ _ _ _ E1).
    rewrite (go_bind_Ok (bytes_of_string (pre ++ version)) _ h2 _ _ eq_refl).
    rewrite (go_bind_Ok (read _) _ _ _ _ eq_refl).
    match goal with |- go_bind (append g v1 ?xs) _ ?h = _ =>
      destruct (append_total g v1 xs h) as (v2 & h4 & E2)
    end.
    rewrite (go_bind_Ok _ _ _ _ _ E2).
    unfold go_bind at 1. unfold go_lift, reslice.
    destruct (vpos + vlen <=? slen bytes) eqn:E; [apply Nat.leb_le in E; lia|].
    reflexivity.
Qed.

Lemma update_panics_iff_witness :
  updateModVersion exact_fit ex_slice 15 9 "2.0.0" ex_heap = Panic.
Proof.
  apply (update_panics_iff exact_fit ex_heap ex_slice 15 9 "2.0.0").
  - unfold wf_slice. simpl. lia.
  - simpl. lia.
Defined.

(** ** The version decision as an order *)

Lemma compareParts_step (cs us : list string) (i : nat) (cp up : string) :
  cs !! i = Some cp -> us !! i = Some up ->
  compareParts (drop i cs) us i
  = (let '(c, err) := Atoi cp in
     if err then Ok false
     else let '(u, _) := Atoi up in
          if (c <? u)%Z then Ok true
          else if (u <? c)%Z then Ok false
          else compareParts (drop (i + 1) cs) us (i + 1)).
Proof.
  intros Hc Hu. rewrite (drop_S _ _ _ Hc). cbn [compareParts].
  destruct (Atoi cp) as [c err]. destruct err; [reflexivity|].
  rewrite Hu. destruct (Atoi up) as [u eu].
  replace (S i) with (i + 1) by lia. reflexivity.
Qed.

Lemma compareParts_end (cs us : list string) (i : nat) :
  length cs <= i -> compareParts (drop i cs) us i = Ok false.
Proof. intros H. now rewrite drop_ge. Qed.

(** With as many user components as current ones, the loop reads inside
    [uparts]. *)
Lemma compareParts_total (cs us : list string) (i : nat) :
  length cs = length us ->
  exists r, compareParts (drop i cs) us i = Ok r.
Proof.
  intros Hlen. remember (length cs - i) as k eqn:Hk. revert i Hk.
  induction k as [k IH] using lt_wf_ind. intros i Hk.
  destruct (decide (length cs <= i)) as [Hge|Hlt].
  - exists false. now apply compareParts_end.
  - destruct (lookup_lt_is_Some_2 cs i ltac:(lia)) as [cp Hc].
    destruct (lookup_lt_is_Some_2 us i ltac:(lia)) as [up Hu].
    rewrite (compareParts_step cs us i cp up Hc Hu).
    destruct (Atoi cp) as [c err]. destruct err; [eauto|].
    destruct (Atoi up) as [u eu].
    destruct (c <? u)%Z; [eauto|]. destruct (u <? c)%Z; [eauto|].
    apply (IH (length cs - (i + 1))); lia.
Qed.

Lemma compareParts_asym (cs us : list string) (i : nat) :
  length cs = length us ->
  compareParts (drop i cs) us i = Ok true ->
  compareParts (drop i us) cs i = Ok false.
Proof.
  intros Hlen. remember (length cs - i) as k eqn:Hk. revert i Hk.
  induction k as [k IH] using lt_wf_ind. intros i Hk Hf.
  destruct (decide (length cs <= i)) as [Hge|Hlt].
  - apply compareParts_end. lia.
  - destruct (lookup_lt_is_Some_2 cs i ltac:(lia)) as [cp Hc].
    destruct (lookup_lt_is_Some_2 us i ltac:(lia)) as [up Hu].
    rewrite (compareParts_step cs us i cp up Hc Hu) in Hf.
    rewrite (compareParts_step us cs i up cp Hu Hc).
    destruct (Atoi cp) as [c ec]. destruct (Atoi up) as [u eu].
    destruct ec; [discriminate|]. destruct eu; [reflexivity|].
    destruct (c <? u)%Z eqn:E1.
    + apply Z.ltb_lt in E1.
      destruct (u <? c)%Z eqn:E2; [apply Z.ltb_lt in E2; lia|reflexivity].
    + destruct (u <? c)%Z eqn:E2; [discriminate|].
      apply (IH (length cs - (i + 1))); (assumption || lia).
Qed.

Lemma compareParts_trans (xs ys zs : list string) (i : nat) :
  length xs = length ys -> length ys = length zs ->
  compareParts (drop i xs) ys i = Ok true ->
  compareParts (drop i ys) zs i = Ok true ->
  compareParts (drop i xs) zs i = Ok true.
Proof.
  intros Hl1 Hl2. remember (length xs - i) as k eqn:Hk. revert i Hk.
  induction k as [k IH] using lt_wf_ind. intros i Hk H1 H2.
  destruct (decide (length xs <= i)) as [Hge|Hlt].
  - rewrite compareParts_end in H1 by lia. discriminate.
  - destruct (lookup_lt_is_Some_2 xs i ltac:(lia)) as [xp Hx].
    destruct (lookup_lt_is_Some_2 ys i ltac:(lia)) as [yp Hy].
    destruct (lookup_lt_is_Some_2 zs i ltac:(lia)) as [zp Hz].
    rewrite (compareParts_step xs ys i xp yp Hx Hy) in H1.
    rewrite (compareParts_step ys zs i yp zp Hy Hz) in H2.
    rewrite (compareParts_step xs zs i xp zp Hx Hz).
    destruct (Atoi xp) as [x ex]. destruct (Atoi yp) as [y ey].
    destruct (Atoi zp) as [z ez].
    destruct ex; [discriminate|]. destruct ey; [discriminate|].
    destruct (x <? y)%Z eqn:E1; destruct (y <? z)%Z eqn:E2;
      try apply Z.ltb_lt in E1; try apply Z.ltb_lt in E2;
      try apply Z.ltb_ge in E1; try apply Z.ltb_ge in E2.
    + destruct (x <? z)%Z eqn:E3; [reflexivity|]. apply Z.ltb_ge in E3. lia.
    + destruct (z <? y)%Z eqn:E4; [discriminate|]. apply Z.ltb_ge in E4.
      destruct (x <? z)%Z eqn:E3; [reflexivity|]. apply Z.ltb_ge in E3. lia.
    + destruct (y <? x)%Z eqn:E4; [discriminate|]. apply Z.ltb_ge in E4.
      destruct (x <? z)%Z eqn:E3; [reflexivity|]. apply Z.ltb_ge in E3. lia.
    + destruct (y <? x)%Z eqn:E4; [discriminate|]. apply Z.ltb_ge in E4.
      destruct (z <? y)%Z eqn:E5; [discriminate|]. apply Z.ltb_ge in E5.
      assert (x = z) by lia. subst z.
      rewrite Z.ltb_irrefl.
      apply (IH (length xs - (i + 1))); (assumption || lia).
Qed.

(** What it takes for a user version to be accepted against another
    current version. *)
Lemma assessVersion_accept_inv (cv uv : string) :
  cv <> "" -> uv <> "" -> cv <> uv ->
  assessVersion cv uv = Ok (uv, true) ->
  validVersion (list_byte_of_string uv) = true
  /\ length (Split cv ".") = length (Split uv ".")
  /\ compareParts (Split cv ".") (Split uv ".") 0 = Ok true.
Proof.
  intros Hc Hu Hne. apply String.eqb_neq in Hc, Hu, Hne.
  unfold assessVersion, validUserVersion. rewrite Hu, Hc, Hne. simpl.
  destruct (validVersion (list_byte_of_string uv)); simpl; [|discriminate].
  destruct (length (Split cv ".") =? length (Split uv ".")) eqn:El; simpl;
    [|discriminate].
  apply Nat.eqb_eq in El.
  destruct (compareParts (Split cv ".") (Split uv ".") 0) as [[|]|]; simpl;
    try discriminate. auto.
Qed.

Lemma assessVersion_compare (cv uv : string) :
  cv <> "" -> uv <> "" -> cv <> uv ->
  validVersion (list_byte_of_string uv) = true ->
  length (Split cv ".") = length (Split uv ".") ->
  assessVersion cv uv
  = (ok <- compareParts (Split cv ".") (Split uv ".") 0 ;;
     if negb ok then Ok ("", false) else Ok (uv, true)).
Proof.
  intros Hc Hu Hne Hv Hl. apply String.eqb_neq in Hc, Hu, Hne.
  apply Nat.eqb_eq in Hl.
  unfold assessVersion, validUserVersion. now rewrite Hu, Hc, Hne, Hv, Hl.
Qed.

(** X10: the version decision never panics (the loop of [validUserVersion]
    reads [uparts[i]] only when both versions have as many components).
    For a user version it returns that version with [true], and then the
    version passes [validVersion], or the empty string with [false]; a
    valid user version is accepted when there is no current version, and
    also when it equals the current one. *)
Theorem assess_never_panics (cv uv : string) :
  exists nv ok,
    assessVersion cv uv = Ok (nv, ok)
    /\ (uv <> "" ->
        (ok = true /\ nv = uv /\ validVersion (list_byte_of_string uv) = true)
        \/ (ok = false /\ nv = ""))
    /\ (uv <> "" -> validVersion (list_byte_of_string uv) = true ->
        cv = "" \/ cv = uv -> ok = true).
Proof.
  destruct (String.eqb uv "") eqn:Eu.
  - apply String.eqb_eq in Eu. subst uv.
    destruct (assessVersion_next_valid cv) as (nv & Hn).
    exists nv, true. split; [exact Hn|]. split; intros H; congruence.
  - unfold assessVersion, validUserVersion. rewrite Eu.
    destruct (validVersion (list_byte_of_string uv)) eqn:Ev; simpl.
    2:{ exists "", false. split; [reflexivity|]. split; [auto|discriminate]. }
    destruct (String.eqb cv "" || String.eqb cv uv) eqn:Es; simpl.
    { exists uv, true. split; [reflexivity|]. split; auto. }
    apply orb_false_iff in Es as [Es1 Es2].
    apply String.eqb_neq in Es1, Es2.
    destruct (length (Split cv ".") =? length (Split uv ".")) eqn:El; simpl.
    2:{ exists "", false. split; [reflexivity|]. split; [auto|].
        intros _ _ [?|?]; congruence. }
    apply Nat.eqb_eq in El.
    destruct (compareParts_total (Split cv ".") (Split uv ".") 0 El) as (r & Hr).
    change (drop 0 (Split cv ".")) with (Split cv ".") in Hr. rewrite Hr. simpl.
    destruct r; simpl.
    + exists uv, true. split; [reflexivity|]. split; auto.
    + exists "", false. split; [reflexivity|]. split; [auto|].
      intros _ _ [?|?]; congruence.
Qed.

(** X11: the decision is asymmetric: when a user version is accepted
    against a different current version, the current version is rejected
    as a user version against it. *)
Theorem user_version_asymmetric (cv uv : string) :
  cv <> "" -> uv <> "" -> cv <> uv ->
  assessVersion cv uv = Ok (uv, true) ->
  assessVersion uv cv = Ok ("", false).
Proof.
  intros Hc Hu Hne Ha.
  destruct (assessVersion_accept_inv cv uv Hc Hu Hne Ha) as (Hv & Hl & Hcmp).
  destruct (validVersion (list_byte_of_string cv)) eqn:Evc.
  - rewrite (assessVersion_compare uv cv) by (try assumption; congruence).
    change (Split uv ".") with (drop 0 (Split uv ".")) at 1.
    rewrite (compareParts_asym (Split cv ".") (Split uv ".") 0 Hl Hcmp).
    reflexivity.
  - apply String.eqb_neq in Hc. unfold assessVersion, validUserVersion.
    now rewrite Hc, Evc.
Qed.

Lemma user_version_asymmetric_witness :
  assessVersion "0.2.0" "0.1.9" = Ok ("", false).
Proof.
  apply (user_version_asymmetric "0.1.9" "0.2.0").
  - discriminate.
  - discriminate.
  - discriminate.
  - reflexivity.
Defined.

(** X12: the decision is transitive: a version accepted against a second
    one, which was accepted against a third, is accepted against the
    third. *)
Theorem user_version_transitive (v1 v2 v3 : string) :
  v1 <> "" -> v2 <> "" -> v3 <> "" -> v1 <> v2 -> v2 <> v3 ->
  assessVersion v1 v2 = Ok (v2, true) ->
  assessVersion v2 v3 = Ok (v3, true) ->
  assessVersion v1 v3 = Ok (v3, true).
Proof.
  intros H1 H2 H3 H12 H23 A12 A23.
  destruct (assessVersion_accept_inv v1 v2 H1 H2 H12 A12) as (Hv2 & Hl12 & C12).
  destruct (assessVersion_accept_inv v2 v3 H2 H3 H23 A23) as (Hv3 & Hl23 & C23).
  destruct (String.eqb v1 v3) eqn:E13.
  - apply String.eqb_neq in H3. unfold assessVersion, validUserVersion.
    rewrite H3, Hv3, E13. simpl. now rewrite orb_true_r.
  - apply String.eqb_neq in E13.
    rewrite (assessVersion_compare v1 v3) by (try assumption; congruence).
    change (Split v1 ".") with (drop 0 (Split v1 ".")) at 1.
    rewrite (compareParts_trans (Split v1 ".") (Split v2 ".") (Split v3 ".") 0);
      try assumption; reflexivity.
Qed.

Lemma user_version_transitive_witness :
  assessVersion "0.1.0" "1.0.0" = Ok ("1.0.0", true).
Proof.
  apply (user_version_transitive "0.1.0" "0.1.1" "1.0.0");
    try discriminate; reflexivity.
Defined.

(** ** The next version of a version whose last component is no number *)

Lemma digits_bad (s : string) (acc : Z) :
  existsb notNumeric (list_ascii_of_string s) = true -> digits s acc = None.
Proof.
  revert acc. induction s as [|c s IH]; intros acc; simpl; [discriminate|].
  intros H. apply orb_true_iff in H as [H|H].
  - unfold notNumeric in H. apply andb_true_iff in H as [H _].
    apply andb_true_iff in H as [H _]. apply negb_true_iff in H.
    unfold isDigit in H. unfold digit. now rewrite H.
  - destruct (digit c); [now apply IH|reflexivity].
Qed.

Lemma Atoi_syntax (s : string) :
  s = "" \/ existsb notNumeric (list_ascii_of_string s) = true ->
  Atoi s = (0%Z, true).
Proof.
  intros [->|H]; [reflexivity|].
  destruct s as [|c s]; [discriminate|]. unfold Atoi.
  simpl in H.
  assert (Hrest : Ascii.eqb c "+" || Ascii.eqb c "-" = true ->
                  existsb notNumeric (list_ascii_of_string s) = true).
  { intros Hc. apply orb_true_iff in H as [H|H]; [|exact H].
    unfold notNumeric in H. apply andb_true_iff in H as [H H2].
    apply andb_true_iff in H as [_ H1]. apply negb_true_iff in H1, H2.
    rewrite H1, H2 in Hc. discriminate. }
  destruct (Ascii.eqb c "+") eqn:E1.
  - destruct s as [|c' s]; [reflexivity|].
    now rewrite (digits_bad (String c' s) 0 (Hrest eq_refl)).
  - destruct (Ascii.eqb c "-") eqn:E2.
    + destruct s as [|c' s]; [reflexivity|].
      now rewrite (digits_bad (String c' s) 0 (Hrest eq_refl)).
    + now rewrite (digits_bad (String c s) 0 H).
Qed.

(** X13: when the last component of the current version is no number (it
    is empty, or holds a character that is neither a digit nor a sign), the
    conversion error is dropped and the next version has [1] in its place;
    the other components stay. *)
Theorem next_version_not_a_number (cv lastc : string) (parts : list string) :
  cv <> "" -> Split cv "." = parts ++ [lastc] ->
  lastc = "" \/ existsb notNumeric (list_ascii_of_string lastc) = true ->
  assessVersion cv "" = Ok (Join (parts ++ ["1"]) ".", true).
Proof.
  intros Hne Hs Hl. unfold assessVersion, nextVersion. simpl.
  apply String.eqb_neq in Hne. rewrite Hne, Hs.
  rewrite length_app. simpl. replace (length parts + 1 - 1) with (length parts) by lia.
  rewrite list_lookup_middle by reflexivity.
  rewrite (Atoi_syntax lastc Hl). simpl.
  rewrite insert_app_r_alt by lia. rewrite Nat.sub_diag. reflexivity.
Qed.

Lemma next_version_not_a_number_witness :
  assessVersion "1.4.beta" "" = Ok ("1.4.1", true).
Proof.
  apply (next_version_not_a_number "1.4.beta" "beta" ["1"; "4"]).
  - discriminate.
  - reflexivity.
  - right. reflexivity.
Defined.

(** ** The command line *)

Lemma length_list_ascii_of_string (s : string) :
  length (list_ascii_of_string s) = String.length s.
Proof. induction s as [|c s IH]; simpl; [reflexivity|now rewrite IH]. Qed.

Lemma ssub_tail (c : ascii) (r : string) :
  ssub (String c r) 1 (String.length (String c r)) = Ok r.
Proof.
  unfold ssub. simpl String.length.
  replace (1 <=? S (String.length r)) with true by (symmetry; apply Nat.leb_le; lia).
  rewrite Nat.leb_refl. simpl. rewrite Nat.sub_0_r, drop_0.
  rewrite take_ge by (rewrite length_list_ascii_of_string; lia).
  now rewrite string_of_list_ascii_of_string.
Qed.

Lemma cmdAction_flag (prog f : string) :
  cmdAction [prog; f] =
    if String.eqb f "h" || String.eqb f "help" then Ok (1, "")
    else if String.eqb f "v" || String.eqb f "version" then Ok (2, "")
    else if String.eqb f "p" || String.eqb f "patch" then Ok (3, "")
    else
      c0 <- sidx f 0 ;;
      if Ascii.eqb c0 "v" then
        c1 <- sidx f 1 ;;
        if isnum (byte_of_ascii c1) then
          v <- ssub f 1 (String.length f) ;; Ok (3, v)
        else Ok (0, "")
      else Ok (0, "").
Proof. reflexivity. Qed.

Lemma cmdAction_version (prog : string) (c : ascii) (r : string) :
  isnum (byte_of_ascii c) = true ->
  cmdAction [prog; String "v" (String c r)] = Ok (3, String c r).
Proof.
  intros Hc. rewrite cmdAction_flag.
  assert (He : Ascii.eqb c "e" = false).
  { destruct (Ascii.eqb c "e") eqn:E; [|reflexivity].
    apply Ascii.eqb_eq in E. subst c. discriminate. }
  cbn -[ssub isnum String.length]. rewrite He. cbn -[ssub isnum String.length].
  rewrite Hc. rewrite ssub_tail. reflexivity.
Qed.

Lemma cmdAction_flag_cases (prog f : string) (a : nat) (v : string) :
  cmdAction [prog; f] = Ok (a, v) ->
  (v = "" /\ a <= 3) \/
  (a = 3 /\ exists c r, f = String "v" (String c r) /\ v = String c r /\
            isnum (byte_of_ascii c) = true).
Proof.
  rewrite cmdAction_flag.
  destruct (String.eqb f "h" || String.eqb f "help");
    [intros [= <- <-]; left; split; [reflexivity|lia]|].
  destruct (String.eqb f "v" || String.eqb f "version");
    [intros [= <- <-]; left; split; [reflexivity|lia]|].
  destruct (String.eqb f "p" || String.eqb f "patch");
    [intros [= <- <-]; left; split; [reflexivity|lia]|].
  destruct f as [|c0 f]; [discriminate|].
  change (sidx (String c0 f) 0) with (Ok c0). cbn [bind].
  destruct (Ascii.eqb c0 "v") eqn:E0;
    [|intros [= <- <-]; left; split; [reflexivity|lia]].
  apply Ascii.eqb_eq in E0. subst c0.
  destruct f as [|c1 r]; [discriminate|].
  change (sidx (String "v" (String c1 r)) 1) with (Ok c1). cbn [bind].
  destruct (isnum (byte_of_ascii c1)) eqn:E1;
    [|intros [= <- <-]; left; split; [reflexivity|lia]].
  rewrite ssub_tail. cbn [bind]. intros [= <- <-]. right.
  split; [reflexivity|]. now exists c1, r.
Qed.

(** X14: [cmdAction] panics exactly when the process has no arguments at
    all or its one argument is the empty string; and it returns a user
    version exactly for action 3 with one argument [v] followed by a digit,
    the version being the argument without its [v]. *)
Theorem cmdAction_spec (args : list string) :
  (cmdAction args = Panic <-> args = [] \/ exists prog, args = [prog; ""]) /\
  (forall a v, cmdAction args = Ok (a, v) /\ v <> "" <->
     a = 3 /\ exists prog c r,
       args = [prog; String "v" (String c r)] /\ v = String c r /\
       isnum (byte_of_ascii c) = true).
Proof.
  split.
  - destruct args as [|prog [|f [|x rest]]].
    + split; [now left|reflexivity].
    + split; [discriminate|]. intros [H|[p H]]; discriminate.
    + destruct f as [|c0 f].
      * split; [intros _; right; now exists prog|reflexivity].
      * split; [|intros [H|[p H]]; discriminate].
        intros H. exfalso. revert H. rewrite cmdAction_flag.
        destruct (String.eqb (String c0 f) "h" || String.eqb (String c0 f) "help");
          [discriminate|].
        destruct (String.eqb (String c0 f) "v" || String.eqb (String c0 f) "version") eqn:Ev;
          [discriminate|].
        destruct (String.eqb (String c0 f) "p" || String.eqb (String c0 f) "patch");
          [discriminate|].
        change (sidx (String c0 f) 0) with (Ok c0). cbn [bind].
        destruct (Ascii.eqb c0 "v") eqn:E0; [|discriminate].
        apply Ascii.eqb_eq in E0. subst c0.
        destruct f as [|c1 r]; [discriminate Ev|].
        change (sidx (String "v" (String c1 r)) 1) with (Ok c1). cbn [bind].
        destruct (isnum (byte_of_ascii c1)); [|discriminate].
        rewrite ssub_tail. discriminate.
    + split; [discriminate|]. intros [H|[p H]]; discriminate.
  - intros a v. split.
    + intros [H Hv].
      destruct args as [|prog [|f [|x rest]]]; try discriminate.
      * injection H as <- <-. now destruct Hv.
      * apply cmdAction_flag_cases in H as [[-> _]|(-> & c & r & -> & -> & Hc)];
          [now destruct Hv|].
        split; [reflexivity|]. now exists prog, c, r.
      * injection H as <- <-. now destruct Hv.
    + intros (-> & prog & c & r & -> & -> & Hc).
      split; [now apply cmdAction_version|discriminate].
Qed.

(** ** The formatter *)

Lemma list_ascii_of_string_app (s1 s2 : string) :
  list_ascii_of_string (s1 ++ s2)%string
  = list_ascii_of_string s1 ++ list_ascii_of_string s2.
Proof. induction s1 as [|c s1 IH]; simpl; [reflexivity|now rewrite IH]. Qed.

Lemma string_append_nil_r (s : string) : (s ++ "")%string = s.
Proof. induction s as [|c s IH]; simpl; [reflexivity|now rewrite IH]. Qed.

Lemma string_append_assoc (s1 s2 s3 : string) :
  ((s1 ++ s2) ++ s3)%string = (s1 ++ s2 ++ s3)%string.
Proof. induction s1 as [|c s1 IH]; simpl; [reflexivity|now rewrite IH]. Qed.

Ltac slen :=
  repeat first [rewrite length_app | rewrite length_list_ascii_of_string
               | progress cbn [length]];
  lia.

Lemma sidx_middle (s : string) (L R : list ascii) (c : ascii) (i : nat) :
  list_ascii_of_string s = L ++ c :: R -> i = length L -> sidx s i = Ok c.
Proof.
  intros H ->. unfold sidx. rewrite H, list_lookup_middle by reflexivity. reflexivity.
Qed.

Lemma sidx_end (s : string) (i : nat) :
  String.length s <= i -> sidx s i = Panic.
Proof.
  intros H. unfold sidx. rewrite lookup_ge_None_2; [reflexivity|].
  now rewrite length_list_ascii_of_string.
Qed.

Lemma ssub_middle (s : string) (L R : list ascii) (p : string) (lo hi : nat) :
  list_ascii_of_string s = L ++ list_ascii_of_string p ++ R ->
  lo = length L -> hi = length L + String.length p ->
  ssub s lo hi = Ok p.
Proof.
  intros H -> ->. unfold ssub.
  assert (Hl : String.length s = length L + String.length p + length R).
  { rewrite <- length_list_ascii_of_string, H, !length_app,
      length_list_ascii_of_string. lia. }
  replace (length L <=? length L + String.length p) with true
    by (symmetry; apply Nat.leb_le; lia).
  replace (length L + String.length p <=? String.length s) with true
    by (symmetry; apply Nat.leb_le; lia).
  simpl. rewrite H, drop_app_length.
  replace (length L + String.length p - length L)
    with (length (list_ascii_of_string p))
    by (rewrite length_list_ascii_of_string; lia).
  rewrite take_app_length. now rewrite string_of_list_ascii_of_string.
Qed.

Lemma Stringf_loop_fuel (format : string) (a : list string) (fuel1 fuel2 : nat) :
  forall s pos elem i,
    String.length format - i <= fuel1 -> String.length format - i <= fuel2 ->
    Stringf_loop fuel1 format a s pos elem i = Stringf_loop fuel2 format a s pos elem i.
Proof.
  revert fuel2. induction fuel1 as [|fuel1 IH]; intros fuel2 s pos elem i H1 H2.
  - destruct fuel2 as [|fuel2]; [reflexivity|]. simpl.
    replace (i <? String.length format) with false
      by (symmetry; apply Nat.ltb_ge; lia).
    reflexivity.
  - destruct fuel2 as [|fuel2]; simpl.
    + replace (i <? String.length format) with false
        by (symmetry; apply Nat.ltb_ge; lia).
      reflexivity.
    + destruct (i <? String.length format) eqn:E; [|reflexivity].
      apply Nat.ltb_lt in E.
      destruct (sidx format i) as [c|]; [|reflexivity]. cbn [bind].
      destruct (Ascii.eqb c "%"); [|apply IH; lia].
      destruct (sidx format (i + 1)) as [c1|]; [|reflexivity]. cbn [bind].
      destruct (Ascii.eqb c1 "s"); [|apply IH; lia].
      destruct (ssub format pos i) as [w|]; [|reflexivity]. cbn [bind].
      destruct (elem <? length a); [|reflexivity].
      destruct (a !! elem) as [x|]; [|reflexivity]. cbn [bind].
      apply IH; lia.
Qed.

Lemma Stringf_unfold (format : string) (a : list string) (s : string) (pos elem i : nat) :
  Stringf_from format a s pos elem i =
    if i <? String.length format then
      c <- sidx format i ;;
      if Ascii.eqb c "%" then
        c1 <- sidx format (i + 1) ;;
        if Ascii.eqb c1 "s" then
          w <- ssub format pos i ;;
          if elem <? length a then
            x <- match a !! elem with Some x => Ok x | None => Panic end ;;
            Stringf_from format a (s ++ w ++ x)%string (i + 2) (elem + 1) (i + 1)
          else Panic
        else Stringf_from format a s pos elem (i + 1)
      else Stringf_from format a s pos elem (i + 1)
    else w <- ssub format pos (String.length format) ;; Ok (s ++ w)%string.
Proof.
  unfold Stringf_from.
  destruct (String.length format - i) as [|n] eqn:En; simpl.
  - replace (i <? String.length format) with false
      by (symmetry; apply Nat.ltb_ge; lia).
    reflexivity.
  - replace (i <? String.length format) with true
      by (symmetry; apply Nat.ltb_lt; lia).
    destruct (sidx format i) as [c|]; [|reflexivity]. cbn [bind].
    destruct (Ascii.eqb c "%");
      [|apply Stringf_loop_fuel; lia].
    destruct (sidx format (i + 1)) as [c1|]; [|reflexivity]. cbn [bind].
    destruct (Ascii.eqb c1 "s"); [|apply Stringf_loop_fuel; lia].
    destruct (ssub format pos i) as [w|]; [|reflexivity]. cbn [bind].
    destruct (elem <? length a); [|reflexivity].
    destruct (a !! elem) as [x|]; [|reflexivity]. cbn [bind].
    apply Stringf_loop_fuel; lia.
Qed.

(** The loop passes over text without [%]. *)
Lemma Stringf_plain (format : string) (a : list string) (s : string) (pos elem : nat)
    (P : list ascii) :
  forall L R i,
    list_ascii_of_string format = L ++ P ++ R ->
    forallb (fun c => negb (Ascii.eqb c "%")) P = true ->
    i = length L ->
    Stringf_from format a s pos elem i
    = Stringf_from format a s pos elem (i + length P).
Proof.
  induction P as [|c P IH]; intros L R i H HP ->.
  - simpl. now rewrite Nat.add_0_r.
  - simpl in HP. apply andb_true_iff in HP as [Hc HP]. apply negb_true_iff in Hc.
    rewrite Stringf_unfold.
    assert (Hl : length L < String.length format).
    { rewrite <- length_list_ascii_of_string, H, !length_app. simpl. lia. }
    apply Nat.ltb_lt in Hl. rewrite Hl.
    rewrite (sidx_middle format L (P ++ R) c) by (exact H || reflexivity).
    cbn [bind]. rewrite Hc.
    rewrite (IH (L ++ [c]) R (length L + 1)); [f_equal; simpl; lia| |exact HP|slen].
    rewrite H. app_eq.
Qed.

Lemma Stringf_pieces (format : string) (a : list string) (trail : bool) (ps : list string) :
  forall (L : list ascii) (p s : string) (elem i : nat),
    list_ascii_of_string format
    = L ++ list_ascii_of_string p ++ list_ascii_of_string (holes ps)
        ++ (if trail then ["%"%char] else []) ->
    no_percent p = true -> forallb no_percent ps = true ->
    i = length L ->
    Stringf_from format a s i elem i
    = if length ps <=? length a - elem
      then if trail then Panic else Ok (s ++ p ++ fill (drop elem a) ps)%string
      else Panic.
Proof.
  induction ps as [|q ps IH]; intros L p s elem i H Hp Hps ->.
  - simpl in H.
    rewrite (Stringf_plain format a s (length L) elem (list_ascii_of_string p) L
               (if trail then ["%"%char] else [])) by (exact H || exact Hp || reflexivity).
    rewrite Stringf_unfold. simpl (length []). simpl (0 <=? _).
    assert (Hl : String.length format
                 = length L + String.length p + (if trail then 1 else 0)).
    { rewrite <- length_list_ascii_of_string, H, !length_app,
        length_list_ascii_of_string. destruct trail; simpl; lia. }
    rewrite length_list_ascii_of_string.
    destruct trail.
    + replace (length L + String.length p <? String.length format) with true
        by (symmetry; apply Nat.ltb_lt; lia).
      rewrite (sidx_middle format (L ++ list_ascii_of_string p) [] "%"%char)
        by (first [rewrite H; app_eq | slen]).
      cbn [bind]. simpl (Ascii.eqb _ _).
      rewrite sidx_end; [reflexivity|lia].
    + replace (length L + String.length p <? String.length format) with false
        by (symmetry; apply Nat.ltb_ge; lia).
      rewrite (ssub_middle format L [] p) by (first [exact H | lia]). cbn [bind].
      destruct (drop elem a); simpl; now rewrite string_append_nil_r.
  - simpl in Hps. apply andb_true_iff in Hps as [Hq Hps].
    simpl holes in H. simpl list_ascii_of_string in H.
    rewrite list_ascii_of_string_app in H.
    set (T := if trail then ["%"%char] else []) in *.
    rewrite (Stringf_plain format a s (length L) elem (list_ascii_of_string p) L
               (("%"%char :: "s"%char
                  :: list_ascii_of_string q ++ list_ascii_of_string (holes ps)) ++ T))
      by (exact H || exact Hp || reflexivity).
    rewrite length_list_ascii_of_string.
    rewrite Stringf_unfold.
    assert (Hl : length L + String.length p + 2 <= String.length format).
    { rewrite <- (length_list_ascii_of_string format), H, !length_app,
        length_list_ascii_of_string. simpl. lia. }
    replace (length L + String.length p <? String.length format)
      with true by (symmetry; apply Nat.ltb_lt; lia).
    rewrite (sidx_middle format (L ++ list_ascii_of_string p)
               ("s"%char :: (list_ascii_of_string q ++ list_ascii_of_string (holes ps)) ++ T)
               "%"%char)
      by (first [rewrite H; app_eq | slen]).
    cbn [bind]. simpl (Ascii.eqb "%" "%"). cbv iota.
    rewrite (sidx_middle format ((L ++ list_ascii_of_string p) ++ ["%"%char])
               ((list_ascii_of_string q ++ list_ascii_of_string (holes ps)) ++ T)
               "s"%char)
      by (first [rewrite H; app_eq | slen]).
    cbn [bind]. simpl (Ascii.eqb "s" "s"). cbv iota.
    rewrite (ssub_middle format L
               (("%"%char :: "s"%char
                  :: list_ascii_of_string q ++ list_ascii_of_string (holes ps)) ++ T) p)
      by (first [exact H | lia]).
    cbn [bind].
    destruct (elem <? length a) eqn:Ee.
    + apply Nat.ltb_lt in Ee.
      destruct (lookup_lt_is_Some_2 a elem Ee) as [x Hx]. rewrite Hx. cbn [bind].
      rewrite Stringf_unfold.
      replace (length L + String.length p + 1 <? String.length format)
        with true by (symmetry; apply Nat.ltb_lt; lia).
      rewrite (sidx_middle format ((L ++ list_ascii_of_string p) ++ ["%"%char])
                 ((list_ascii_of_string q ++ list_ascii_of_string (holes ps)) ++ T)
                 "s"%char)
        by (first [rewrite H; app_eq | slen]).
      cbn [bind]. simpl (Ascii.eqb "s" "%"). cbv iota.
      replace (length L + String.length p + 1 + 1)
        with (length L + String.length p + 2) by lia.
      rewrite (IH (L ++ list_ascii_of_string p ++ ["%"%char; "s"%char]) q
                 (s ++ p ++ x)%string (elem + 1) (length L + String.length p + 2));
        [|rewrite H; app_eq|exact Hq|exact Hps|slen].
      simpl length.
      replace (S (length ps) <=? length a - elem)
        with (length ps <=? length a - (elem + 1)).
      2:{ destruct (length ps <=? length a - (elem + 1)) eqn:E1; symmetry;
          [apply Nat.leb_le in E1; apply Nat.leb_le; lia
          |apply Nat.leb_gt in E1; apply Nat.leb_gt; lia]. }
      destruct (length ps <=? length a - (elem + 1)); [|reflexivity].
      destruct trail; [reflexivity|].
      rewrite (drop_S a x elem Hx). simpl fill.
      replace (elem + 1) with (S elem) by lia.
      now rewrite !string_append_assoc.
    + apply Nat.ltb_ge in Ee. simpl length.
      replace (S (length ps) <=? length a - elem) with false
        by (symmetry; apply Nat.leb_gt; lia).
      reflexivity.
Qed.

Lemma Stringf_holes (p0 : string) (ps a : list string) :
  no_percent p0 = true -> forallb no_percent ps = true ->
  length ps <= length a ->
  Stringf (p0 ++ holes ps)%string (Some a) = Ok (p0 ++ fill a ps)%string.
Proof.
  intros Hp Hps Hl. unfold Stringf.
  rewrite (Stringf_pieces (p0 ++ holes ps)%string a false ps [] p0 "" 0 0);
    [|rewrite list_ascii_of_string_app; simpl; now rewrite app_nil_r|exact Hp|exact Hps
     |reflexivity].
  rewrite Nat.sub_0_r, drop_0. apply Nat.leb_le in Hl. now rewrite Hl.
Qed.

(** X15: on a format made of pieces without [%] with [%s] between them,
    [Stringf] with a non-nil argument list writes the pieces with the
    arguments in the places of the [%s], in order, and ignores the
    arguments that are left; with fewer arguments than places it panics. *)
Theorem Stringf_fills (p0 : string) (ps a : list string) :
  no_percent p0 = true -> forallb no_percent ps = true ->
  Stringf (p0 ++ holes ps)%string (Some a)
  = if length ps <=? length a then Ok (p0 ++ fill a ps)%string else Panic.
Proof.
  intros Hp Hps. unfold Stringf.
  rewrite (Stringf_pieces (p0 ++ holes ps)%string a false ps [] p0 "" 0 0);
    [|rewrite list_ascii_of_string_app; simpl; now rewrite app_nil_r|exact Hp|exact Hps
     |reflexivity].
  rewrite Nat.sub_0_r, drop_0. reflexivity.
Qed.

Lemma Stringf_fills_witness :
  Stringf "git commit -m 'v%s'" (Some ["0.1.5"]) = Ok "git commit -m 'v0.1.5'".
Proof.
  apply (Stringf_fills "git commit -m 'v" ["'"] ["0.1.5"]); reflexivity.
Defined.

Lemma Stringf_percent_last (format : string) (a : list string) (n : nat) :
  forall s pos elem i,
    String.length format = i + n ->
    Stringf_from (format ++ "%")%string a s pos elem i = Panic.
Proof.
  assert (Hlen : forall f, String.length (f ++ "%")%string = String.length f + 1).
  { intros f. rewrite <- !length_list_ascii_of_string, list_ascii_of_string_app,
      length_app. reflexivity. }
  induction n as [|n IH]; intros s pos elem i Hi; rewrite Stringf_unfold, Hlen.
  - replace (i <? String.length format + 1) with true
      by (symmetry; apply Nat.ltb_lt; lia).
    rewrite (sidx_middle (format ++ "%")%string (list_ascii_of_string format) [] "%"%char)
      by (first [now rewrite list_ascii_of_string_app | slen]).
    cbn [bind]. simpl (Ascii.eqb _ _). cbv iota.
    rewrite sidx_end; [reflexivity|].
    rewrite Hlen. lia.
  - replace (i <? String.length format + 1) with true
      by (symmetry; apply Nat.ltb_lt; lia).
    destruct (sidx (format ++ "%")%string i) as [c|]; [|reflexivity]. cbn [bind].
    destruct (Ascii.eqb c "%"); [|apply IH; lia].
    destruct (sidx (format ++ "%")%string (i + 1)) as [c1|]; [|reflexivity]. cbn [bind].
    destruct (Ascii.eqb c1 "s"); [|apply IH; lia].
    destruct (ssub (format ++ "%")%string pos i) as [w|]; [|reflexivity]. cbn [bind].
    destruct (elem <? length a); [|reflexivity].
    destruct (a !! elem) as [x|]; [|reflexivity]. cbn [bind].
    apply IH; lia.
Qed.

(** X16: a format whose last character is [%] makes [Stringf] panic for
    every non-nil argument list, whatever stands before it; without
    arguments the format is returned as it is. *)
Theorem Stringf_trailing_percent (format : string) (a : list string) :
  Stringf (format ++ "%")%string (Some a) = Panic
  /\ Stringf (format ++ "%")%string None = Ok (format ++ "%")%string.
Proof.
  split; [|reflexivity]. unfold Stringf.
  apply (Stringf_percent_last format a (String.length format)). reflexivity.
Qed.

(** ** The module file of the tests *)

(** A comment behind the identifier that does not start with [//v] is no
    annotation. *)
Lemma parseMod_other_comment (b : view) (prefix ws tl : list byte) (x : ident) (w : byte) :
  elems b = prefix ++ B modkw ++ ident_text x ++ (w :: ws) ++ com :: tl ->
  skipped false prefix = true -> ident_ok x = true ->
  forallb isspace (w :: ws) = true ->
  2 <= length tl -> take 3 (com :: tl) <> B pre ->
  parseMod b 0
  = Ok (ident_name x, "", 0, length prefix + 7 + length (ident_text x)).
Proof.
  intros Hb Hnz Hx Hws Hlen Hpre.
  rewrite (parseMod_keyword b prefix _ Hb Hnz). rewrite B_modkw in Hb.
  pose proof Hws as Hws'. cbn [forallb] in Hws'. apply andb_true_iff in Hws' as [Hw _].
  rewrite (parseModName_ident b (prefix ++ ["m"; "o"; "d"; "u"; "l"; "e"; " "]%byte)
             (ws ++ com :: tl) x w);
    [|rewrite Hb; app_eq|len_eq|exact Hx|exact Hw].
  simpl bind. cbv iota beta.
  unfold parseModVersion.
  set (i0 := length prefix + 7 + length (ident_text x)).
  rewrite (next_spaces b
             (prefix ++ ["m"; "o"; "d"; "u"; "l"; "e"; " "]%byte ++ ident_text x)
             (w :: ws) tl com i0 false);
    [|rewrite Hb; app_eq|subst i0; len_eq|exact Hws|reflexivity|reflexivity].
  cbn [bind].
  rewrite (idx_middle b
             (prefix ++ ["m"; "o"; "d"; "u"; "l"; "e"; " "]%byte ++ ident_text x ++ w :: ws)
             tl com);
    [|rewrite Hb; app_eq|subst i0; len_eq].
  cbn [bind]. rewrite beqb_refl.
  rewrite (sub_middle b
             (prefix ++ ["m"; "o"; "d"; "u"; "l"; "e"; " "]%byte ++ ident_text x ++ w :: ws)
             (take 3 (com :: tl)) (drop 3 (com :: tl)));
    [|rewrite take_drop, Hb; app_eq|subst i0; len_eq
     |rewrite length_take; cbn [length]; change (String.length pre) with 3; lia].
  cbn [bind].
  destruct (String.eqb (string_of_list_byte (take 3 (com :: tl))) pre) eqn:E;
    [|reflexivity].
  apply String.eqb_eq in E. exfalso. apply Hpre.
  rewrite <- (list_byte_of_string_of_list_byte (take 3 (com :: tl))), E. reflexivity.
Qed.

Lemma testMod_text (t : string) :
  testMod t
  = Ok (B ("// pub is a simple module for publishing go modules." ++ nl)
        ++ B modkw ++ B "github.com/jcdotter/pub" ++ [spc] ++ [com; com]
        ++ B t ++ [lin; lin] ++ B "go 1.17").
Proof.
  unfold testMod.
  change ("// pub is a simple module for publishing go modules." ++ nl
          ++ "module github.com/jcdotter/pub //%s" ++ nl ++ nl ++ "go 1.17")%string
    with (("// pub is a simple module for publishing go modules." ++ nl
           ++ "module github.com/jcdotter/pub //")
          ++ holes [nl ++ nl ++ "go 1.17"])%string.
  rewrite Stringf_holes by (reflexivity || (simpl; lia)).
  cbn [bind fill].
  rewrite !list_byte_of_string_app. reflexivity.
Qed.

(** X17: the module file the tests build, for every text [t] put behind
    the identifier as a comment: [testMod] returns; when [t] is [v]
    followed by a valid version the scan returns the module name, that
    version, the length [4 + len(version)] and the offset 83; when [t] does
    not start with [v] it returns the name, no version, length 0 and the
    offset 83. *)
Theorem testMod_scan (t : string) (spare : list byte) :
  exists bs,
    testMod t = Ok bs
    /\ (forall v, t = String "v" v -> validVersion (B v) = true ->
        parseMod (View bs spare) 0
        = Ok ("github.com/jcdotter/pub", v, 4 + String.length v, 83))
    /\ ((forall v, t <> String "v" v) ->
        parseMod (View bs spare) 0 = Ok ("github.com/jcdotter/pub", "", 0, 83)).
Proof.
  eexists. split; [apply testMod_text|]. split.
  - intros v -> Hv.
    rewrite (parseMod_annotated _
               (B ("// pub is a simple module for publishing go modules." ++ nl))
               [] (B v) ([lin; lin] ++ B "go 1.17")
               (Bare (B "github.com/jcdotter/pub")) spc);
      [|simpl elems; change (B (String "v" v)) with ("v"%byte :: B v); app_eq
       |reflexivity|reflexivity|reflexivity|exact Hv|reflexivity].
    unfold B. rewrite string_of_list_byte_of_string, length_list_byte_of_string.
    reflexivity.
  - intros Ht.
    rewrite (parseMod_other_comment _
               (B ("// pub is a simple module for publishing go modules." ++ nl))
               [] (com :: B t ++ [lin; lin] ++ B "go 1.17")
               (Bare (B "github.com/jcdotter/pub")) spc);
      [reflexivity|simpl elems; app_eq|reflexivity|reflexivity|reflexivity
      |len_norm; lia|].
    destruct t as [|c t]; [discriminate|].
    change (B (String c t)) with (byte_of_ascii c :: B t).
    simpl. intros [= H]. apply (Ht t). f_equal.
    rewrite <- (ascii_of_byte_of_ascii c), H. reflexivity.
Qed.

(** ** The program *)

Lemma io_bind_Ok {A C : Type} (m : io A) (f : A -> io C) (p p' : proc) (a : A) :
  m p = Ok (a, p') -> io_bind m f p = f a p'.
Proof. intros H. unfold io_bind. now rewrite H. Qed.

Lemma io_bind_Panic {A C : Type} (m : io A) (f : A -> io C) (p : proc) :
  m p = Panic -> io_bind m f p = Panic.
Proof. intros H. unfold io_bind. now rewrite H. Qed.

Lemma Console_Ok (format s : string) (a : option (list string)) (p : proc) :
  Stringf format a = Ok s ->
  Console format a p = Ok (tt, Proc (trace p ++ [Print s]) (mem p)).
Proof. intros H. unfold Console, io_bind, io_result. rewrite H. reflexivity. Qed.

Lemma Console_plain (format : string) (p : proc) :
  Console format None p = Ok (tt, Proc (trace p ++ [Print format]) (mem p)).
Proof. now apply Console_Ok. Qed.

(** The messages with places, filled. *)
Lemma Stringf_one (p0 q x : string) :
  no_percent p0 = true -> no_percent q = true ->
  Stringf (p0 ++ "%s" ++ q) (Some [x]) = Ok (p0 ++ x ++ q)%string.
Proof.
  intros H0 Hq.
  rewrite <- (string_append_nil_r q) at 1.
  change (p0 ++ "%s" ++ q ++ "")%string with (p0 ++ holes [q])%string.
  rewrite Stringf_holes by (simpl; first [lia | now rewrite ?Hq]).
  simpl. now rewrite string_append_nil_r.
Qed.

Lemma Stringf_two (p0 q1 q2 x1 x2 : string) :
  no_percent p0 = true -> no_percent q1 = true -> no_percent q2 = true ->
  Stringf (p0 ++ "%s" ++ q1 ++ "%s" ++ q2) (Some [x1; x2])
  = Ok (p0 ++ x1 ++ q1 ++ x2 ++ q2)%string.
Proof.
  intros H0 H1 H2.
  rewrite <- (string_append_nil_r q2) at 1.
  change (p0 ++ "%s" ++ q1 ++ "%s" ++ q2 ++ "")%string with (p0 ++ holes [q1; q2])%string.
  rewrite Stringf_holes by (simpl; first [lia | now rewrite ?H1, ?H2]).
  simpl. now rewrite string_append_nil_r.
Qed.

Lemma Stringf_tail (p0 x : string) :
  no_percent p0 = true ->
  Stringf (p0 ++ "%s") (Some [x]) = Ok (p0 ++ x)%string.
Proof.
  intros H0. pose proof (Stringf_one p0 "" x H0 eq_refl) as H.
  now rewrite !string_append_nil_r in H.
Qed.

Lemma Stringf_goProxy (n v : string) :
  Stringf goProxy (Some [n; v]) = Ok ("go list -m " ++ n ++ "@v" ++ v)%string.
Proof.
  pose proof (Stringf_two "go list -m " "@v" "" n v eq_refl eq_refl eq_refl) as H.
  now rewrite !string_append_nil_r in H.
Qed.

Lemma actions_app (t1 t2 : list event) : actions (t1 ++ t2) = actions t1 ++ actions t2.
Proof. apply List.filter_app. Qed.

Lemma actions_complaint (err : string) (e : option string) : actions (complaint err e) = [].
Proof. destruct e; reflexivity. Qed.

Lemma actions_ran (ex : list event -> list string -> option string)
    (t : list event) (err c : string) :
  actions (ran ex t err c) = actions t ++ [Exec (Split c " ")].
Proof.
  unfold ran. rewrite actions_app. f_equal.
  change (actions (Exec (Split c " ") :: complaint err (ex t (Split c " "))))
    with (Exec (Split c " ") :: actions (complaint err (ex t (Split c " ")))).
  now rewrite actions_complaint.
Qed.

Lemma ran_quiet (ex : list event -> list string -> option string)
    (t : list event) (err c : string) :
  (forall t' argv, ex t' argv = None) ->
  ran ex t err c = t ++ [Exec (Split c " ")].
Proof. intros H. unfold ran. now rewrite H. Qed.

Section ProgramLemmas.

Variable growcap : nat -> nat -> nat.
Variable readFile : option (list byte).
Variable spare : list byte.
Variable writeFails : list byte -> bool.
Variable execError : list event -> list string -> option string.

Lemma Command_spec (err c c' : string) (a : option (list string)) (p : proc) :
  (if 0 <? length (default [] a) then Stringf c a else Ok c) = Ok c' ->
  Command execError err c a p = Ok (tt, Proc (ran execError (trace p) err c') (mem p)).
Proof.
  intros Hc. unfold Command.
  rewrite (io_bind_Ok _ _ p p c') by (unfold io_result; now rewrite Hc).
  pose proof (Split_nonempty c' " ") as Hne.
  unfold ran. destruct (Split c' " ") as [|x xs] eqn:Es; [congruence|].
  cbn [lookup list_lookup]. simpl (_ !! 0).
  rewrite (io_bind_Ok _ _ p p x) by reflexivity.
  simpl drop.
  rewrite (io_bind_Ok _ _ p (Proc (trace p ++ [Exec (x :: xs)]) (mem p))
             (execError (trace p) (x :: xs))) by reflexivity.
  destruct (execError (trace p) (x :: xs)) as [msg|]; simpl complaint.
  - rewrite (io_bind_Ok _ _ _ _ tt (Console_plain err _)). cbn [trace mem].
    rewrite (Console_Ok ("%s" ++ nl) (msg ++ nl) (Some [msg]))
      by (apply (Stringf_one "" nl msg); reflexivity).
    cbn [trace mem]. rewrite <- !app_assoc. reflexivity.
  - reflexivity.
Qed.

Lemma Command_plain (err c : string) (p : proc) :
  Command execError err c None p = Ok (tt, Proc (ran execError (trace p) err c) (mem p)).
Proof. now apply Command_spec. Qed.

Lemma gitCommit_spec (v : string) (p : proc) :
  gitCommit execError v p
  = Ok (tt, Proc
      (ran execError
         (ran execError
            (ran execError
               (ran execError
                  (ran execError (trace p ++ [Print gitMsg]) gitAddErr gitAdd)
                  gitComErr ("git commit -m 'v" ++ v ++ "'"))
               gitTagErr ("git tag v" ++ v))
            gitPushErr ("git push origin v" ++ v))
         gitPushErr gitPush ++ [Print done])
      (mem p)).
Proof.
  unfold gitCommit.
  rewrite (io_bind_Ok _ _ _ _ tt (Console_plain gitMsg _)).
  rewrite (io_bind_Ok _ _ _ _ tt (Command_plain gitAddErr gitAdd _)). cbn [trace mem].
  rewrite (io_bind_Ok _ _ _ _ tt
             (Command_spec gitComErr gitCom ("git commit -m 'v" ++ v ++ "'") (Some [v]) _
                (Stringf_one "git commit -m 'v" "'" v eq_refl eq_refl))).
  cbn [trace mem].
  rewrite (io_bind_Ok _ _ _ _ tt
             (Command_spec gitTagErr gitTag ("git tag v" ++ v) (Some [v]) _
                (Stringf_tail "git tag v" v eq_refl))).
  cbn [trace mem].
  rewrite (io_bind_Ok _ _ _ _ tt
             (Command_spec gitPushErr gitPushOrg ("git push origin v" ++ v) (Some [v]) _
                (Stringf_tail "git push origin v" v eq_refl))).
  cbn [trace mem].
  rewrite (io_bind_Ok _ _ _ _ tt (Command_plain gitPushErr gitPush _)). cbn [trace mem].
  rewrite Console_plain. reflexivity.
Qed.

Lemma goProxyList_spec (n v : string) (p : proc) :
  goProxyList execError n v p
  = Ok (tt, Proc
      (ran execError (trace p ++ [Print goMsg; Setenv "GOPROXY" "proxy.golang.org"])
         goProxyErr ("go list -m " ++ n ++ "@v" ++ v) ++ [Print done])
      (mem p)).
Proof.
  unfold goProxyList.
  rewrite (io_bind_Ok _ _ _ _ tt (Console_plain goMsg _)).
  rewrite (io_bind_Ok _ _ _ (Proc ((trace p ++ [Print goMsg])
                                   ++ [Setenv "GOPROXY" "proxy.golang.org"]) (mem p)) tt)
    by reflexivity.
  rewrite (io_bind_Ok _ _ _ _ tt
             (Command_spec goProxyErr goProxy ("go list -m " ++ n ++ "@v" ++ v)
                (Some [n; v]) _ (Stringf_goProxy n v))).
  cbn [trace mem]. rewrite Console_plain. cbn [trace mem].
  rewrite <- (app_assoc (trace p)). reflexivity.
Qed.

(** The slice [os.ReadFile] returns holds the bytes of the file. *)
Lemma view_of_alloc (h : heap) (data : list byte) :
  view_of (h ++ [data ++ spare])
    (Slice (length h) 0 (length data) (length data + length spare))
  = View data spare.
Proof.
  unfold view_of, contents, array_of. cbn [ptr off slen scap].
  rewrite list_lookup_middle by reflexivity. cbn [default from_option id].
  rewrite drop_0, take_app_length. f_equal.
  replace (length data + length spare - length data) with (length spare) by lia.
  rewrite Nat.add_0_l, drop_app_length. apply firstn_all.
Qed.

Lemma wf_alloc (h : heap) (data : list byte) :
  wf_slice (h ++ [data ++ spare])
    (Slice (length h) 0 (length data) (length data + length spare)).
Proof.
  unfold wf_slice, array_of. cbn [ptr off slen scap].
  rewrite list_lookup_middle by reflexivity. cbn [default from_option id].
  rewrite !length_app. simpl. lia.
Qed.

Lemma parseModFile_unreadable (p : proc) :
  readFile = None ->
  parseModFile readFile spare p
  = Ok (None, Proc (trace p ++ [ReadFile file]) (mem p)).
Proof. intros ->. reflexivity. Qed.

Lemma parseModFile_read (data : list byte) (p : proc) :
  readFile = Some data ->
  parseModFile readFile spare p
  = match parseMod (View data spare) 0 with
    | Ok (name, version, vlen, vpos) =>
        Ok (Some (name, version,
                  Slice (length (mem p)) 0 (length data) (length data + length spare),
                  vpos, vlen),
            Proc (trace p ++ [ReadFile file]) (mem p ++ [data ++ spare]))
    | Panic => Panic
    end.
Proof.
  intros ->. unfold parseModFile, io_bind, emit, io_go, alloc, io_result, io_ret.
  cbn [trace mem]. rewrite view_of_alloc.
  destruct (parseMod (View data spare) 0) as [[[[name version] vlen] vpos]|]; reflexivity.
Qed.

Lemma updateModFile_spec (bytes : slice) (vpos vlen : nat) (version : string) (p : proc) :
  wf_slice (mem p) bytes -> vpos + vlen <= slen bytes ->
  exists h',
    updateModFile growcap writeFails bytes vpos vlen version p
    = Ok (writeFails (spliced (contents (mem p) bytes) vpos vlen version),
          Proc (trace p
                ++ [WriteFile file (spliced (contents (mem p) bytes) vpos vlen version)])
               h').
Proof.
  intros Hwf Hr.
  destruct (updateModVersion_spec growcap (mem p) bytes vpos vlen version Hwf Hr)
    as (r & h' & Hu & _ & Hc & _).
  exists h'. unfold updateModFile, io_bind, io_go, read, emit, io_ret.
  rewrite Hu. cbn [trace mem]. rewrite Hc. reflexivity.
Qed.

Lemma assessVersion_total (cv uv : string) :
  exists nv ok, assessVersion cv uv = Ok (nv, ok).
Proof.
  destruct (String.eqb uv "") eqn:Eu.
  - apply String.eqb_eq in Eu. subst uv.
    destruct (assessVersion_next_valid cv) as (nv & Hn). now exists nv, true.
  - unfold assessVersion, validUserVersion. rewrite Eu.
    destruct (validVersion (list_byte_of_string uv)); [|now exists "", false].
    cbn [negb].
    destruct (String.eqb cv "" || String.eqb cv uv); [now exists uv, true|].
    destruct (length (Split cv ".") =? length (Split uv ".")) eqn:El;
      [|now exists "", false].
    apply Nat.eqb_eq in El. cbn [negb].
    destruct (compareParts_total (Split cv ".") (Split uv ".") 0 El) as [r Hr].
    rewrite drop_0 in Hr. rewrite Hr. cbn [bind].
    destruct r; [now exists uv, true|now exists "", false].
Qed.

(** [updateVersion], case by case. *)
Lemma updateVersion_unreadable (uv : string) (p : proc) :
  readFile = None ->
  updateVersion growcap readFile spare writeFails uv p
  = Ok (("", "", false),
        Proc (trace p ++ [ReadFile file; Print modParseErr]) (mem p)).
Proof.
  intros H. unfold updateVersion.
  rewrite (io_bind_Ok _ _ _ _ _ (parseModFile_unreadable p H)).
  rewrite (io_bind_Ok _ _ _ _ tt (Console_plain modParseErr _)). cbn [trace mem].
  unfold io_ret. rewrite <- app_assoc. reflexivity.
Qed.

Lemma updateVersion_panics (data : list byte) (uv : string) (p : proc) :
  readFile = Some data -> parseMod (View data spare) 0 = Panic ->
  updateVersion growcap readFile spare writeFails uv p = Panic.
Proof.
  intros H Hp. unfold updateVersion. apply io_bind_Panic.
  rewrite (parseModFile_read data p H), Hp. reflexivity.
Qed.

Lemma updateVersion_scanned (data : list byte) (name cv uv : string) (vlen vpos : nat)
    (p : proc) :
  readFile = Some data -> parseMod (View data spare) 0 = Ok (name, cv, vlen, vpos) ->
  forall nv ok, assessVersion cv uv = Ok (nv, ok) ->
  exists h',
    updateVersion growcap readFile spare writeFails uv p
    = Ok ((name, nv, ok),
          Proc (trace p
                ++ [ReadFile file;
                    Print ("done. (module: " ++ name ++ ", version: " ++ cv ++ ")" ++ nl)]
                ++ (if ok then
                      [Print ("New version: " ++ nv ++ nl); Print pubUpdate;
                       WriteFile file (spliced data vpos vlen nv);
                       Print (if writeFails (spliced data vpos vlen nv)
                              then modUpdateErr else done)]
                    else [Print ("Invalid version: " ++ uv ++ nl)]))
               h').
Proof.
  intros H Hp nv ok Ha. unfold updateVersion.
  pose proof (parseModFile_read data p H) as Hf. rewrite Hp in Hf.
  rewrite (io_bind_Ok _ _ _ _ _ Hf).
  rewrite (io_bind_Ok _ _ _ _ tt
             (Console_Ok modDone _ (Some [name; cv]) _
                (Stringf_two "done. (module: " ", version: " (")" ++ nl) name cv
                   eq_refl eq_refl eq_refl))).
  cbn [trace mem].
  rewrite (io_bind_Ok _ _ _ _ (nv, ok)) by (unfold io_result; now rewrite Ha).
  destruct ok; cbn [negb].
  - rewrite (io_bind_Ok _ _ _ _ tt
               (Console_Ok versionNew _ (Some [nv]) _
                  (Stringf_one "New version: " nl nv eq_refl eq_refl))).
    cbn [trace mem].
    rewrite (io_bind_Ok _ _ _ _ tt (Console_plain pubUpdate _)). cbn [trace mem].
    set (bytes := Slice (length (mem p)) 0 (length data) (length data + length spare)).
    assert (Hr : vpos + vlen <= slen bytes).
    { pose proof (parseMod_range (View data spare) 0 vlen vpos name cv Hp) as Hr.
      unfold len in Hr. simpl in *. lia. }
    match goal with
    | |- context [io_bind _ _ ?q] =>
        destruct (updateModFile_spec bytes vpos vlen nv q) as (h' & Hu);
          [apply wf_alloc|exact Hr|]
    end.
    cbn [trace mem] in Hu.
    assert (Hd : contents (mem p ++ [data ++ spare]) bytes = data).
    { pose proof (view_of_alloc (mem p) data) as Hv.
      apply (f_equal elems) in Hv. exact Hv. }
    rewrite Hd in Hu.
    rewrite (io_bind_Ok _ _ _ _ _ Hu). exists h'.
    destruct (writeFails (spliced data vpos vlen nv)).
    + rewrite (io_bind_Ok _ _ _ _ tt (Console_plain modUpdateErr _)). cbn [trace mem].
      unfold io_ret. do 2 f_equal. f_equal. app_eq.
    + rewrite (io_bind_Ok _ _ _ _ tt (Console_plain done _)). cbn [trace mem].
      unfold io_ret. do 2 f_equal. f_equal. app_eq.
  - rewrite (io_bind_Ok _ _ _ _ tt
               (Console_Ok versionErr _ (Some [uv]) _
                  (Stringf_one "Invalid version: " nl uv eq_refl eq_refl))).
    cbn [trace mem]. exists (mem p ++ [data ++ spare]).
    unfold io_ret. do 2 f_equal. f_equal. app_eq.
Qed.


(** [Publish], when the file was scanned and the version accepted. *)
Lemma Publish_published (data : list byte) (name cv uv nv : string) (vlen vpos : nat)
    (p : proc) :
  readFile = Some data -> parseMod (View data spare) 0 = Ok (name, cv, vlen, vpos) ->
  assessVersion cv uv = Ok (nv, true) ->
  exists h',
    Publish growcap readFile spare writeFails execError uv p
    = Ok (tt, Proc
        (ran execError
          (ran execError
            (ran execError
              (ran execError
                (ran execError
                  (ran execError
                     ((trace p
                       ++ [Print pubInit; ReadFile file;
                           Print ("done. (module: " ++ name ++ ", version: " ++ cv
                                  ++ ")" ++ nl);
                           Print ("New version: " ++ nv ++ nl); Print pubUpdate;
                           WriteFile file (spliced data vpos vlen nv);
                           Print (if writeFails (spliced data vpos vlen nv)
                                  then modUpdateErr else done)])
                      ++ [Print gitMsg])
                     gitAddErr gitAdd)
                  gitComErr ("git commit -m 'v" ++ nv ++ "'"))
                gitTagErr ("git tag v" ++ nv))
              gitPushErr ("git push origin v" ++ nv))
            gitPushErr gitPush
           ++ [Print done] ++ [Print goMsg; Setenv "GOPROXY" "proxy.golang.org"])
          goProxyErr ("go list -m " ++ name ++ "@v" ++ nv)
         ++ [Print done; Print pubComplete])
        h').
Proof.
  intros H Hp Ha. unfold Publish.
  rewrite (io_bind_Ok _ _ _ _ tt (Console_plain pubInit _)).
  match goal with
  | |- context [io_bind _ _ ?q] =>
      destruct (updateVersion_scanned data name cv uv vlen vpos q H Hp nv true Ha)
        as (h' & Hu)
  end.
  cbn [trace mem] in Hu. rewrite (io_bind_Ok _ _ _ _ _ Hu). cbn [negb].
  exists h'.
  rewrite (io_bind_Ok _ _ _ _ tt (gitCommit_spec nv _)). cbn [trace mem].
  rewrite (io_bind_Ok _ _ _ _ tt (goProxyList_spec name nv _)). cbn [trace mem].
  rewrite Console_plain. cbn [trace mem].
  do 2 f_equal. f_equal. rewrite <- (app_assoc _ [Print done] [Print pubComplete]).
  f_equal. f_equal. rewrite <- (app_assoc _ [Print done]). f_equal.
  do 5 f_equal. rewrite <- !app_assoc. reflexivity.
Qed.

(** X18: when [go.mod] cannot be read, [Publish] prints its first message
    and the error message and returns: it writes no file and runs no
    command. *)
Theorem Publish_unreadable (uv : string) (p : proc) :
  readFile = None ->
  Publish growcap readFile spare writeFails execError uv p
  = Ok (tt, Proc (trace p ++ [Print pubInit; ReadFile file; Print modParseErr]) (mem p)).
Proof.
  intros H. unfold Publish.
  rewrite (io_bind_Ok _ _ _ _ tt (Console_plain pubInit _)).
  rewrite (io_bind_Ok _ _ _ _ _ (updateVersion_unreadable uv _ H)).
  cbn [negb trace mem]. unfold io_ret. rewrite <- app_assoc. reflexivity.
Qed.

(** X19: when the version decision rejects the user's version, [Publish]
    prints the module and its current version and the message that names
    the rejected version, and returns: it writes no file and runs no
    command. *)
Theorem Publish_rejected (data : list byte) (name cv uv nv : string) (vlen vpos : nat)
    (p : proc) :
  readFile = Some data -> parseMod (View data spare) 0 = Ok (name, cv, vlen, vpos) ->
  assessVersion cv uv = Ok (nv, false) ->
  exists h',
    Publish growcap readFile spare writeFails execError uv p
    = Ok (tt, Proc (trace p
                    ++ [Print pubInit; ReadFile file;
                        Print ("done. (module: " ++ name ++ ", version: " ++ cv
                               ++ ")" ++ nl);
                        Print ("Invalid version: " ++ uv ++ nl)])
                   h').
Proof.
  intros H Hp Ha. unfold Publish.
  rewrite (io_bind_Ok _ _ _ _ tt (Console_plain pubInit _)).
  match goal with
  | |- context [io_bind _ _ ?q] =>
      destruct (updateVersion_scanned data name cv uv vlen vpos q H Hp nv false Ha)
        as (h' & Hu)
  end.
  cbn [trace mem] in Hu. rewrite (io_bind_Ok _ _ _ _ _ Hu). cbn [negb].
  exists h'. unfold io_ret. rewrite <- app_assoc. reflexivity.
Qed.

(** X20: when [go.mod] was scanned and the version decision gave a new
    version, [Publish] returns and, whether or not the file could be
    written and whichever commands fail, reads the file, writes the spliced
    text, runs the five git commands in the order add, commit, tag, push of
    the tag, push of main, sets [GOPROXY] and runs [go list]; the last thing
    it prints is the message of success. *)
Theorem Publish_actions (data : list byte) (name cv uv nv : string) (vlen vpos : nat)
    (p : proc) :
  readFile = Some data -> parseMod (View data spare) 0 = Ok (name, cv, vlen, vpos) ->
  assessVersion cv uv = Ok (nv, true) ->
  exists p',
    Publish growcap readFile spare writeFails execError uv p = Ok (tt, p')
    /\ actions (trace p')
       = actions (trace p)
         ++ [ReadFile file;
             WriteFile file (spliced data vpos vlen nv);
             Exec (Split "git add ." " ");
             Exec (Split ("git commit -m 'v" ++ nv ++ "'") " ");
             Exec (Split ("git tag v" ++ nv) " ");
             Exec (Split ("git push origin v" ++ nv) " ");
             Exec (Split "git push origin main" " ");
             Setenv "GOPROXY" "proxy.golang.org";
             Exec (Split ("go list -m " ++ name ++ "@v" ++ nv) " ")]
    /\ last (trace p') = Some (Print pubComplete).
Proof.
  intros H Hp Ha.
  destruct (Publish_published data name cv uv nv vlen vpos p H Hp Ha) as (h' & Hu).
  eexists. split; [exact Hu|]. cbn [trace]. split.
  - rewrite actions_app, actions_ran, !actions_app, !actions_ran, !actions_app.
    cbn [actions List.filter is_action]. rewrite app_nil_r. app_eq.
  - change [Print done; Print pubComplete] with ([Print done] ++ [Print pubComplete]).
    rewrite (app_assoc _ [Print done]). apply last_snoc.
Qed.

(** X21: when, moreover, the file is written and every command succeeds,
    the events of [Publish] are exactly these, in this order. *)
Theorem Publish_quiet (data : list byte) (name cv uv nv : string) (vlen vpos : nat)
    (p : proc) :
  readFile = Some data -> parseMod (View data spare) 0 = Ok (name, cv, vlen, vpos) ->
  assessVersion cv uv = Ok (nv, true) ->
  writeFails (spliced data vpos vlen nv) = false ->
  (forall t argv, execError t argv = None) ->
  exists h',
    Publish growcap readFile spare writeFails execError uv p
    = Ok (tt, Proc
        (trace p
         ++ [Print pubInit; ReadFile file;
             Print ("done. (module: " ++ name ++ ", version: " ++ cv ++ ")" ++ nl);
             Print ("New version: " ++ nv ++ nl);
             Print pubUpdate;
             WriteFile file (spliced data vpos vlen nv);
             Print done;
             Print gitMsg;
             Exec (Split "git add ." " ");
             Exec (Split ("git commit -m 'v" ++ nv ++ "'") " ");
             Exec (Split ("git tag v" ++ nv) " ");
             Exec (Split ("git push origin v" ++ nv) " ");
             Exec (Split "git push origin main" " ");
             Print done;
             Print goMsg;
             Setenv "GOPROXY" "proxy.golang.org";
             Exec (Split ("go list -m " ++ name ++ "@v" ++ nv) " ");
             Print done;
             Print pubComplete])
        h').
Proof.
  intros H Hp Ha Hw Hq.
  destruct (Publish_published data name cv uv nv vlen vpos p H Hp Ha) as (h' & Hu).
  exists h'. rewrite Hu, Hw. rewrite !(ran_quiet execError) by exact Hq.
  do 2 f_equal. f_equal. app_eq.
Qed.

Lemma Publish_panics (data : list byte) (uv : string) (p : proc) :
  readFile = Some data -> parseMod (View data spare) 0 = Panic ->
  Publish growcap readFile spare writeFails execError uv p = Panic.
Proof.
  intros H Hp. unfold Publish.
  rewrite (io_bind_Ok _ _ _ _ tt (Console_plain pubInit _)).
  apply io_bind_Panic. now apply (updateVersion_panics data).
Qed.

Lemma Publish_returns (uv : string) (p : proc) :
  (forall data, readFile = Some data -> parseMod (View data spare) 0 <> Panic) ->
  exists p', Publish growcap readFile spare writeFails execError uv p = Ok (tt, p').
Proof.
  intros Hs. unfold Publish.
  rewrite (io_bind_Ok _ _ _ _ tt (Console_plain pubInit _)).
  destruct readFile as [data|] eqn:Er.
  - specialize (Hs data eq_refl).
    destruct (parseMod (View data spare) 0) as [[[[name cv] vlen] vpos]|] eqn:Hp;
      [|congruence].
    destruct (assessVersion_total cv uv) as (nv & ok & Ha).
    match goal with
    | |- context [io_bind _ _ ?q] =>
        destruct (updateVersion_scanned data name cv uv vlen vpos q Er Hp nv ok Ha)
          as (h' & Hu)
    end.
    rewrite <- Er in *. rewrite (io_bind_Ok _ _ _ _ _ Hu). destruct ok; cbn [negb].
    + rewrite (io_bind_Ok _ _ _ _ tt (gitCommit_spec nv _)).
      rewrite (io_bind_Ok _ _ _ _ tt (goProxyList_spec name nv _)).
      rewrite Console_plain. eexists. reflexivity.
    + eexists. reflexivity.
  - rewrite <- Er in *.
    rewrite (io_bind_Ok _ _ _ _ _ (updateVersion_unreadable uv _ Er)).
    eexists. reflexivity.
Qed.

(** X22: [Run] panics exactly when [cmdAction] does, or when the action is
    to publish and the scan of the file read panics; in every other case it
    returns. *)
Theorem Run_panics_iff (args : list string) (p : proc) :
  Run growcap readFile spare writeFails execError args p = Panic
  <-> cmdAction args = Panic
      \/ exists uv data,
           cmdAction args = Ok (3, uv) /\ readFile = Some data
           /\ parseMod (View data spare) 0 = Panic.
Proof.
  unfold Run. destruct (cmdAction args) as [[a uv]|] eqn:Ec.
  - rewrite (io_bind_Ok _ _ p p (a, uv)) by reflexivity.
    destruct a as [|[|[|[|a]]]].
    + rewrite Console_plain.
      split; [discriminate|intros [H|(u & d & H & _)]; discriminate].
    + rewrite Console_plain.
      split; [discriminate|intros [H|(u & d & H & _)]; discriminate].
    + rewrite Console_plain.
      split; [discriminate|intros [H|(u & d & H & _)]; discriminate].
    + split.
      * intros HP. right. exists uv.
        destruct readFile as [data|] eqn:Er.
        -- exists data. split; [reflexivity|]. split; [reflexivity|].
           destruct (parseMod (View data spare) 0) eqn:Hp; [|reflexivity].
           exfalso. rewrite <- Er in HP.
           destruct (Publish_returns uv p) as (p' & Hr); [|congruence].
           intros d Hd. rewrite Er in Hd. injection Hd as <-. congruence.
        -- exfalso. rewrite <- Er in HP.
           destruct (Publish_returns uv p) as (p' & Hr); [|congruence].
           intros d Hd. rewrite Er in Hd. discriminate.
      * intros [H|(u & d & _ & Hr & Hp)]; [discriminate|].
        now apply (Publish_panics d).
    + split; [discriminate|intros [H|(u & d & H & _)]; discriminate].
  - split; [now left|reflexivity].
Qed.

(** X23: for every action but publishing, [Run] prints one message, the one
    of the action, and does nothing else. *)
Theorem Run_message (args : list string) (a : nat) (v : string) (p : proc) :
  cmdAction args = Ok (a, v) -> a <> 3 ->
  a < 3
  /\ Run growcap readFile spare writeFails execError args p
     = Ok (tt, Proc (trace p
                     ++ [Print (match a with
                                | 0 => invalidCmd
                                | 1 => helpCmd
                                | _ => versionCmd
                                end)])
                    (mem p)).
Proof.
  intros Hc Ha.
  assert (Hlt : a < 3).
  { destruct args as [|prog [|f [|x rest]]]; try discriminate.
    - injection Hc as <- <-. lia.
    - apply cmdAction_flag_cases in Hc as [[_ H]|[H _]]; lia.
    - injection Hc as <- <-. lia. }
  split; [exact Hlt|]. unfold Run.
  rewrite (io_bind_Ok _ _ p p (a, v)) by (unfold io_result; now rewrite Hc).
  destruct a as [|[|[|a]]]; [apply Console_plain..|lia].
Qed.

End ProgramLemmas.

Lemma Publish_unreadable_witness :
  Publish exact_fit None [] (fun _ => false) (fun _ _ => None) "1.0.1" (Proc [] [])
  = Ok (tt, Proc [Print pubInit; ReadFile file; Print modParseErr] []).
Proof.
  apply (Publish_unreadable exact_fit None [] (fun _ => false) (fun _ _ => None)
           "1.0.1" (Proc [] [])).
  reflexivity.
Defined.

Lemma Publish_rejected_witness :
  exists h',
    Publish exact_fit (Some ex_text) [] (fun _ => false) (fun _ _ => None) "0.9.0"
      (Proc [] [])
    = Ok (tt, Proc [Print pubInit; ReadFile file;
                    Print ("done. (module: foo, version: 1.0.0)" ++ nl);
                    Print ("Invalid version: 0.9.0" ++ nl)] h').
Proof.
  destruct (Publish_rejected exact_fit (Some ex_text) [] (fun _ => false)
              (fun _ _ => None) ex_text "foo" "1.0.0" "0.9.0" "" 9 10 (Proc [] []))
    as (h' & H); [reflexivity|reflexivity|reflexivity|].
  exists h'. exact H.
Defined.

Lemma Publish_actions_witness :
  exists p',
    Publish exact_fit (Some ex_text) [] (fun _ => true)
      (fun _ _ => Some "exit status 1") "" (Proc [] [])
    = Ok (tt, p')
    /\ actions (trace p')
       = [ReadFile "go.mod";
          WriteFile "go.mod" (B "module foo //v1.0.1" ++ [lin]);
          Exec ["git"; "add"; "."];
          Exec ["git"; "commit"; "-m"; "'v1.0.1'"];
          Exec ["git"; "tag"; "v1.0.1"];
          Exec ["git"; "push"; "origin"; "v1.0.1"];
          Exec ["git"; "push"; "origin"; "main"];
          Setenv "GOPROXY" "proxy.golang.org";
          Exec ["go"; "list"; "-m"; "foo@v1.0.1"]]
    /\ last (trace p') = Some (Print pubComplete).
Proof.
  destruct (Publish_actions exact_fit (Some ex_text) [] (fun _ => true)
              (fun _ _ => Some "exit status 1") ex_text "foo" "1.0.0" "" "1.0.1" 9 10
              (Proc [] []))
    as (p' & H & Ht & Hl); [reflexivity|reflexivity|reflexivity|].
  exists p'. split; [exact H|]. split; [exact Ht|exact Hl].
Defined.

Lemma Publish_quiet_witness :
  exists h',
    Publish exact_fit (Some ex_text) [] (fun _ => false) (fun _ _ => None) "1.1.0"
      (Proc [] [])
    = Ok (tt, Proc
        [Print pubInit; ReadFile "go.mod";
         Print ("done. (module: foo, version: 1.0.0)" ++ nl);
         Print ("New version: 1.1.0" ++ nl);
         Print pubUpdate;
         WriteFile "go.mod" (B "module foo //v1.1.0" ++ [lin]);
         Print done;
         Print gitMsg;
         Exec ["git"; "add"; "."];
         Exec ["git"; "commit"; "-m"; "'v1.1.0'"];
         Exec ["git"; "tag"; "v1.1.0"];
         Exec ["git"; "push"; "origin"; "v1.1.0"];
         Exec ["git"; "push"; "origin"; "main"];
         Print done;
         Print goMsg;
         Setenv "GOPROXY" "proxy.golang.org";
         Exec ["go"; "list"; "-m"; "foo@v1.1.0"];
         Print done;
         Print pubComplete] h').
Proof.
  destruct (Publish_quiet exact_fit (Some ex_text) [] (fun _ => false)
              (fun _ _ => None) ex_text "foo" "1.0.0" "1.1.0" "1.1.0" 9 10 (Proc [] []))
    as (h' & H); [reflexivity|reflexivity|reflexivity|reflexivity|reflexivity|].
  exists h'. exact H.
Defined.

Lemma Run_message_witness :
  Run exact_fit None [] (fun _ => false) (fun _ _ => None) ["pub"; "version"] (Proc [] [])
  = Ok (tt, Proc [Print versionCmd] []).
Proof.
  destruct (Run_message exact_fit None [] (fun _ => false) (fun _ _ => None)
              ["pub"; "version"] 2 "" (Proc [] [])) as (_ & H);
    [reflexivity|lia|exact H].
Defined.

(** ** The keyword search on arbitrary buffers *)

Lemma idx_total (b : view) (i : nat) : i < len b -> exists c, idx b i = Ok c.
Proof.
  intros H. destruct (lookup_lt_is_Some_2 (elems b) i H) as [c Hc].
  exists c. now apply idx_Ok.
Qed.

Lemma idx_Panic (b : view) (i : nat) : idx b i = Panic -> len b <= i.
Proof.
  intros H. destruct (decide (i < len b)) as [Hlt|]; [|lia].
  destruct (idx_total b i Hlt) as [c Hc]. congruence.
Qed.

Lemma last_lookup_com (b : view) (i : nat) :
  idx b i = Ok com -> len b <= i + 1 -> last (elems b) = Some com.
Proof.
  intros Hc Hl. pose proof (idx_lt _ _ _ Hc) as Hlt. apply idx_Ok in Hc.
  rewrite last_lookup. unfold len in *.
  replace (pred (length (elems b))) with i by lia. exact Hc.
Qed.

Lemma skipComment_Panic (b : view) (i : nat) :
  i < len b -> skipComment b i = Panic -> last (elems b) = Some com.
Proof.
  intros Hi. unfold skipComment, iscomm.
  destruct (idx_total b i Hi) as [c Hc]. rewrite Hc. cbn [bind].
  destruct (Byte.eqb c com) eqn:E; [|discriminate].
  apply beqb_eq in E. subst c.
  destruct (idx b (i + 1)) as [c1|] eqn:E1; cbn [bind].
  - destruct (Byte.eqb c1 com); discriminate.
  - intros _. apply idx_Panic in E1. now apply (last_lookup_com b i).
Qed.

Lemma next_true_spec (b : view) (i : nat) :
  (next b i true = Panic -> last (elems b) = Some com)
  /\ (forall p, next b i true = Ok p ->
      forall c, elems b !! p = Some c -> isspace c = false /\ c <> com).
Proof.
  remember (len b - i) as k eqn:Hk. revert i Hk.
  induction k as [k IH] using lt_wf_ind. intros i Hk.
  rewrite next_unfold. destruct (i <? len b) eqn:E.
  - apply Nat.ltb_lt in E. destruct (idx_total b i E) as [c Hc]. rewrite Hc.
    cbn [bind andb].
    destruct (Byte.eqb c com) eqn:Ec.
    + destruct (skipComment b i) as [j|] eqn:Ej; cbn [bind].
      * pose proof (skipComment_ge b i j Ej) as Hge.
        apply (IH (len b - (j + 1))); lia.
      * split; [intros _; now apply (skipComment_Panic b i)|discriminate].
    + destruct (isspace c) eqn:Es.
      * apply (IH (len b - (i + 1))); lia.
      * split; [discriminate|]. intros p [= <-] c' Hc'.
        apply idx_Ok in Hc. rewrite Hc in Hc'. injection Hc' as <-.
        split; [exact Es|]. now apply beqb_neq.
  - apply Nat.ltb_ge in E. split; [discriminate|]. intros p [= <-] c Hc.
    apply lookup_lt_Some in Hc. unfold len in E. lia.
Qed.

(** X24: the keyword search's [next], which skips comments: it panics only
    on a buffer whose last byte is a slash, and the offset it returns holds
    neither whitespace nor a slash. *)
Theorem next_skipcom (b : view) (i : nat) :
  (next b i true = Panic -> last (elems b) = Some com)
  /\ (forall p, next b i true = Ok p ->
      forall c, elems b !! p = Some c -> isspace c = false /\ c <> com).
Proof. apply next_true_spec. Qed.

Lemma has_keyword_at (l : list byte) (i : nat) :
  i < length l -> keyword_at l i = true -> has_keyword l = true.
Proof.
  intros Hi Hk. unfold has_keyword. apply existsb_exists. exists i.
  split; [|exact Hk]. apply in_seq. lia.
Qed.

(** X25: the scan of a buffer that does not hold the keyword and does not
    end in a slash never panics. *)
Theorem scan_panics_only (b : view) (i : nat) :
  parseMod b i = Panic ->
  last (elems b) = Some com \/ has_keyword (elems b) = true.
Proof.
  remember (len b - i) as k eqn:Hk. revert i Hk.
  induction k as [k IH] using lt_wf_ind. intros i Hk.
  rewrite parseMod_unfold. destruct (i <? len b) eqn:E; [|discriminate].
  apply Nat.ltb_lt in E.
  destruct (next b i true) as [i1|] eqn:En; cbn [bind].
  - pose proof (next_ge b i i1 true En) as Hge.
    destruct (len b <? i1 + 7) eqn:E7; [discriminate|].
    apply Nat.ltb_ge in E7.
    rewrite sub_elems by lia. cbn [bind].
    replace (i1 + 7 - i1) with 7 by lia.
    destruct (String.eqb (string_of_list_byte (take 7 (drop i1 (elems b)))) modkw) eqn:Ek.
    + intros _. right. apply (has_keyword_at (elems b) i1); [unfold len in *; lia|exact Ek].
    + intros H. apply (IH (len b - (i1 + 1))) in H; [exact H|lia|reflexivity].
  - intros _. left. now apply (proj1 (next_true_spec b i)).
Qed.

Lemma scan_panics_only_witness :
  last (elems (View (B "module ") [])) = Some com
  \/ has_keyword (elems (View (B "module ") [])) = true.
Proof.
  apply (scan_panics_only (View (B "module ") []) 0). reflexivity.
Defined.
